(** * react-native-code-push: release resolution and sync guard

    A shallow embedding of [src/manual/SemverVersioning.js] and of the
    update-check, status-report, rollback-retry and sync functions of
    [src/CodePush.js], with the properties of the specification stated
    and proved over it, followed by further properties of these
    functions and of [notifyApplicationReady], the body of
    [syncInternal] and [codePushify]. *)

From Stdlib Require Import ZArith NArith QArith Bool List String Ascii Lia.
From Stdlib Require Import Sorted Permutation.
From stdpp Require Import base option list gmap strings.

Local Open Scope string_scope.
Local Open Scope Z_scope.
Local Open Scope list_scope.

(** ** JavaScript values and completions

    The part of the language the embedded functions rely on: numbers
    with [NaN], primitive values with truthiness, [typeof] and [===],
    objects as finite maps from property names to values, normal and
    abrupt completion, and the stable [Array.prototype.sort]. *)
Module JS.

(** A finite double is represented by the rational it denotes. *)
Inductive number : Type :=
| NaN
| Fin (q : Q).

Inductive prim : Type :=
| undefined
| null
| boolean (b : bool)
| num (n : number)
| str (s : string).

#[warnings="-register-all"]
Inductive value : Type :=
| Prim (p : prim)
| Object (props : gmap string value)
| Function (id : nat).

Definition truthy_prim (p : prim) : bool :=
  match p with
  | undefined | null => false
  | boolean b => b
  | num NaN => false
  | num (Fin q) => negb (Qeq_bool q 0)
  | str s => negb (String.eqb s "")
  end.

Definition truthy (v : value) : bool :=
  match v with
  | Prim p => truthy_prim p
  | Object _ | Function _ => true
  end.

Definition typeof (v : value) : string :=
  match v with
  | Prim undefined => "undefined"
  | Prim null => "object"
  | Prim (boolean _) => "boolean"
  | Prim (num _) => "number"
  | Prim (str _) => "string"
  | Object _ => "object"
  | Function _ => "function"
  end.

(** [a === b] on primitive values. *)
Definition strict_eq (a b : prim) : bool :=
  match a, b with
  | undefined, undefined => true
  | null, null => true
  | boolean x, boolean y => Bool.eqb x y
  | num (Fin x), num (Fin y) => Qeq_bool x y
  | str s, str t => String.eqb s t
  | _, _ => false
  end.

(** [a ?? b]. *)
Definition nullish (a b : prim) : prim :=
  match a with
  | undefined | null => b
  | _ => a
  end.

(** [a || b] on primitive values. *)
Definition or_prim (a b : prim) : prim := if truthy_prim a then a else b.

(** [o.k] on an object: [undefined] for a missing property. *)
Definition get (props : gmap string value) (k : string) : value :=
  default (Prim undefined) (props !! k).

(** [{...a, ...b}]: the properties of [b] win. *)
Definition spread (a b : gmap string value) : gmap string value := b ∪ a.

Definition number_sub (a b : number) : number :=
  match a, b with
  | Fin x, Fin y => Fin (x - y)
  | _, _ => NaN
  end.

(** Division by a non-zero constant. *)
Definition number_div (a : number) (d : Q) : number :=
  match a with
  | Fin x => Fin (x / d)
  | NaN => NaN
  end.

(** [a >= b] and [a < b]: false when either side is [NaN]. *)
Definition number_ge (a b : number) : bool :=
  match a, b with
  | Fin x, Fin y => Qle_bool y x
  | _, _ => false
  end.

Definition number_lt (a b : number) : bool :=
  match a, b with
  | Fin x, Fin y => negb (Qle_bool y x)
  | _, _ => false
  end.

(** The number a value is used as in a comparison, for the values that
    reach one here: [validateRollbackRetryOptions] has checked
    [typeof ... === "number"] before. *)
Definition number_of (v : value) : number :=
  match v with
  | Prim (num n) => n
  | _ => NaN
  end.

Record Error : Type := mkError { name : string; message : string }.

Inductive completion (A : Type) : Type :=
| Returns (a : A)
| Throws (e : Error).
Arguments Returns {A} a.
Arguments Throws {A} e.

(** [Array.prototype.sort(comparefn)] is stable; an element is placed
    before the first element of the sorted prefix that [comparefn]
    puts it before (a negative result), after all the others. *)
Fixpoint insert {A} (comparefn : A -> A -> Z) (x : A) (l : list A) : list A :=
  match l with
  | [] => [x]
  | y :: l' =>
      if Z.ltb (comparefn x y) 0 then x :: y :: l'
      else y :: insert comparefn x l'
  end.

Definition sort {A} (comparefn : A -> A -> Z) (l : list A) : list A :=
  fold_left (fun sorted x => insert comparefn x sorted) l [].

(** [array.at(0)]. *)
Definition at0 {A} (l : list A) : option A := head l.

End JS.

(** ** The [semver] package

    [SemverVersioning.js] imports the npm package [semver] and calls
    [Semver.gt] and [Semver.lt] on version strings.  The package parses
    each string into a [SemVer] object and compares the objects; the
    embedding starts from the parsed objects.  A string that does not
    parse makes [Semver.gt] throw a [TypeError]: such a key is outside
    the [ReleaseVersion] type.

    Pre-release identifiers made of digits only are numbers in the
    object, every other identifier is a string; the build metadata is
    kept in the object and ignored by every comparison. *)
Module Semver.

Inductive identifier : Type :=
| Numeric (n : N)
| Alphanumeric (s : string).

Record SemVer : Type := mkSemVer {
  major : N;
  minor : N;
  patch : N;
  prerelease : list identifier;
  build : list string
}.

Definition identifier_eqb (a b : identifier) : bool :=
  match a, b with
  | Numeric x, Numeric y => N.eqb x y
  | Alphanumeric s, Alphanumeric t => String.eqb s t
  | _, _ => false
  end.

(** [compareIdentifiers(a, b)]:
    [a === b ? 0 : anum && !bnum ? -1 : bnum && !anum ? 1 : a < b ? -1 : 1]. *)
Definition compareIdentifiers (a b : identifier) : Z :=
  if identifier_eqb a b then 0
  else match a, b with
       | Numeric _, Alphanumeric _ => -1
       | Alphanumeric _, Numeric _ => 1
       | Numeric x, Numeric y => if N.ltb x y then -1 else 1
       | Alphanumeric s, Alphanumeric t => if String.ltb s t then -1 else 1
       end.

(** JavaScript [x || y] on numbers: [y] when [x] is [0]. *)
Definition or_else (x y : Z) : Z := if Z.eqb x 0 then y else x.

(** [SemVer.prototype.compareMain]. *)
Definition compareMain (a b : SemVer) : Z :=
  or_else (compareIdentifiers (Numeric (major a)) (Numeric (major b)))
    (or_else (compareIdentifiers (Numeric (minor a)) (Numeric (minor b)))
       (compareIdentifiers (Numeric (patch a)) (Numeric (patch b)))).

(** The [do ... while (++i)] loop of [comparePre], which walks both
    identifier arrays with one index. *)
Fixpoint comparePre_loop (p q : list identifier) : Z :=
  match p, q with
  | [], [] => 0
  | _ :: _, [] => 1
  | [], _ :: _ => -1
  | a :: p', b :: q' =>
      if identifier_eqb a b then comparePre_loop p' q'
      else compareIdentifiers a b
  end.

Definition is_empty {A} (l : list A) : bool :=
  match l with [] => true | _ => false end.

(** [SemVer.prototype.comparePre]: not having a pre-release is greater
    than having one. *)
Definition comparePre (a b : SemVer) : Z :=
  if negb (is_empty (prerelease a)) && is_empty (prerelease b) then -1
  else if is_empty (prerelease a) && negb (is_empty (prerelease b)) then 1
  else if is_empty (prerelease a) && is_empty (prerelease b) then 0
  else comparePre_loop (prerelease a) (prerelease b).

Fixpoint prerelease_eqb (p q : list identifier) : bool :=
  match p, q with
  | [], [] => true
  | a :: p', b :: q' => identifier_eqb a b && prerelease_eqb p' q'
  | _, _ => false
  end.

(** [this.version === other.version]: the formatted version holds the
    three numbers and the pre-release identifiers, not the build. *)
Definition version_eqb (a b : SemVer) : bool :=
  N.eqb (major a) (major b) && N.eqb (minor a) (minor b)
  && N.eqb (patch a) (patch b) && prerelease_eqb (prerelease a) (prerelease b).

(** [SemVer.prototype.compare]. *)
Definition compare (a b : SemVer) : Z :=
  if version_eqb a b then 0
  else or_else (compareMain a b) (comparePre a b).

Definition gt (a b : SemVer) : bool := Z.gtb (compare a b) 0.
Definition lt (a b : SemVer) : bool := Z.ltb (compare a b) 0.
Definition gte (a b : SemVer) : bool := Z.geb (compare a b) 0.

(** *** Precedence as the Semantic Versioning document words it

    Item 11 of the document: major, minor and patch are compared
    numerically, in this order; with equal numbers a version with
    a pre-release precedes the one without; two pre-releases are
    compared identifier by identifier, digits-only identifiers
    numerically, the others in ASCII order, a digits-only identifier
    before any other, and a proper prefix before the longer list. *)
Inductive ident_precedes : identifier -> identifier -> Prop :=
| ip_num x y : (x < y)%N -> ident_precedes (Numeric x) (Numeric y)
| ip_num_alnum x s : ident_precedes (Numeric x) (Alphanumeric s)
| ip_alnum s t :
    String.compare s t = Lt -> ident_precedes (Alphanumeric s) (Alphanumeric t).

Inductive pre_precedes : list identifier -> list identifier -> Prop :=
| pp_prefix b q : pre_precedes [] (b :: q)
| pp_head a b p q : ident_precedes a b -> pre_precedes (a :: p) (b :: q)
| pp_tail a p q : pre_precedes p q -> pre_precedes (a :: p) (a :: q).

Inductive precedes (a b : SemVer) : Prop :=
| prec_major : (major a < major b)%N -> precedes a b
| prec_minor : major a = major b -> (minor a < minor b)%N -> precedes a b
| prec_patch :
    major a = major b -> minor a = minor b -> (patch a < patch b)%N ->
    precedes a b
| prec_release :
    major a = major b -> minor a = minor b -> patch a = patch b ->
    prerelease a <> [] -> prerelease b = [] -> precedes a b
| prec_pre :
    major a = major b -> minor a = minor b -> patch a = patch b ->
    prerelease a <> [] -> prerelease b <> [] ->
    pre_precedes (prerelease a) (prerelease b) -> precedes a b.

(** Two versions of the same precedence: they differ in build
    metadata at most. *)
Definition same_precedence (a b : SemVer) : Prop :=
  major a = major b /\ minor a = minor b /\ patch a = patch b
  /\ prerelease a = prerelease b.

(** The objects of ["major.minor.patch"] and of
    ["major.minor.patch-pre"]. *)
Definition release (x y z : N) : SemVer := mkSemVer x y z [] [].
Definition prerelease_of (x y z : N) (pre : list identifier) : SemVer :=
  mkSemVer x y z pre [].

(** A three-way comparison result read against a strict order. *)
Inductive three_way {A} (lt : A -> A -> Prop) (eq : A -> A -> Prop)
    (a b : A) : Z -> Prop :=
| tw_lt : lt a b -> three_way lt eq a b (-1)
| tw_eq : eq a b -> three_way lt eq a b 0
| tw_gt : lt b a -> three_way lt eq a b 1.

End Semver.

(** ** [src/manual/SemverVersioning.js] *)
Module SemverVersioning.
Import JS.

Abbreviation ReleaseVersion := Semver.SemVer.

Record ReleaseInfo : Type := mkReleaseInfo {
  enabled : bool;
  mandatory : bool;
  downloadUrl : string;
  packageHash : string
}.

(** A release history is a JavaScript object keyed by version;
    [Object.entries] lists its pairs in insertion order. *)
Definition ReleaseHistory : Type := list (ReleaseVersion * ReleaseInfo).

Definition Object_entries (releaseHistory : ReleaseHistory)
  : list (ReleaseVersion * ReleaseInfo) := releaseHistory.

(** [([v1], [v2]) => (Semver.gt(v1, v2) ? -1 : 1)]. *)
Definition latestFirst (r1 r2 : ReleaseVersion * ReleaseInfo) : Z :=
  if Semver.gt (fst r1) (fst r2) then -1 else 1.

Definition noLatestRelease : Error :=
  {| name := "Error"; message := "최신 릴리스가 존재하지 않습니다." |}.

(** The release entries of [SemverVersioning.test.js], which leave
    [downloadUrl] and [packageHash] empty. *)
Definition info (enabled mandatory : bool) : ReleaseInfo :=
  mkReleaseInfo enabled mandatory "" "".

Definition findLatestRelease (releaseHistory : ReleaseHistory)
  : completion (ReleaseVersion * ReleaseInfo) :=
  let latestReleaseInfo :=
    at0 (sort latestFirst
           (List.filter (fun '(_, bundle) => enabled bundle)
              (Object_entries releaseHistory))) in
  match latestReleaseInfo with
  | None => Throws noLatestRelease
  | Some r => Returns r
  end.

Definition checkIsMandatory (runtimeVersion : ReleaseVersion)
    (releaseHistory : ReleaseHistory) : bool :=
  let sortedMandatoryReleases :=
    List.filter (fun '(_, bundle) => mandatory bundle)
      (sort latestFirst
         (List.filter (fun '(_, bundle) => enabled bundle)
            (Object_entries releaseHistory))) in
  match sortedMandatoryReleases with
  | [] => false
  | (latestMandatoryVersion, _) :: _ =>
      Semver.gt latestMandatoryVersion runtimeVersion
  end.

Definition shouldRollback (runtimeVersion latestReleaseVersion : ReleaseVersion)
  : bool :=
  Semver.lt latestReleaseVersion runtimeVersion.

End SemverVersioning.

(** ** [src/CodePush.js] *)
Module CodePush.
Import JS.

(** *** Data *)

(** What [NativeCodePush.getConfiguration()] resolves to. *)
Record Configuration : Type := mkConfiguration {
  config_appVersion : prim;
  config_clientUniqueId : prim;
  config_deploymentKey : prim;
  config_packageHash : prim;
  config_ignoreAppVersion : prim
}.

Inductive UpdateState : Type := RUNNING | PENDING | LATEST.

(** The metadata [NativeCodePush.getUpdateMetadata] resolves to, and the
    local package [getUpdateMetadata] builds from it. *)
Record UpdateMetadata : Type := mkUpdateMetadata {
  meta_appVersion : prim;
  meta_packageHash : prim;
  meta_label : prim;
  meta_isDebugOnly : prim;
  meta_isPending : prim
}.

Record LocalPackage : Type := mkLocalPackage {
  local_metadata : UpdateMetadata;
  local_failedInstall : bool;
  local_isFirstRun : bool
}.

Record QueryPackage : Type := mkQueryPackage {
  query_appVersion : prim;
  query_packageHash : prim;
  query_label : prim
}.

Record UpdateCheckRequest : Type := mkUpdateCheckRequest {
  deployment_key : prim;
  app_version : prim;
  package_hash : prim;
  is_companion : prim;
  label : prim;
  client_unique_id : prim
}.

(** [response.update_info] of the custom update checker. *)
Record UpdateInfo : Type := mkUpdateInfo {
  info_update_app_version : prim;
  info_is_available : prim;
  info_target_binary_range : prim;
  info_description : prim;
  info_label : prim;
  info_is_mandatory : prim;
  info_package_hash : prim;
  info_package_size : prim;
  info_download_url : prim
}.

Record UpdateCheckResponse : Type := mkUpdateCheckResponse {
  update_info : option UpdateInfo
}.

(** The update object either backend resolves to; a field the object
    does not carry is [undefined]. *)
Record RemoteUpdate : Type := mkRemoteUpdate {
  update_updateAppVersion : prim;
  update_appVersion : prim;
  update_deploymentKey : prim;
  update_description : prim;
  update_label : prim;
  update_isMandatory : prim;
  update_packageHash : prim;
  update_packageSize : prim;
  update_downloadUrl : prim
}.

(** The remote package [checkForUpdate] resolves to: the update with its
    deployment key set, and the [failedInstall] flag. *)
Record RemotePackage : Type := mkRemotePackage {
  remote_update : RemoteUpdate;
  remote_failedInstall : bool
}.

Record ReportedPackage : Type := mkReportedPackage {
  reported_label : prim;
  reported_packageHash : prim;
  reported_deploymentKey : prim
}.

(** A status report: a binary-update report carries [appVersion], a
    CodePush-update report carries [package] and [status]. *)
Record StatusReport : Type := mkStatusReport {
  report_appVersion : prim;
  report_package : option ReportedPackage;
  report_status : prim;
  report_previousLabelOrAppVersion : prim;
  report_previousDeploymentKey : prim
}.

Record RollbackInfo : Type := mkRollbackInfo {
  rollback_time : number;
  rollback_count : number;
  rollback_packageHash : prim
}.

Record SyncOptions : Type := mkSyncOptions {
  sync_deploymentKey : prim;
  sync_ignoreFailedUpdates : prim;
  sync_rollbackRetryOptions : value;
  sync_installMode : prim;
  sync_mandatoryInstallMode : prim;
  sync_minimumBackgroundDuration : prim;
  sync_updateDialog : value
}.

Inductive SyncStatus : Type :=
| UP_TO_DATE
| UPDATE_INSTALLED
| UPDATE_IGNORED
| UNKNOWN_ERROR
| SYNC_IN_PROGRESS
| CHECKING_FOR_UPDATE
| AWAITING_USER_ACTION
| DOWNLOADING_PACKAGE
| INSTALLING_UPDATE.

(** [CodePush.DEFAULT_ROLLBACK_RETRY_OPTIONS]. *)
Definition DEFAULT_ROLLBACK_RETRY_OPTIONS : gmap string value :=
  {[ "delayInHours" := Prim (num (Fin 24));
     "maxRetryAttempts" := Prim (num (Fin 1)) ]}.

(** *** The world the module runs in *)

(** The calls that leave the module and may fail: the promise of a
    native-bridge or SDK call may reject, a user callback may throw. *)
Inductive External : Type :=
| GetConfiguration
| GetUpdateMetadata
| IsFailedUpdate
| IsFirstRun
| GetLatestRollbackInfo
| SetLatestRollbackInfo
| GetNewStatusReport
| ReportStatusDeploy
| Callback (id : nat).

(** What the outside answers while the functions below run: the native
    bridge, the acquisition SDK, the shared options [bundleHost] and
    [updateChecker], the platform and the clock.  The native side keeps
    a state of its own (rollback info, pending status report); the
    requests that change it are recorded in the trace, and what it
    answers is read here. *)
Record Env : Type := mkEnv {
  nativeConfiguration : Configuration;
  nativeUpdateMetadata : UpdateState -> option UpdateMetadata;
  isFailedUpdate : prim -> bool;
  isFirstRun : prim -> bool;
  latestRollbackInfo : option RollbackInfo;
  newStatusReport : option StatusReport;
  queryUpdateWithCurrentPackage :
    Configuration -> QueryPackage -> completion (option RemoteUpdate);
  updateChecker : option (UpdateCheckRequest -> completion UpdateCheckResponse);
  bundleHost : option string;
  platformOS : string;
  now : Z;
  fails : External -> bool
}.

(** Promises: a pending promise holds its reactions in registration
    order; settling it queues one job per reaction.  The handlers are
    [setSyncCompleted] and the continuations a caller of [sync] may
    attach to the promise it gets back. *)
Inductive Handler : Type :=
| SetSyncCompleted
| Continuation (id : nat).

Inductive Settlement : Type :=
| Fulfilled (result : option SyncStatus)
| Rejected (reason : Error).

Record Reaction : Type := mkReaction {
  onFulfilled : option Handler;
  onRejected : option Handler;
  derived : nat
}.

Inductive PromiseState : Type :=
| Pending (reactions : list Reaction)
| Settled (outcome : Settlement).

Record Job : Type := mkJob {
  job_reaction : Reaction;
  job_outcome : Settlement
}.

(** What the module does to the outside, in order. *)
Inductive Event : Type :=
| Log (message : string)
| LogValue (message : string) (detail : prim)
| LogReportStatusFailed (statusReport : StatusReport)
| NativeSetLatestRollbackInfo (packageHash : prim)
| NativeRecordStatusReported (statusReport : StatusReport)
| NativeSaveStatusReportForRetry (statusReport : StatusReport)
| SdkReportStatusDeploy (configuration : Configuration)
    (deployedPackage : option ReportedPackage) (status : prim)
    (previousLabelOrAppVersion previousDeploymentKey : prim)
| SdkQueryUpdate (configuration : Configuration) (queryPackage : QueryPackage)
| UpdateCheckerCalled (updateRequest : UpdateCheckRequest)
| MismatchCallbackCalled (id : nat) (update : RemoteUpdate)
| StatusCallbackCalled (id : nat) (status : SyncStatus)
| ContinuationRun (id : nat) (outcome : Settlement)
| SyncInternalStarted (promise : nat)
| ListenerAdded (id : nat)
| ListenerRemoved (id : nat).

(** The state of the module: configuration objects by reference, the
    [config] variable closed over by [getConfiguration], [testConfig],
    the [syncInProgress] flag closed over by [sync], the promises and
    the job queue, the [AppState] listeners (registered or removed) and
    the trace of events. *)
Record World : Type := mkWorld {
  heap : list Configuration;
  configCache : option nat;
  testConfig : option nat;
  syncInProgress : bool;
  promises : list PromiseState;
  jobs : list Job;
  listeners : list bool;
  trace : list Event;
  env : Env
}.

Definition set_heap (f : list Configuration -> list Configuration) (w : World) : World :=
  mkWorld (f (heap w)) (configCache w) (testConfig w) (syncInProgress w)
    (promises w) (jobs w) (listeners w) (trace w) (env w).

Definition set_configCache (c : option nat) (w : World) : World :=
  mkWorld (heap w) c (testConfig w) (syncInProgress w)
    (promises w) (jobs w) (listeners w) (trace w) (env w).

Definition set_syncInProgress (b : bool) (w : World) : World :=
  mkWorld (heap w) (configCache w) (testConfig w) b
    (promises w) (jobs w) (listeners w) (trace w) (env w).

Definition set_promises (f : list PromiseState -> list PromiseState) (w : World) : World :=
  mkWorld (heap w) (configCache w) (testConfig w) (syncInProgress w)
    (f (promises w)) (jobs w) (listeners w) (trace w) (env w).

Definition set_jobs (f : list Job -> list Job) (w : World) : World :=
  mkWorld (heap w) (configCache w) (testConfig w) (syncInProgress w)
    (promises w) (f (jobs w)) (listeners w) (trace w) (env w).

Definition set_listeners (f : list bool -> list bool) (w : World) : World :=
  mkWorld (heap w) (configCache w) (testConfig w) (syncInProgress w)
    (promises w) (jobs w) (f (listeners w)) (trace w) (env w).

Definition set_trace (f : list Event -> list Event) (w : World) : World :=
  mkWorld (heap w) (configCache w) (testConfig w) (syncInProgress w)
    (promises w) (jobs w) (listeners w) (f (trace w)) (env w).

(** *** Computations: state and exceptions *)

Definition M (A : Type) : Type := World -> completion A * World.

Definition ret {A} (a : A) : M A := fun w => (Returns a, w).

Definition bind {A B} (m : M A) (k : A -> M B) : M B :=
  fun w =>
    match m w with
    | (Returns a, w') => k a w'
    | (Throws e, w') => (Throws e, w')
    end.

Definition throw {A} (e : Error) : M A := fun w => (Throws e, w).

(** [try { body } catch (e) { handler }]. *)
Definition try_catch {A} (body : M A) (handler : Error -> M A) : M A :=
  fun w =>
    match body w with
    | (Returns a, w') => (Returns a, w')
    | (Throws e, w') => handler e w'
    end.

Definition read {A} (f : World -> A) : M A := fun w => (Returns (f w), w).

Definition modify (f : World -> World) : M unit := fun w => (Returns tt, f w).

Notation "x <- c1 ;; c2" := (bind c1 (fun x => c2))
  (at level 100, c1 at next level, right associativity).
Notation "c1 ;; c2" := (bind c1 (fun _ => c2))
  (at level 100, right associativity).

Definition emit (e : Event) : M unit := modify (set_trace (fun t => t ++ [e])).

Definition log (message : string) : M unit := emit (Log message).

(** An awaited call that leaves the module: it yields [answer] unless
    the world makes this call fail. *)
Definition external {A} (call : External) (answer : A) : M A :=
  fun w =>
    if fails (env w) call
    then (Throws (mkError "Error" "external call failed"), w)
    else (Returns answer, w).

Definition alloc (c : Configuration) : M nat :=
  fun w => (Returns (length (heap w)), set_heap (fun h => h ++ [c]) w).

(** Reading through a reference; modules only hold references to
    objects of the heap. *)
Definition deref (l : nat) : M Configuration :=
  fun w =>
    match heap w !! l with
    | Some c => (Returns c, w)
    | None => (Throws (mkError "ReferenceError" "no such object"), w)
    end.

Definition with_deploymentKey (c : Configuration) (k : prim) : Configuration :=
  mkConfiguration (config_appVersion c) (config_clientUniqueId c) k
    (config_packageHash c) (config_ignoreAppVersion c).

(** [config.deploymentKey = k] on the object behind the reference. *)
Definition assign_deploymentKey (l : nat) (k : prim) : M unit :=
  modify (set_heap (fun h =>
    match h !! l with
    | Some c => <[l := with_deploymentKey c k]> h
    | None => h
    end)).

Definition lift {A} (c : completion A) : M A := fun w => (c, w).

(** *** [getConfiguration], [getUpdateMetadata], [getPromisifiedSdk] *)

Definition getConfiguration : M nat :=
  config <- read configCache ;;
  match config with
  | Some l => ret l
  | None =>
      test <- read testConfig ;;
      match test with
      | Some l => ret l
      | None =>
          answer <- read (fun w => nativeConfiguration (env w)) ;;
          c <- external GetConfiguration answer ;;
          l <- alloc c ;;
          modify (set_configCache (Some l)) ;;
          ret l
      end
  end.

Definition getUpdateMetadata (updateState : option UpdateState)
  : M (option LocalPackage) :=
  answer <- read (fun w => nativeUpdateMetadata (env w) (default RUNNING updateState)) ;;
  updateMetadata <- external GetUpdateMetadata answer ;;
  match updateMetadata with
  | Some m =>
      failed <- read (fun w => isFailedUpdate (env w) (meta_packageHash m)) ;;
      failedInstall <- external IsFailedUpdate failed ;;
      first <- read (fun w => isFirstRun (env w) (meta_packageHash m)) ;;
      firstRun <- external IsFirstRun first ;;
      ret (Some (mkLocalPackage m failedInstall firstRun))
  | None => ret None
  end.

Definition getCurrentPackage : M (option LocalPackage) :=
  getUpdateMetadata (Some LATEST).

(** The SDK object is built from the configuration object it is given
    and keeps what that object holds at this moment. *)
Record Sdk : Type := mkSdk { sdk_configuration : Configuration }.

Definition getPromisifiedSdk (config : nat) : M Sdk :=
  c <- deref config ;;
  ret (mkSdk c).

Definition sdk_queryUpdateWithCurrentPackage (sdk : Sdk) (queryPackage : QueryPackage)
  : M (option RemoteUpdate) :=
  emit (SdkQueryUpdate (sdk_configuration sdk) queryPackage) ;;
  answer <- read (fun w =>
    queryUpdateWithCurrentPackage (env w) (sdk_configuration sdk) queryPackage) ;;
  lift answer.

Definition sdk_reportStatusDeploy (sdk : Sdk) (deployedPackage : option ReportedPackage)
    (status previousLabelOrAppVersion previousDeploymentKey : prim) : M unit :=
  emit (SdkReportStatusDeploy (sdk_configuration sdk) deployedPackage status
          previousLabelOrAppVersion previousDeploymentKey) ;;
  external ReportStatusDeploy tt.

(** *** [checkForUpdate] *)

(** The branch of [checkForUpdate] taken when
    [sharedCodePushOptions.updateChecker] is set. *)
Definition customUpdateCheck
    (checker : UpdateCheckRequest -> completion UpdateCheckResponse)
    (config : Configuration) (queryPackage : QueryPackage)
  : M (option RemoteUpdate) :=
  let updateRequest :=
    {| deployment_key := config_deploymentKey config;
       app_version := query_appVersion queryPackage;
       package_hash := query_packageHash queryPackage;
       is_companion := config_ignoreAppVersion config;
       label := query_label queryPackage;
       client_unique_id := config_clientUniqueId config |} in
  emit (UpdateCheckerCalled updateRequest) ;;
  response <- lift (checker updateRequest) ;;
  match update_info response with
  | None => ret None
  | Some updateInfo =>
      if truthy_prim (info_update_app_version updateInfo) then
        ret (Some
          {| update_updateAppVersion := boolean true;
             update_appVersion := info_target_binary_range updateInfo;
             update_deploymentKey := undefined;
             update_description := undefined;
             update_label := undefined;
             update_isMandatory := undefined;
             update_packageHash := undefined;
             update_packageSize := undefined;
             update_downloadUrl := undefined |})
      else if negb (truthy_prim (info_is_available updateInfo)) then ret None
      else
        ret (Some
          {| update_updateAppVersion := undefined;
             update_appVersion := nullish (info_target_binary_range updateInfo) (str "");
             update_deploymentKey := config_deploymentKey config;
             update_description := nullish (info_description updateInfo) (str "");
             update_label := nullish (info_label updateInfo) (str "");
             update_isMandatory := nullish (info_is_mandatory updateInfo) (boolean false);
             update_packageHash := nullish (info_package_hash updateInfo) (str "");
             update_packageSize := nullish (info_package_size updateInfo) (num (Fin 0));
             update_downloadUrl := nullish (info_download_url updateInfo) (str "") |})
  end.

(** [url.split("/").pop()]. *)
Fixpoint last_segment (segment url : string) : string :=
  match url with
  | EmptyString => segment
  | String c rest =>
      if Ascii.eqb c "/" then last_segment "" rest
      else last_segment (segment ++ String c "")%string rest
  end.

Definition with_downloadUrl (u : RemoteUpdate) (url : prim) : RemoteUpdate :=
  mkRemoteUpdate (update_updateAppVersion u) (update_appVersion u)
    (update_deploymentKey u) (update_description u) (update_label u)
    (update_isMandatory u) (update_packageHash u) (update_packageSize u) url.

Definition with_update_deploymentKey (u : RemoteUpdate) (k : prim) : RemoteUpdate :=
  mkRemoteUpdate (update_updateAppVersion u) (update_appVersion u)
    k (update_description u) (update_label u)
    (update_isMandatory u) (update_packageHash u) (update_packageSize u)
    (update_downloadUrl u).

(** What the first part of [checkForUpdate] has in hand when it reaches
    its final test. *)
Record Resolution : Type := mkResolution {
  res_nativeConfig : nat;
  res_config : Configuration;
  res_localPackage : option LocalPackage;
  res_update : option RemoteUpdate
}.

(** [checkForUpdate] up to the final test: the configuration with the
    deployment-key override, the local package, the query and its
    answer from either backend, the [bundleHost] rewrite. *)
Definition resolveUpdate (deploymentKey : prim) : M Resolution :=
  nativeConfig <- getConfiguration ;;
  config <- (if truthy_prim deploymentKey
             then c <- deref nativeConfig ;; alloc (with_deploymentKey c deploymentKey)
             else ret nativeConfig) ;;
  sdk <- getPromisifiedSdk config ;;
  localPackage <- getCurrentPackage ;;
  cfg <- deref config ;;
  os <- read (fun w => platformOS (env w)) ;;
  let queryPackage :=
    match localPackage with
    | Some lp =>
        {| query_appVersion := meta_appVersion (local_metadata lp);
           query_packageHash := meta_packageHash (local_metadata lp);
           query_label := meta_label (local_metadata lp) |}
    | None =>
        {| query_appVersion := config_appVersion cfg;
           query_packageHash :=
             if String.eqb os "ios" && truthy_prim (config_packageHash cfg)
             then config_packageHash cfg else undefined;
           query_label := undefined |}
    end in
  checker <- read (fun w => updateChecker (env w)) ;;
  update <- match checker with
            | Some f => customUpdateCheck f cfg queryPackage
            | None => sdk_queryUpdateWithCurrentPackage sdk queryPackage
            end ;;
  let fileName :=
    match update with
    | Some u =>
        match update_downloadUrl u with
        | str url => Some (last_segment "" url)
        | _ => None
        end
    | None => None
    end in
  host <- read (fun w => bundleHost (env w)) ;;
  let update :=
    match host, fileName, update with
    | Some h, Some f, Some u =>
        if negb (String.eqb h "") && negb (String.eqb f "")
        then Some (with_downloadUrl u (str (h ++ f)%string))
        else update
    | _, _, _ => update
    end in
  ret (mkResolution nativeConfig cfg localPackage update).

Definition checkForUpdate (deploymentKey : prim)
    (handleBinaryVersionMismatchCallback : value) : M (option RemotePackage) :=
  r <- resolveUpdate deploymentKey ;;
  let localPackage := res_localPackage r in
  let config := res_config r in
  match res_update r with
  | None => ret None
  | Some update =>
      if truthy_prim (update_updateAppVersion update)
         || match localPackage with
            | Some lp =>
                strict_eq (update_packageHash update)
                  (meta_packageHash (local_metadata lp))
            | None => false
            end
         || (match localPackage with
             | Some lp => truthy_prim (meta_isDebugOnly (local_metadata lp))
             | None => true
             end
             && strict_eq (config_packageHash config) (update_packageHash update))
      then
        (if truthy_prim (update_updateAppVersion update) then
           log "An update is available but it is not targeting the binary version of your app." ;;
           match handleBinaryVersionMismatchCallback with
           | Function id =>
               emit (MismatchCallbackCalled id update) ;;
               external (Callback id) tt
           | _ => ret tt
           end
         else ret tt) ;;
        ret None
      else
        failed <- read (fun w => isFailedUpdate (env w) (update_packageHash update)) ;;
        failedInstall <- external IsFailedUpdate failed ;;
        nativeConfig <- deref (res_nativeConfig r) ;;
        ret (Some
          {| remote_update :=
               with_update_deploymentKey update
                 (or_prim deploymentKey (config_deploymentKey nativeConfig));
             remote_failedInstall := failedInstall |})
  end.

(** *** [tryReportStatus] and the resume listener *)

(** [AppState.addEventListener("change", handler)]: the subscription is
    identified by its index in [listeners]. *)
Definition addEventListener : M nat :=
  id <- read (fun w => length (listeners w)) ;;
  modify (set_listeners (fun ls => ls ++ [true])) ;;
  emit (ListenerAdded id) ;;
  ret id.

(** [subscription.remove()]. *)
Definition removeListener (id : nat) : M unit :=
  modify (set_listeners (fun ls => <[id := false]> ls)) ;;
  emit (ListenerRemoved id).

Definition tryReportStatus (statusReport : StatusReport)
    (retryOnAppResume : option nat) : M unit :=
  config <- getConfiguration ;;
  c <- deref config ;;
  let previousLabelOrAppVersion := report_previousLabelOrAppVersion statusReport in
  let previousDeploymentKey :=
    or_prim (report_previousDeploymentKey statusReport) (config_deploymentKey c) in
  try_catch
    ((if truthy_prim (report_appVersion statusReport) then
        emit (LogValue "Reporting binary update" (report_appVersion statusReport)) ;;
        c <- deref config ;;
        (if negb (truthy_prim (config_deploymentKey c))
         then throw (mkError "Error" "Deployment key is missed")
         else ret tt) ;;
        sdk <- getPromisifiedSdk config ;;
        sdk_reportStatusDeploy sdk None null
          previousLabelOrAppVersion previousDeploymentKey
      else
        match report_package statusReport with
        | None => throw (mkError "TypeError" "statusReport.package is undefined")
        | Some package =>
            let label := reported_label package in
            (if strict_eq (report_status statusReport) (str "DeploymentSucceeded")
             then emit (LogValue "Reporting CodePush update success" label)
             else
               emit (LogValue "Reporting CodePush update rollback" label) ;;
               emit (NativeSetLatestRollbackInfo (reported_packageHash package)) ;;
               external SetLatestRollbackInfo tt) ;;
            assign_deploymentKey config (reported_deploymentKey package) ;;
            sdk <- getPromisifiedSdk config ;;
            sdk_reportStatusDeploy sdk (Some package) (report_status statusReport)
              previousLabelOrAppVersion previousDeploymentKey
        end) ;;
     emit (NativeRecordStatusReported statusReport) ;;
     match retryOnAppResume with
     | Some subscription => removeListener subscription
     | None => ret tt
     end)
    (fun e =>
       emit (LogReportStatusFailed statusReport) ;;
       emit (NativeSaveStatusReportForRetry statusReport) ;;
       match retryOnAppResume with
       | Some _ => ret tt
       | None => resumeListener <- addEventListener ;; ret tt
       end).

(** A call whose promise nobody awaits: a rejection stays with it. *)
Definition detached (m : M unit) : M unit := try_catch m (fun _ => ret tt).

(** The handler [tryReportStatus] registers, run for the subscription
    [resumeListener] on an [AppState] change. *)
Definition resumeHandler (resumeListener : nat) (newState : string) : M unit :=
  if negb (String.eqb newState "active") then ret tt
  else
    answer <- read (fun w => newStatusReport (env w)) ;;
    refreshedStatusReport <- external GetNewStatusReport answer ;;
    match refreshedStatusReport with
    | Some r => detached (tryReportStatus r (Some resumeListener))
    | None => removeListener resumeListener
    end.

Fixpoint registered (from : nat) (ls : list bool) : list nat :=
  match ls with
  | [] => []
  | b :: rest => (if b then [from] else []) ++ registered (S from) rest
  end.

Fixpoint dispatch (ids : list nat) (newState : string) : M unit :=
  match ids with
  | [] => ret tt
  | id :: rest => detached (resumeHandler id newState) ;; dispatch rest newState
  end.

(** An [AppState] change event reaches every registered listener. *)
Definition appStateChange (newState : string) : M unit :=
  ls <- read listeners ;;
  dispatch (registered 0 ls) newState.

(** *** The rollback retry policy *)

Definition validateLatestRollbackInfo (latestRollbackInfo : option RollbackInfo)
    (packageHash : prim) : bool :=
  match latestRollbackInfo with
  | None => false
  | Some info =>
      truthy_prim (num (rollback_time info))
      && truthy_prim (num (rollback_count info))
      && truthy_prim (rollback_packageHash info)
      && strict_eq (rollback_packageHash info) packageHash
  end.

Definition validateRollbackRetryOptions (rollbackRetryOptions : gmap string value)
  : M bool :=
  if negb (String.eqb (typeof (get rollbackRetryOptions "delayInHours")) "number") then
    log "The 'delayInHours' rollback retry parameter must be a number." ;;
    ret false
  else if negb (String.eqb (typeof (get rollbackRetryOptions "maxRetryAttempts")) "number") then
    log "The 'maxRetryAttempts' rollback retry parameter must be a number." ;;
    ret false
  else if number_lt (number_of (get rollbackRetryOptions "maxRetryAttempts")) (Fin 1) then
    log "The 'maxRetryAttempts' rollback retry parameter cannot be less then 1." ;;
    ret false
  else ret true.

Definition props_of (v : value) : gmap string value :=
  match v with
  | Object props => props
  | _ => ∅
  end.

(** The reassignment of [rollbackRetryOptions] in
    [shouldUpdateBeIgnored]: the defaults for a value that is not an
    object, the value spread over the defaults otherwise. *)
Definition withDefaultRetryOptions (rollbackRetryOptions : value)
  : gmap string value :=
  if negb (String.eqb (typeof rollbackRetryOptions) "object")
  then DEFAULT_ROLLBACK_RETRY_OPTIONS
  else spread DEFAULT_ROLLBACK_RETRY_OPTIONS (props_of rollbackRetryOptions).

Definition shouldUpdateBeIgnored (remotePackage : option RemotePackage)
    (syncOptions : SyncOptions) : M bool :=
  let rollbackRetryOptions := sync_rollbackRetryOptions syncOptions in
  let isFailedPackage :=
    match remotePackage with
    | Some p => remote_failedInstall p
    | None => false
    end in
  if negb isFailedPackage || negb (truthy_prim (sync_ignoreFailedUpdates syncOptions))
  then ret false
  else if negb (truthy rollbackRetryOptions) then ret true
  else
    let rollbackRetryOptions := withDefaultRetryOptions rollbackRetryOptions in
    valid <- validateRollbackRetryOptions rollbackRetryOptions ;;
    if negb valid then ret true
    else
      answer <- read (fun w => latestRollbackInfo (env w)) ;;
      latestRollbackInfo <- external GetLatestRollbackInfo answer ;;
      let packageHash :=
        match remotePackage with
        | Some p => update_packageHash (remote_update p)
        | None => undefined
        end in
      if negb (validateLatestRollbackInfo latestRollbackInfo packageHash) then
        log "The latest rollback info is not valid." ;;
        ret true
      else
        let delayInHours := number_of (get rollbackRetryOptions "delayInHours") in
        let maxRetryAttempts := number_of (get rollbackRetryOptions "maxRetryAttempts") in
        dateNow <- read (fun w => now (env w)) ;;
        let time := match latestRollbackInfo with
                    | Some info => rollback_time info | None => NaN end in
        let count := match latestRollbackInfo with
                     | Some info => rollback_count info | None => NaN end in
        let hoursSinceLatestRollback :=
          number_div (number_sub (Fin (inject_Z dateNow)) time)
            (inject_Z (1000 * 60 * 60)) in
        if number_ge hoursSinceLatestRollback delayInHours
           && number_ge maxRetryAttempts count
        then
          log "Previous rollback should be ignored due to rollback retry options." ;;
          ret false
        else ret true.

(** *** Promises and [sync] *)

Definition newPromise (state : PromiseState) : M nat :=
  fun w => (Returns (length (promises w)), set_promises (fun ps => ps ++ [state]) w).

(** Settling a pending promise queues a job for each of its reactions;
    a settled promise stays as it is. *)
Definition settle (p : nat) (outcome : Settlement) : M unit :=
  ps <- read promises ;;
  match ps !! p with
  | Some (Pending reactions) =>
      modify (set_promises (fun ps => <[p := Settled outcome]> ps)) ;;
      modify (set_jobs (fun js => js ++ map (fun r => mkJob r outcome) reactions))
  | _ => ret tt
  end.

(** [p.then(onFulfilled, onRejected)]. *)
Definition then_ (p : nat) (onF onR : option Handler) : M nat :=
  d <- newPromise (Pending []) ;;
  let r := mkReaction onF onR d in
  ps <- read promises ;;
  match ps !! p with
  | Some (Pending reactions) =>
      modify (set_promises (fun ps => <[p := Pending (reactions ++ [r])]> ps))
  | Some (Settled outcome) =>
      modify (set_jobs (fun js => js ++ [mkJob r outcome]))
  | None => ret tt
  end ;;
  ret d.

(** [p.catch(onRejected)]. *)
Definition catch_ (p : nat) (onR : Handler) : M nat := then_ p None (Some onR).

(** [Promise.resolve(v)]. *)
Definition promiseResolve (v : option SyncStatus) : M nat :=
  newPromise (Settled (Fulfilled v)).

Definition setSyncCompleted : M unit := modify (set_syncInProgress false).

(** The handlers of the model: [setSyncCompleted], and the continuation
    a caller of [sync] attaches to the promise it receives. *)
Definition runHandler (h : Handler) (outcome : Settlement) : M (option SyncStatus) :=
  match h with
  | SetSyncCompleted => setSyncCompleted ;; ret None
  | Continuation id => emit (ContinuationRun id outcome) ;; external (Callback id) None
  end.

(** One promise reaction job. *)
Definition runJob (j : Job) : M unit :=
  let r := job_reaction j in
  let handler :=
    match job_outcome j with
    | Fulfilled _ => onFulfilled r
    | Rejected _ => onRejected r
    end in
  match handler with
  | None => settle (derived r) (job_outcome j)
  | Some h =>
      try_catch
        (v <- runHandler h (job_outcome j) ;; settle (derived r) (Fulfilled v))
        (fun e => settle (derived r) (Rejected e))
  end.

(** Runs the first queued job; [false] when the queue is empty. *)
Definition runMicrotask : M bool :=
  js <- read jobs ;;
  match js with
  | [] => ret false
  | j :: rest => modify (set_jobs (fun _ => rest)) ;; runJob j ;; ret true
  end.

Fixpoint drain (fuel : nat) : M unit :=
  match fuel with
  | O => ret tt
  | S n => more <- runMicrotask ;; if more then drain n else ret tt
  end.

(** [syncStatusCallbackWithTryCatch]: the user callback inside a guard. *)
Definition syncStatusCallbackWithTryCatch (id : nat) (status : SyncStatus) : M unit :=
  try_catch
    (emit (StatusCallbackCalled id status) ;; external (Callback id) tt)
    (fun error => log "An error has occurred : ").

(** [syncInternal] is an async function: the call returns a pending
    promise at once and calls no user callback before its first
    [await]; the body then runs across later turns and settles the
    promise with a status or with the error it throws ([finishRun]).
    The run is represented by this promise. *)
Definition syncInternal (options : SyncOptions)
    (syncStatusChangeCallback downloadProgressCallback
     handleBinaryVersionMismatchCallback : value) : M nat :=
  p <- newPromise (Pending []) ;;
  emit (SyncInternalStarted p) ;;
  ret p.

(** The turn in which the body of the run behind [syncPromise] returns
    ([Fulfilled]) or throws ([Rejected]). *)
Definition finishRun (syncPromise : nat) (outcome : Settlement) : M unit :=
  settle syncPromise outcome.

Definition sync (options : SyncOptions)
    (syncStatusChangeCallback downloadProgressCallback
     handleBinaryVersionMismatchCallback : value) : M nat :=
  inProgress <- read syncInProgress ;;
  if inProgress then
    match syncStatusChangeCallback with
    | Function id => syncStatusCallbackWithTryCatch id SYNC_IN_PROGRESS
    | _ => log "Sync already in progress."
    end ;;
    promiseResolve (Some SYNC_IN_PROGRESS)
  else
    modify (set_syncInProgress true) ;;
    syncPromise <- syncInternal options syncStatusChangeCallback
                     downloadProgressCallback handleBinaryVersionMismatchCallback ;;
    chained <- then_ syncPromise (Some SetSyncCompleted) None ;;
    _ <- catch_ chained SetSyncCompleted ;;
    ret syncPromise.

(** *** Vocabulary of the properties *)

(** A retry policy as the specification describes an invalid one. *)
Definition numeric (v : value) : Prop := exists n, v = Prim (num n).

Definition invalidPolicy (policy : gmap string value) : Prop :=
  ~ numeric (get policy "delayInHours")
  \/ ~ numeric (get policy "maxRetryAttempts")
  \/ exists q, get policy "maxRetryAttempts" = Prim (num (Fin q)) /\ (q < 1)%Q.

(** A configured policy object with a field that is present and
    invalid. *)
Definition invalidField (props : gmap string value) : Prop :=
  (exists v, props !! "delayInHours" = Some v /\ ~ numeric v)
  \/ (exists v, props !! "maxRetryAttempts" = Some v
        /\ (~ numeric v \/ exists q, v = Prim (num (Fin q)) /\ (q < 1)%Q)).




(** The world after the [catch] block of [tryReportStatus] has
    registered a resume listener, when none was passed in. *)
Definition registerIfAbsent (retryOnAppResume : option nat) (w : World) : World :=
  match retryOnAppResume with
  | Some _ => w
  | None =>
      set_trace (fun t => t ++ [ListenerAdded (length (listeners w))])
        (set_listeners (fun ls => ls ++ [true]) w)
  end.

(** Frame: the environment is never written, and an object of the heap
    stays as it is while nothing assigns to it. *)
Definition grows (w w' : World) : Prop :=
  env w' = env w /\ forall l c, heap w !! l = Some c -> heap w' !! l = Some c.

Definition stable {A} (m : M A) : Prop := forall w, grows w (snd (m w)).

(** The two reactions [sync] chains on the promise [p] of a run, and
    the world right after an admitted call of [sync]. *)
Definition thenReaction (p : nat) : Reaction :=
  mkReaction (Some SetSyncCompleted) None (p + 1).

Definition catchReaction (p : nat) : Reaction :=
  mkReaction None (Some SetSyncCompleted) (p + 2).

Definition started (w : World) : World :=
  let p := length (promises w) in
  mkWorld (heap w) (configCache w) (testConfig w) true
    (promises w ++ [Pending [thenReaction p]; Pending [catchReaction p]; Pending []])
    (jobs w) (listeners w) (trace w ++ [SyncInternalStarted p]) (env w).

(** The run behind the promise [p] is in flight: the promise, with the
    reaction of [sync] first and the continuations callers attached
    after it, and the two promises [sync] chained on it are pending. *)
Definition inFlight (p : nat) (continuations : list Reaction) (w : World) : Prop :=
  exists before after,
    p = length before
    /\ promises w
       = before ++ [Pending (thenReaction p :: continuations);
                    Pending [catchReaction p]; Pending []]
           ++ after.

(** Settled promises stay settled, with their outcome. *)
Definition keepsSettled (w w' : World) : Prop :=
  forall q o, promises w !! q = Some (Settled o) -> promises w' !! q = Some (Settled o).

(** What a job may do to the promises, the queue and the flag. *)
Definition jobEffect (w w' : World) : Prop :=
  keepsSettled w w'
  /\ (exists new, jobs w' = jobs w ++ new)
  /\ (syncInProgress w = false -> syncInProgress w' = false).

(** *** Sample worlds *)

Definition sampleConfiguration (deploymentKey : prim) : Configuration :=
  {| config_appVersion := str "1.0.0";
     config_clientUniqueId := str "device-1";
     config_deploymentKey := deploymentKey;
     config_packageHash := str "binary-hash";
     config_ignoreAppVersion := undefined |}.

(** An environment in which no external call fails. *)
Definition sampleEnv (configuration : Configuration)
    (rollbackInfo : option RollbackInfo) (answer : option RemoteUpdate)
    (pending : option StatusReport) (dateNow : Z) : Env :=
  {| nativeConfiguration := configuration;
     nativeUpdateMetadata := fun _ => None;
     isFailedUpdate := fun _ => false;
     isFirstRun := fun _ => false;
     latestRollbackInfo := rollbackInfo;
     newStatusReport := pending;
     queryUpdateWithCurrentPackage := fun _ _ => Returns answer;
     updateChecker := None;
     bundleHost := None;
     platformOS := "android";
     now := dateNow;
     fails := fun _ => false |}.

(** The module right after it is loaded. *)
Definition freshWorld (e : Env) : World :=
  mkWorld [] None None false [] [] [] [] e.

Definition sampleUpdate (updateAppVersion packageHash : prim) : RemoteUpdate :=
  {| update_updateAppVersion := updateAppVersion;
     update_appVersion := str "1.0.0";
     update_deploymentKey := str "key";
     update_description := str "";
     update_label := str "v2";
     update_isMandatory := boolean false;
     update_packageHash := packageHash;
     update_packageSize := num (Fin 100);
     update_downloadUrl := str "https://host/bundles/v2.zip" |}.

Definition sampleSyncOptions (rollbackRetryOptions : value) : SyncOptions :=
  {| sync_deploymentKey := null;
     sync_ignoreFailedUpdates := boolean true;
     sync_rollbackRetryOptions := rollbackRetryOptions;
     sync_installMode := num (Fin 0);
     sync_mandatoryInstallMode := num (Fin 1);
     sync_minimumBackgroundDuration := num (Fin 0);
     sync_updateDialog := Prim null |}.

Definition binaryReport : StatusReport :=
  {| report_appVersion := str "1.0.0";
     report_package := None;
     report_status := undefined;
     report_previousLabelOrAppVersion := undefined;
     report_previousDeploymentKey := undefined |}.

Definition updateReport (status : string) : StatusReport :=
  {| report_appVersion := undefined;
     report_package :=
       Some {| reported_label := str "v2";
               reported_packageHash := str "hash-2";
               reported_deploymentKey := str "staging-key" |};
     report_status := str status;
     report_previousLabelOrAppVersion := str "v1";
     report_previousDeploymentKey := undefined |}.

(** *** Vocabulary of the further properties *)

(** The module in the state of [w] while the outside answers as [e]:
    between two calls the native side, the server and the clock move
    on, the variables of the module stay. *)
Definition withEnv (e : Env) (w : World) : World :=
  mkWorld (heap w) (configCache w) (testConfig w) (syncInProgress w)
    (promises w) (jobs w) (listeners w) (trace w) e.

(** The events of an update check: a query to one backend, a log line,
    the binary-version-mismatch callback. *)
Definition queryEvent (e : Event) : bool :=
  match e with
  | Log _ | SdkQueryUpdate _ _ | UpdateCheckerCalled _
  | MismatchCallbackCalled _ _ => true
  | _ => false
  end.

Definition logEvent (e : Event) : bool :=
  match e with
  | Log _ => true
  | _ => false
  end.

(** From [w] to [w'] the trace grew by events that [allowed] admits,
    and nothing else of the module changed but the heap and the
    configuration cache. *)
Definition onlyEmits (allowed : Event -> bool) (w w' : World) : Prop :=
  (exists events, trace w' = trace w ++ events /\ forallb allowed events = true)
  /\ syncInProgress w' = syncInProgress w
  /\ promises w' = promises w
  /\ jobs w' = jobs w
  /\ listeners w' = listeners w
  /\ testConfig w' = testConfig w.

(** A cached configuration stays the cached configuration. *)
Definition keepsCache (w w' : World) : Prop :=
  forall l, configCache w = Some l -> configCache w' = Some l.

(** A computation that, from any state, only emits events [allowed]
    admits and keeps the cache. *)
Definition quiet (allowed : Event -> bool) {A} (m : M A) : Prop :=
  forall w, onlyEmits allowed w (snd (m w)) /\ keepsCache w (snd (m w)).

Definition defined (p : prim) : Prop := p <> undefined /\ p <> null.

Fixpoint contains (c : ascii) (s : string) : bool :=
  match s with
  | EmptyString => false
  | String c' rest => Ascii.eqb c' c || contains c rest
  end.

(** Whether a status report can be delivered with the configuration
    object [c] as it is when [tryReportStatus] starts: a binary report
    needs a deployment key, a rollback report needs the native side to
    store the rollback info, and the SDK call must succeed. *)
Definition deliverable (statusReport : StatusReport) (c : Configuration)
    (e : Env) : bool :=
  (if truthy_prim (report_appVersion statusReport)
   then truthy_prim (config_deploymentKey c)
   else match report_package statusReport with
        | None => false
        | Some _ =>
            strict_eq (report_status statusReport) (str "DeploymentSucceeded")
            || negb (fails e SetLatestRollbackInfo)
        end)
  && negb (fails e ReportStatusDeploy).

Definition with_rollbackRetryOptions (o : SyncOptions) (v : value) : SyncOptions :=
  mkSyncOptions (sync_deploymentKey o) (sync_ignoreFailedUpdates o) v
    (sync_installMode o) (sync_mandatoryInstallMode o)
    (sync_minimumBackgroundDuration o) (sync_updateDialog o).

(** The query an event carries to a backend, if it is one: the hash of
    the package the client says it runs. *)
Definition queriedHash (e : Event) : option prim :=
  match e with
  | SdkQueryUpdate _ q => Some (query_packageHash q)
  | UpdateCheckerCalled request => Some (package_hash request)
  | _ => None
  end.

Definition backendQuery (e : Event) : bool :=
  match queriedHash e with
  | Some _ => true
  | None => false
  end.

(** The backend in use answers [u] to some query: the custom update
    checker when one is set, the SDK otherwise. *)
Definition answered (e : Env) (u : RemoteUpdate) : Prop :=
  match updateChecker e with
  | Some checker =>
      exists c q w w', customUpdateCheck checker c q w = (Returns (Some u), w')
  | None => exists c q, queryUpdateWithCurrentPackage e c q = Returns (Some u)
  end.

(** The events of a status signal: the callback of the caller, or a
    log line. *)
Definition signalEvent (e : Event) : bool :=
  match e with
  | Log _ | LogValue _ _ | StatusCallbackCalled _ _ => true
  | _ => false
  end.

(** *** [notifyApplicationReady] and [syncInternal]

    The body of the async function [syncInternal], run from its first
    statement to the point where it returns, throws, or waits for the
    user to answer the update dialog. *)

(** [ToNumber], [a == b] and [a > 0] on primitive values.  The number
    a string converts to is left to [StringToNumber]. *)
Definition to_number (StringToNumber : string -> number) (p : prim) : number :=
  match p with
  | undefined => NaN
  | null => Fin 0
  | boolean b => Fin (if b then 1 else 0)
  | num n => n
  | str s => StringToNumber s
  end.

Definition loose_eq (StringToNumber : string -> number) (a b : prim) : bool :=
  match a, b with
  | undefined, undefined | undefined, null | null, undefined | null, null => true
  | undefined, _ | null, _ | _, undefined | _, null => false
  | boolean _, boolean _ | num _, num _ | str _, str _ => strict_eq a b
  | _, _ =>
      strict_eq (num (to_number StringToNumber a)) (num (to_number StringToNumber b))
  end.

Definition greater_than_zero (StringToNumber : string -> number) (a : prim) : bool :=
  number_lt (Fin 0) (to_number StringToNumber a).

(** [CodePush.DEFAULT_UPDATE_DIALOG]. *)
Definition DEFAULT_UPDATE_DIALOG : gmap string value :=
  {[ "appendReleaseDescription" := Prim (boolean false);
     "descriptionPrefix" := Prim (str " Description: ");
     "mandatoryContinueButtonLabel" := Prim (str "Continue");
     "mandatoryUpdateMessage" :=
       Prim (str "An update is available that must be installed.");
     "optionalIgnoreButtonLabel" := Prim (str "Ignore");
     "optionalInstallButtonLabel" := Prim (str "Install");
     "optionalUpdateMessage" :=
       Prim (str "An update is available. Would you like to install it?");
     "title" := Prim (str "Update available") ]}.

(** The local package [remotePackage.download] resolves to; the run
    reads its [isMandatory]. *)
Record DownloadedPackage : Type := mkDownloadedPackage {
  downloaded_isMandatory : prim
}.

(** What a run meets outside besides [Env]: the native
    [notifyApplicationReady], the [download] and [install] of the
    package mixins (whether [install] calls the callback it is given
    before it settles, and how it settles), the button of the update
    dialog the user presses if any, the install-mode constants of the
    native module, and the conversion of strings to numbers. *)
Record Device : Type := mkDevice {
  nativeNotifyApplicationReady : completion unit;
  download : RemotePackage -> value -> completion DownloadedPackage;
  install : completion unit;
  installCallsBack : bool;
  pressed : option nat;
  ON_NEXT_RESTART : prim;
  ON_NEXT_RESUME : prim;
  StringToNumber : string -> number
}.

(** A button of the update dialog, with its label. *)
Inductive Button : Type :=
| IgnoreButton (text : value)
| InstallButton (text : value).

(** What a run does besides the events of the module, in order: the
    status it signals through [syncStatusChangeCallback], and the
    calls to the native [notifyApplicationReady], to [download] and
    [install], and to [Alert.alert].  The message of the alert is
    [message], followed by the description prefix, a space and the
    description when [appended] holds them. *)
Inductive Activity : Type :=
| NativeNotifyApplicationReady
| StatusChanged (status : SyncStatus)
| Download (remotePackage : RemotePackage) (downloadProgressCallback : value)
| Install (installMode minimumBackgroundDuration : prim)
| AlertShown (title message : value) (appended : option (value * prim))
    (dialogButtons : list Button).

(** The module state with the variables the functions below close
    over: [notifyApplicationReadyPromise], as the outcome it settles
    with, and [resolvedInstallMode] of the current [syncInternal]. *)
Record Run : Type := mkRun {
  world : World;
  notifyApplicationReadyPromise : option (completion (option StatusReport));
  resolvedInstallMode : prim;
  activity : list Activity;
  device : Device
}.

Definition set_world (w : World) (r : Run) : Run :=
  mkRun w (notifyApplicationReadyPromise r) (resolvedInstallMode r)
    (activity r) (device r).

Definition set_notifyApplicationReadyPromise
    (p : option (completion (option StatusReport))) (r : Run) : Run :=
  mkRun (world r) p (resolvedInstallMode r) (activity r) (device r).

Definition set_resolvedInstallMode (m : prim) (r : Run) : Run :=
  mkRun (world r) (notifyApplicationReadyPromise r) m (activity r) (device r).

Definition set_activity (f : list Activity -> list Activity) (r : Run) : Run :=
  mkRun (world r) (notifyApplicationReadyPromise r) (resolvedInstallMode r)
    (f (activity r)) (device r).

Definition R (A : Type) : Type := Run -> completion A * Run.

Definition retR {A} (a : A) : R A := fun r => (Returns a, r).

Definition bindR {A B} (m : R A) (k : A -> R B) : R B :=
  fun r =>
    match m r with
    | (Returns a, r') => k a r'
    | (Throws e, r') => (Throws e, r')
    end.

Definition throwR {A} (e : Error) : R A := fun r => (Throws e, r).

Definition try_catchR {A} (body : R A) (handler : Error -> R A) : R A :=
  fun r =>
    match body r with
    | (Returns a, r') => (Returns a, r')
    | (Throws e, r') => handler e r'
    end.

Definition readR {A} (f : Run -> A) : R A := fun r => (Returns (f r), r).

Definition modifyR (f : Run -> Run) : R unit := fun r => (Returns tt, f r).

(** A computation of the module, run on the world of the run. *)
Definition liftW {A} (m : M A) : R A :=
  fun r => let (c, w) := m (world r) in (c, set_world w r).

(** Awaiting a promise that settles with [c]. *)
Definition await {A} (c : completion A) : R A := fun r => (c, r).

Definition act (a : Activity) : R unit := modifyR (set_activity (fun l => l ++ [a])).

Declare Scope run_scope.
Delimit Scope run_scope with run.
Bind Scope run_scope with R.
Notation "x <- c1 ;; c2" := (bindR c1 (fun x => c2))
  (at level 100, c1 at next level, right associativity) : run_scope.
Notation "c1 ;; c2" := (bindR c1 (fun _ => c2))
  (at level 100, right associativity) : run_scope.

Definition notifyApplicationReadyInternal : R (option StatusReport) :=
  (act NativeNotifyApplicationReady ;;
   outcome <- readR (fun r => nativeNotifyApplicationReady (device r)) ;;
   await outcome ;;
   answer <- readR (fun r => newStatusReport (env (world r))) ;;
   statusReport <- liftW (external GetNewStatusReport answer) ;;
   match statusReport with
   | Some report => liftW (detached (tryReportStatus report None))
   | None => retR tt
   end ;;
   retR statusReport)%run.

(** [notifyApplicationReady]: the promise of the first call is kept and
    handed to every caller. *)
Definition notifyApplicationReady : R (option StatusReport) :=
  (promise <- readR notifyApplicationReadyPromise ;;
   match promise with
   | Some outcome => await outcome
   | None =>
       fun r =>
         let (outcome, r') := notifyApplicationReadyInternal r in
         (outcome, set_notifyApplicationReadyPromise (Some outcome) r')
   end)%run.

(** The status callback [syncInternal] uses when it is given none. *)
Definition defaultStatusLog (d : Device) (syncOptions : SyncOptions)
    (resolvedInstallMode : prim) (syncStatus : SyncStatus) : M unit :=
  match syncStatus with
  | CHECKING_FOR_UPDATE => log "Checking for update."
  | AWAITING_USER_ACTION => log "Awaiting user action."
  | DOWNLOADING_PACKAGE => log "Downloading package."
  | INSTALLING_UPDATE => log "Installing update."
  | UP_TO_DATE => log "App is up to date."
  | UPDATE_IGNORED => log "User cancelled the update."
  | UPDATE_INSTALLED =>
      if loose_eq (StringToNumber d) resolvedInstallMode (ON_NEXT_RESTART d) then
        log "Update is installed and will be run on the next app restart."
      else if loose_eq (StringToNumber d) resolvedInstallMode (ON_NEXT_RESUME d) then
        if greater_than_zero (StringToNumber d)
             (sync_minimumBackgroundDuration syncOptions)
        then
          emit (LogValue
                  "Update is installed and will be run after the app has been in the background for at least"
                  (sync_minimumBackgroundDuration syncOptions))
        else log "Update is installed and will be run when the app next resumes."
      else ret tt
  | UNKNOWN_ERROR => log "An unknown error occurred."
  | SYNC_IN_PROGRESS => ret tt
  end.

(** [syncStatusChangeCallback(status)]: the guarded callback [sync]
    passes down when the caller gave a function, the default otherwise. *)
Definition syncStatusChangeCallback (callback : value) (syncOptions : SyncOptions)
    (status : SyncStatus) : R unit :=
  (act (StatusChanged status) ;;
   d <- readR device ;;
   mode <- readR resolvedInstallMode ;;
   liftW match callback with
         | Function id => syncStatusCallbackWithTryCatch id status
         | _ => defaultStatusLog d syncOptions mode status
         end)%run.

Definition doDownloadAndInstall (callback downloadProgressCallback : value)
    (syncOptions : SyncOptions) (remotePackage : RemotePackage) : R SyncStatus :=
  (syncStatusChangeCallback callback syncOptions DOWNLOADING_PACKAGE ;;
   act (Download remotePackage downloadProgressCallback) ;;
   outcome <- readR (fun r =>
     download (device r) remotePackage downloadProgressCallback) ;;
   localPackage <- await outcome ;;
   modifyR (set_resolvedInstallMode
              (if truthy_prim (downloaded_isMandatory localPackage)
               then sync_mandatoryInstallMode syncOptions
               else sync_installMode syncOptions)) ;;
   syncStatusChangeCallback callback syncOptions INSTALLING_UPDATE ;;
   mode <- readR resolvedInstallMode ;;
   act (Install mode (sync_minimumBackgroundDuration syncOptions)) ;;
   callsBack <- readR (fun r => installCallsBack (device r)) ;;
   (if callsBack
    then syncStatusChangeCallback callback syncOptions UPDATE_INSTALLED
    else retR tt) ;;
   outcome <- readR (fun r => install (device r)) ;;
   await outcome ;;
   retR UPDATE_INSTALLED)%run.

(** The reassignment of [syncOptions.updateDialog]. *)
Definition withDefaultUpdateDialog (updateDialog : value) : gmap string value :=
  if negb (String.eqb (typeof updateDialog) "object")
  then DEFAULT_UPDATE_DIALOG
  else spread DEFAULT_UPDATE_DIALOG (props_of updateDialog).

(** How a run of [syncInternal] stands when control leaves it without
    an error: it returned a status, or it waits for a button of the
    update dialog to be pressed. *)
Inductive RunResult : Type :=
| Finished (status : SyncStatus)
| AwaitingUser.

(** The executor of the promise [syncInternal] builds around the
    update dialog, and the button the user presses. *)
Definition awaitUserAction (callback downloadProgressCallback : value)
    (syncOptions : SyncOptions) (remotePackage : RemotePackage) : R RunResult :=
  let updateDialog := withDefaultUpdateDialog (sync_updateDialog syncOptions) in
  let isMandatory := truthy_prim (update_isMandatory (remote_update remotePackage)) in
  let message :=
    if isMandatory then get updateDialog "mandatoryUpdateMessage"
    else get updateDialog "optionalUpdateMessage" in
  let installButtonText :=
    if isMandatory then get updateDialog "mandatoryContinueButtonLabel"
    else get updateDialog "optionalInstallButtonLabel" in
  let dialogButtons :=
    (if isMandatory then []
     else [IgnoreButton (get updateDialog "optionalIgnoreButtonLabel")])
    ++ [InstallButton installButtonText] in
  let appended :=
    if truthy (get updateDialog "appendReleaseDescription")
       && truthy_prim (update_description (remote_update remotePackage))
    then Some (get updateDialog "descriptionPrefix",
               update_description (remote_update remotePackage))
    else None in
  (syncStatusChangeCallback callback syncOptions AWAITING_USER_ACTION ;;
   act (AlertShown (get updateDialog "title") message appended dialogButtons) ;;
   press <- readR (fun r => pressed (device r)) ;;
   match press with
   | None => retR AwaitingUser
   | Some i =>
       match dialogButtons !! i with
       | Some (IgnoreButton _) =>
           syncStatusChangeCallback callback syncOptions UPDATE_IGNORED ;;
           retR (Finished UPDATE_IGNORED)
       | Some (InstallButton _) =>
           status <- doDownloadAndInstall callback downloadProgressCallback
                       syncOptions remotePackage ;;
           retR (Finished status)
       | None => retR AwaitingUser
       end
   end)%run.

(** Truthiness of a value that is an object or [null]. *)
Definition is_some {A} (o : option A) : bool :=
  match o with
  | Some _ => true
  | None => false
  end.

Definition isPending (currentPackage : option LocalPackage) : bool :=
  match currentPackage with
  | Some p => truthy_prim (meta_isPending (local_metadata p))
  | None => false
  end.

(** The body of [syncInternal]; [syncOptions] is the options object
    after the defaults have been spread under it. *)
Definition syncInternalBody (syncOptions : SyncOptions)
    (callback downloadProgressCallback handleBinaryVersionMismatchCallback : value)
  : R RunResult :=
  (modifyR (set_resolvedInstallMode undefined) ;;
   try_catchR
     (notifyApplicationReady ;;
      syncStatusChangeCallback callback syncOptions CHECKING_FOR_UPDATE ;;
      remotePackage <- liftW (checkForUpdate (sync_deploymentKey syncOptions)
                                handleBinaryVersionMismatchCallback) ;;
      updateShouldBeIgnored <- liftW (shouldUpdateBeIgnored remotePackage syncOptions) ;;
      if negb (is_some remotePackage) || updateShouldBeIgnored then
        (if updateShouldBeIgnored
         then liftW (log "An update is available, but it is being ignored due to having been previously rolled back.")
         else retR tt) ;;
        currentPackage <- liftW getCurrentPackage ;;
        if isPending currentPackage then
          syncStatusChangeCallback callback syncOptions UPDATE_INSTALLED ;;
          retR (Finished UPDATE_INSTALLED)
        else
          syncStatusChangeCallback callback syncOptions UP_TO_DATE ;;
          retR (Finished UP_TO_DATE)
      else
        match remotePackage with
        | None => throwR (mkError "TypeError" "remotePackage is null")
        | Some package =>
            if truthy (sync_updateDialog syncOptions) then
              awaitUserAction callback downloadProgressCallback syncOptions package
            else
              status <- doDownloadAndInstall callback downloadProgressCallback
                          syncOptions package ;;
              retR (Finished status)
        end)
     (fun error =>
        syncStatusChangeCallback callback syncOptions UNKNOWN_ERROR ;;
        liftW (log (message error)) ;;
        throwR error))%run.

(** *** [sharedCodePushOptions] and [codePushify] *)

(** The object literal [sharedCodePushOptions] with the properties it
    is given: two data properties and the method [setUpdateChecker]. *)
Definition setUpdateChecker_function : nat := 0.

Definition sharedCodePushOptions : gmap string value :=
  {[ "bundleHost" := Prim undefined;
     "updateChecker" := Prim undefined;
     "setUpdateChecker" := Function setUpdateChecker_function ]}.

(** [object.name(...)] up to the call: the function to call, or the
    [TypeError] of calling what is not a function. *)
Definition method (object : gmap string value) (name : string) : completion nat :=
  match get object name with
  | Function id => Returns id
  | _ => Throws (mkError "TypeError" (name ++ " is not a function"))
  end.

(** [setUpdateChecker(updateCheckerFunction)] on [this]. *)
Definition setUpdateChecker (this : gmap string value) (updateCheckerFunction : value)
  : completion (gmap string value) :=
  if truthy updateCheckerFunction
     && negb (String.eqb (typeof updateCheckerFunction) "function")
  then Throws (mkError "Error" "pass a function to setUpdateChecker")
  else Returns (<["updateChecker" := updateCheckerFunction]> this).

(** What [codePushify] returns when it returns: the decorator, or the
    component the decorator makes of [options] when that is a
    function. *)
Inductive CodePushified : Type :=
| Decorator
| Decorated (RootComponent : value).

Definition quote : string := String (Ascii.ascii_of_nat 34) "".
Definition newline : string := String (Ascii.ascii_of_nat 10) "".

Definition componentNotFound : Error :=
  mkError "Error"
    ("Unable to find the " ++ quote ++ "Component" ++ quote
     ++ " class, please either:" ++ newline
     ++ "1. Upgrade to a newer version of React Native that supports it, or"
     ++ newline
     ++ "2. Call the codePush.sync API in your component instead of using the @codePush decorator")%string.

(** [v.k]: reading a property of [null] or [undefined] throws; the
    properties of a function are not modelled. *)
Definition property (v : value) (k : string) : completion value :=
  match v with
  | Prim undefined | Prim null =>
      Throws (mkError "TypeError" ("Cannot read properties of null or undefined"))
  | Object props => Returns (get props k)
  | _ => Returns (Prim undefined)
  end.

(** [codePushify(options)], from its first statement to its [return];
    [requireReact] is what [require("react")] evaluates to,
    [ReactNativeReact] what [ReactNative.React] does.  The second
    component is [sharedCodePushOptions] as the call leaves it. *)
Definition codePushify (requireReact ReactNativeReact : completion value)
    (options : value) (shared : gmap string value)
  : completion CodePushified * gmap string value :=
  let options :=
    match options with
    | Prim undefined => Object ∅
    | _ => options
    end in
  let React :=
    match requireReact with
    | Returns module => module
    | Throws _ => Prim undefined
    end in
  let React :=
    if negb (truthy React) then
      match ReactNativeReact with
      | Returns module => module
      | Throws _ => React
      end
    else React in
  if negb (truthy React) then
    (Throws (mkError "Error" "Unable to find the 'React' module."), shared)
  else
    match property React "Component" with
    | Throws e => (Throws e, shared)
    | Returns Component =>
        if negb (truthy Component) then (Throws componentNotFound, shared)
        else
          match property options "bundleHost" with
          | Throws e => (Throws e, shared)
          | Returns bundleHost =>
              match method shared "setBundleHost" with
              | Throws e => (Throws e, shared)
              | Returns _ =>
                  match property options "updateChecker" with
                  | Throws e => (Throws e, shared)
                  | Returns updateChecker =>
                      match method shared "setUpdateChecker" with
                      | Throws e => (Throws e, shared)
                      | Returns _ =>
                          match setUpdateChecker shared updateChecker with
                          | Throws e => (Throws e, shared)
                          | Returns shared' =>
                              (Returns (if String.eqb (typeof options) "function"
                                        then Decorated options else Decorator),
                               shared')
                          end
                      end
                  end
              end
          end
    end.

(** *** A call of [sync] with its run

    [syncInternal] is an async function: what its body returns
    fulfils the promise it gave [sync], what it throws rejects that
    promise, and the promise stays pending while the body waits. *)
Definition endOfRun (syncPromise : nat) (outcome : completion RunResult) : M unit :=
  match outcome with
  | Returns (Finished status) => finishRun syncPromise (Fulfilled (Some status))
  | Returns AwaitingUser => ret tt
  | Throws error => finishRun syncPromise (Rejected error)
  end.

(** A call of [sync], the run it starts when it is admitted, and
    [turns] of the job queue after the run has ended. *)
Definition syncThenRun (options : SyncOptions)
    (syncStatusChangeCallback downloadProgressCallback
     handleBinaryVersionMismatchCallback : value) (turns : nat) : R nat :=
  (inProgress <- liftW (read syncInProgress) ;;
   syncPromise <- liftW (sync options syncStatusChangeCallback
                           downloadProgressCallback
                           handleBinaryVersionMismatchCallback) ;;
   (if inProgress then retR tt
    else
      fun r =>
        let (outcome, r') :=
          syncInternalBody options syncStatusChangeCallback
            downloadProgressCallback handleBinaryVersionMismatchCallback r in
        liftW (bind (endOfRun syncPromise outcome) (fun _ => drain turns)) r') ;;
   retR syncPromise)%run.

(** The flag of [sync], the promises and the job queue. *)
Definition sameSync (w w' : World) : Prop :=
  syncInProgress w' = syncInProgress w
  /\ promises w' = promises w
  /\ jobs w' = jobs w.

(** Computations that leave the three as they are. *)
Definition keepsSync {A} (m : M A) : Prop := forall w, sameSync w (snd (m w)).

Definition keepsSyncR {A} (m : R A) : Prop :=
  forall r, sameSync (world r) (world (snd (m r))).

(** Two states of the module that differ in the trace at most, and the
    computations that cannot tell them apart: the trace is written,
    never read. *)
Definition sameButTrace (w1 w2 : World) : Prop :=
  heap w1 = heap w2 /\ configCache w1 = configCache w2
  /\ testConfig w1 = testConfig w2 /\ syncInProgress w1 = syncInProgress w2
  /\ promises w1 = promises w2 /\ jobs w1 = jobs w2
  /\ listeners w1 = listeners w2 /\ env w1 = env w2.

Definition traceBlind {A} (m : M A) : Prop :=
  forall w1 w2, sameButTrace w1 w2 ->
    fst (m w1) = fst (m w2) /\ sameButTrace (snd (m w1)) (snd (m w2)).

(** *** Vocabulary of the properties of a run *)

Definition notified (acts : list Activity) : Prop :=
  acts = [] \/ acts = [NativeNotifyApplicationReady].

Definition dialogue (acts : list Activity) : Prop :=
  acts = []
  \/ exists title message appended dialogButtons,
       acts = [StatusChanged AWAITING_USER_ACTION;
               AlertShown title message appended dialogButtons].

Definition calledBack (acts : list Activity) : Prop :=
  acts = [] \/ acts = [StatusChanged UPDATE_INSTALLED].

(** The courses a run of [syncInternal] can take: what it does, in
    order, and how it ends. *)
Inductive syncPath : list Activity -> completion RunResult -> Prop :=
| path_not_ready n e :
    notified n ->
    syncPath (n ++ [StatusChanged UNKNOWN_ERROR]) (Throws e)
| path_check_failed n e :
    notified n ->
    syncPath (n ++ [StatusChanged CHECKING_FOR_UPDATE; StatusChanged UNKNOWN_ERROR])
      (Throws e)
| path_up_to_date n :
    notified n ->
    syncPath (n ++ [StatusChanged CHECKING_FOR_UPDATE; StatusChanged UP_TO_DATE])
      (Returns (Finished UP_TO_DATE))
| path_pending n :
    notified n ->
    syncPath (n ++ [StatusChanged CHECKING_FOR_UPDATE; StatusChanged UPDATE_INSTALLED])
      (Returns (Finished UPDATE_INSTALLED))
| path_awaiting n title message appended dialogButtons :
    notified n ->
    syncPath (n ++ [StatusChanged CHECKING_FOR_UPDATE;
                    StatusChanged AWAITING_USER_ACTION;
                    AlertShown title message appended dialogButtons])
      (Returns AwaitingUser)
| path_ignored n title message appended dialogButtons :
    notified n ->
    syncPath (n ++ [StatusChanged CHECKING_FOR_UPDATE;
                    StatusChanged AWAITING_USER_ACTION;
                    AlertShown title message appended dialogButtons;
                    StatusChanged UPDATE_IGNORED])
      (Returns (Finished UPDATE_IGNORED))
| path_download_failed n asked remotePackage progress e :
    notified n -> dialogue asked ->
    syncPath (n ++ StatusChanged CHECKING_FOR_UPDATE :: asked
                ++ [StatusChanged DOWNLOADING_PACKAGE;
                    Download remotePackage progress;
                    StatusChanged UNKNOWN_ERROR])
      (Throws e)
| path_install_failed n asked remotePackage progress installMode duration called e :
    notified n -> dialogue asked -> calledBack called ->
    syncPath (n ++ StatusChanged CHECKING_FOR_UPDATE :: asked
                ++ [StatusChanged DOWNLOADING_PACKAGE;
                    Download remotePackage progress;
                    StatusChanged INSTALLING_UPDATE; Install installMode duration]
                ++ called ++ [StatusChanged UNKNOWN_ERROR])
      (Throws e)
| path_installed n asked remotePackage progress installMode duration called :
    notified n -> dialogue asked -> calledBack called ->
    syncPath (n ++ StatusChanged CHECKING_FOR_UPDATE :: asked
                ++ [StatusChanged DOWNLOADING_PACKAGE;
                    Download remotePackage progress;
                    StatusChanged INSTALLING_UPDATE; Install installMode duration]
                ++ called)
      (Returns (Finished UPDATE_INSTALLED)).

(** A device on which nothing fails and no dialog button is pressed. *)
Definition sampleDevice : Device :=
  {| nativeNotifyApplicationReady := Returns tt;
     download := fun p _ =>
       Returns (mkDownloadedPackage (update_isMandatory (remote_update p)));
     install := Returns tt;
     installCallsBack := true;
     pressed := None;
     ON_NEXT_RESTART := num (Fin 1);
     ON_NEXT_RESUME := num (Fin 2);
     StringToNumber := fun _ => NaN |}.

Definition freshRun (e : Env) (d : Device) : Run :=
  mkRun (freshWorld e) None undefined [] d.

End CodePush.

(** * Properties *)

(** ** The order of [semver] *)
Module SemverFacts.
Import Semver.

Create HintDb semver.
#[global] Hint Constructors three_way ident_precedes pre_precedes : semver.

Lemma ascii_compare_refl c : Ascii.compare c c = Eq.
Proof. unfold Ascii.compare. apply N.compare_refl. Qed.

Lemma ascii_compare_trans c d e :
  Ascii.compare c d = Lt -> Ascii.compare d e = Lt -> Ascii.compare c e = Lt.
Proof.
  unfold Ascii.compare. rewrite !N.compare_lt_iff. apply N.lt_trans.
Qed.

Lemma string_compare_refl s : String.compare s s = Eq.
Proof.
  induction s as [|c s IH]; simpl; [reflexivity|].
  now rewrite ascii_compare_refl.
Qed.

Lemma string_compare_trans s t u :
  String.compare s t = Lt -> String.compare t u = Lt -> String.compare s u = Lt.
Proof.
  revert t u. induction s as [|c s IH]; intros [|d t] [|e u]; simpl;
    try congruence.
  destruct (Ascii.compare c d) eqn:Hcd; try discriminate;
    destruct (Ascii.compare d e) eqn:Hde; try discriminate; intros Hst Htu.
  - apply Ascii.compare_eq_iff in Hcd, Hde. subst.
    rewrite ascii_compare_refl. eauto.
  - apply Ascii.compare_eq_iff in Hcd. subst. now rewrite Hde.
  - apply Ascii.compare_eq_iff in Hde. subst. now rewrite Hcd.
  - now rewrite (ascii_compare_trans _ _ _ Hcd Hde).
Qed.

Lemma string_compare_gt_lt s t :
  String.compare s t = Gt -> String.compare t s = Lt.
Proof.
  intros H. rewrite String.compare_antisym, H. reflexivity.
Qed.

Lemma identifier_eqb_eq a b : identifier_eqb a b = true <-> a = b.
Proof.
  destruct a, b; simpl; try (split; congruence).
  - rewrite N.eqb_eq. split; congruence.
  - rewrite String.eqb_eq. split; congruence.
Qed.

Lemma identifier_eqb_refl a : identifier_eqb a a = true.
Proof. now apply identifier_eqb_eq. Qed.

Lemma ident_precedes_irrefl a : ~ ident_precedes a a.
Proof.
  inversion 1; subst.
  - lia.
  - rewrite string_compare_refl in *. discriminate.
Qed.

Lemma ident_precedes_trans a b c :
  ident_precedes a b -> ident_precedes b c -> ident_precedes a c.
Proof.
  inversion 1; subst; inversion 1; subst; constructor.
  - lia.
  - eauto using string_compare_trans.
Qed.

Lemma compareIdentifiers_spec a b :
  three_way ident_precedes eq a b (compareIdentifiers a b).
Proof.
  unfold compareIdentifiers.
  destruct (identifier_eqb a b) eqn:E.
  - apply identifier_eqb_eq in E. auto with semver.
  - destruct a as [x|s], b as [y|t]; simpl in E; auto with semver.
    + apply N.eqb_neq in E.
      destruct (N.ltb_spec x y); constructor; constructor; lia.
    + unfold String.ltb. destruct (String.compare s t) eqn:C.
      * apply String.compare_eq_iff in C. subst.
        rewrite String.eqb_refl in E. discriminate.
      * auto with semver.
      * apply string_compare_gt_lt in C. auto with semver.
Qed.

Lemma pre_precedes_irrefl p : ~ pre_precedes p p.
Proof.
  induction p as [|a p IH]; inversion 1; subst; auto.
  eapply ident_precedes_irrefl; eauto.
Qed.

Lemma pre_precedes_trans p q r :
  pre_precedes p q -> pre_precedes q r -> pre_precedes p r.
Proof.
  intros Hpq. revert r.
  induction Hpq; inversion 1; subst;
    eauto using ident_precedes_trans with semver.
Qed.

Lemma comparePre_loop_spec p q :
  three_way pre_precedes eq p q (comparePre_loop p q).
Proof.
  revert q. induction p as [|a p IH]; intros [|b q]; simpl;
    auto with semver.
  destruct (identifier_eqb a b) eqn:E.
  - apply identifier_eqb_eq in E. subst.
    destruct (IH q); subst; auto with semver.
  - destruct (compareIdentifiers_spec a b) as [H|H|H]; auto with semver.
    subst. rewrite identifier_eqb_refl in E. discriminate.
Qed.

Lemma prerelease_eqb_eq p q : prerelease_eqb p q = true <-> p = q.
Proof.
  revert q. induction p as [|a p IH]; intros [|b q]; simpl;
    try (split; congruence).
  rewrite andb_true_iff, identifier_eqb_eq, IH. split.
  - intros [-> ->]. reflexivity.
  - intros [= -> ->]. auto.
Qed.

Lemma version_eqb_same a b : version_eqb a b = true <-> same_precedence a b.
Proof.
  unfold version_eqb, same_precedence.
  rewrite !andb_true_iff, !N.eqb_eq, prerelease_eqb_eq. tauto.
Qed.

Lemma precedes_irrefl a : ~ precedes a a.
Proof.
  inversion 1; try lia; try congruence.
  eapply pre_precedes_irrefl; eauto.
Qed.

Lemma precedes_trans a b c : precedes a b -> precedes b c -> precedes a c.
Proof.
  intros [H1|E1 H1|E1 E2 H1|E1 E2 E3 Ha Hb|E1 E2 E3 Ha Hb H1]
         [K1|F1 K1|F1 F2 K1|F1 F2 F3 Kb Kc|F1 F2 F3 Kb Kc K1];
    try congruence;
    try (apply prec_major; lia);
    try (apply prec_minor; [congruence | lia]);
    try (apply prec_patch; [congruence | congruence | lia]).
  - apply prec_release; congruence.
  - apply prec_pre; try congruence. eapply pre_precedes_trans; eauto.
Qed.

Lemma same_precedence_sym a b : same_precedence a b -> same_precedence b a.
Proof. unfold same_precedence. intuition congruence. Qed.

Lemma precedes_same_l a a' b :
  same_precedence a a' -> precedes a b -> precedes a' b.
Proof.
  intros (E1 & E2 & E3 & E4) [H|? H|? ? H|? ? ? ? ?|? ? ? ? ? H].
  - apply prec_major; lia.
  - apply prec_minor; [congruence | lia].
  - apply prec_patch; [congruence | congruence | lia].
  - apply prec_release; congruence.
  - apply prec_pre; congruence.
Qed.


Lemma compareNumbers_spec x y :
  three_way N.lt eq x y (compareIdentifiers (Numeric x) (Numeric y)).
Proof.
  destruct (compareIdentifiers_spec (Numeric x) (Numeric y)) as [H|H|H].
  - inversion H; subst. now constructor.
  - injection H as ->. now constructor.
  - inversion H; subst. now constructor.
Qed.

(** [compare] answers [-1], [0] or [1] according to precedence. *)
Lemma compare_spec a b : three_way precedes same_precedence a b (compare a b).
Proof.
  unfold compare. destruct (version_eqb a b) eqn:E.
  - apply version_eqb_same in E. now constructor.
  - assert (Hne : ~ same_precedence a b).
    { rewrite <- version_eqb_same. congruence. }
    unfold compareMain, or_else.
    destruct (compareNumbers_spec (major a) (major b)) as [H1|H1|H1]; simpl;
      [constructor; apply prec_major; lia | | constructor; apply prec_major; lia].
    destruct (compareNumbers_spec (minor a) (minor b)) as [H2|H2|H2]; simpl;
      [constructor; apply prec_minor; auto | | constructor; apply prec_minor; auto].
    destruct (compareNumbers_spec (patch a) (patch b)) as [H3|H3|H3]; simpl;
      [constructor; apply prec_patch; auto | | constructor; apply prec_patch; auto].
    unfold comparePre.
    destruct (prerelease a) as [|x p] eqn:Pa, (prerelease b) as [|y q] eqn:Pb;
      simpl.
    + exfalso. apply Hne. unfold same_precedence. intuition congruence.
    + constructor. apply prec_release; congruence.
    + constructor. apply prec_release; congruence.
    + destruct (identifier_eqb x y) eqn:Exy.
      * apply identifier_eqb_eq in Exy. subst y.
        destruct (comparePre_loop_spec p q) as [H|H|H].
        -- constructor. apply prec_pre; try congruence.
           rewrite Pa, Pb. auto with semver.
        -- exfalso. apply Hne. unfold same_precedence. intuition congruence.
        -- constructor. apply prec_pre; try congruence.
           rewrite Pa, Pb. auto with semver.
      * destruct (compareIdentifiers_spec x y) as [H|H|H].
        -- constructor. apply prec_pre; try congruence.
           rewrite Pa, Pb. auto with semver.
        -- subst. rewrite identifier_eqb_refl in Exy. discriminate.
        -- constructor. apply prec_pre; try congruence.
           rewrite Pa, Pb. auto with semver.
Qed.

Lemma precedes_not_same a b : precedes a b -> ~ same_precedence a b.
Proof.
  intros H S. apply (precedes_irrefl b).
  eapply precedes_same_l; eauto.
Qed.

Lemma precedes_asym a b : precedes a b -> ~ precedes b a.
Proof.
  intros H K. apply (precedes_irrefl a). eapply precedes_trans; eauto.
Qed.

Lemma lt_precedes a b : lt a b = true <-> precedes a b.
Proof.
  unfold lt. destruct (compare_spec a b) as [H|H|H]; simpl.
  - tauto.
  - split; [discriminate|]. intros K. now apply precedes_not_same in K.
  - split; [discriminate|]. intros K. now apply precedes_asym in K.
Qed.

Lemma gt_precedes a b : gt a b = true <-> precedes b a.
Proof.
  unfold gt. destruct (compare_spec a b) as [H|H|H]; simpl.
  - split; [discriminate|]. intros K. now apply precedes_asym in K.
  - split; [discriminate|]. intros K.
    apply precedes_not_same in K. now apply same_precedence_sym in H.
  - tauto.
Qed.

Lemma gte_not_precedes a b : gte a b = true <-> ~ precedes a b.
Proof.
  unfold gte. destruct (compare_spec a b) as [H|H|H]; simpl.
  - split; [discriminate|]. tauto.
  - split; [|reflexivity]. intros _ K. now apply precedes_not_same in K.
  - split; [|reflexivity]. intros _ K. now apply precedes_asym in K.
Qed.

Lemma compare_zero_same a b : compare a b = 0 <-> same_precedence a b.
Proof.
  destruct (compare_spec a b) as [H|H|H].
  - split; [discriminate|]. intros K. now apply precedes_not_same in H.
  - tauto.
  - split; [discriminate|]. intros K.
    apply precedes_not_same in H. now apply same_precedence_sym in K.
Qed.

Lemma gt_lt a b : gt a b = lt b a.
Proof.
  apply eq_true_iff_eq. rewrite gt_precedes, lt_precedes. tauto.
Qed.


End SemverFacts.

(** ** [Array.prototype.sort] under the comparator of the resolver *)
Module SortFacts.
Import JS Semver SemverFacts SemverVersioning.













End SortFacts.

(** ** The release resolver *)

Import JS Semver SemverVersioning.

(** The histories of [SemverVersioning.test.js]. *)
Example findLatestRelease_skips_disabled :
  findLatestRelease
    [(release 1 0 0, info true false); (release 1 1 0, info false false);
     (release 1 0 5, info true true)]
  = Returns (release 1 0 5, info true true).
Proof. reflexivity. Qed.

Example findLatestRelease_numeric_order :
  findLatestRelease
    [(release 1 0 0, info true false); (release 1 0 10, info true false);
     (release 1 0 2, info true false); (release 1 0 9, info true false)]
  = Returns (release 1 0 10, info true false).
Proof. reflexivity. Qed.

Example checkIsMandatory_prerelease :
  checkIsMandatory (prerelease_of 1 0 0 [Alphanumeric "beta"; Numeric 1])
    [(prerelease_of 1 0 0 [Alphanumeric "alpha"; Numeric 1], info true false);
     (prerelease_of 1 0 0 [Alphanumeric "beta"; Numeric 2], info true true)]
  = true.
Proof. reflexivity. Qed.

Example checkIsMandatory_scenario :
  let h := [(release 1 0 0, info true false); (release 1 1 0, info true true)] in
  checkIsMandatory (release 1 0 0) h = true
  /\ findLatestRelease h = Returns (release 1 1 0, info true true).
Proof. split; reflexivity. Qed.

Example shouldRollback_scenario :
  shouldRollback (release 1 2 0) (release 1 1 0) = true
  /\ shouldRollback (release 1 0 0) (release 1 1 0) = false
  /\ shouldRollback (release 1 0 0)
       (prerelease_of 1 0 0 [Alphanumeric "beta"; Numeric 1]) = true
  /\ shouldRollback (prerelease_of 1 0 0 [Alphanumeric "beta"; Numeric 1])
       (release 1 0 0) = false.
Proof. repeat split; reflexivity. Qed.









(** ** The CodePush module *)

Import CodePush.

Ltac run :=
  unfold bind, ret, read, modify, emit, log, throw, lift, external, try_catch; simpl.

Ltac crunch :=
  repeat (unfold bind, ret, read, modify, emit, log, throw, lift, external,
            try_catch, deref, assign_deploymentKey, getPromisifiedSdk,
            sdk_reportStatusDeploy, removeListener, addEventListener,
            set_trace, set_heap, set_listeners, set_configCache; simpl).

(** *** The functions at work *)

Example last_segment_of_url :
  last_segment "" "https://host/bundles/v2.zip" = "v2.zip"
  /\ last_segment "" "v2.zip" = "v2.zip"
  /\ last_segment "" "https://host/bundles/" = "".
Proof. repeat split. Qed.

(** A first check on a fresh module: the native configuration is
    fetched and cached, the SDK is asked with it, and the update it
    answers comes back as a remote package with the native key. *)
Example checkForUpdate_fresh_module :
  let update := sampleUpdate undefined (str "hash-2") in
  let configuration := sampleConfiguration (str "production-key") in
  let w := freshWorld (sampleEnv configuration None (Some update) None 0) in
  let result := checkForUpdate null (Prim undefined) w in
  fst result
  = Returns (Some (mkRemotePackage
                     (with_update_deploymentKey update (str "production-key")) false))
  /\ configCache (snd result) = Some 0%nat
  /\ heap (snd result) = [configuration]
  /\ trace (snd result)
     = [SdkQueryUpdate configuration
          (mkQueryPackage (str "1.0.0") undefined undefined)].
Proof. repeat split. Qed.

(** The custom update checker: an answer that is not available gives
    no update, and a binary mismatch reaches the callback. *)
Example checkForUpdate_custom_checker :
  let answer (flag available : prim) : UpdateCheckRequest -> completion UpdateCheckResponse :=
    fun _ => Returns (mkUpdateCheckResponse (Some
      (mkUpdateInfo flag available (str "2.0.0") undefined undefined undefined
         (str "hash-2") undefined undefined))) in
  let e checker :=
    mkEnv (sampleConfiguration (str "key")) (fun _ => None) (fun _ => false)
      (fun _ => false) None None (fun _ _ => Returns None) (Some checker)
      (Some "https://cdn/") "ios" 0 (fun _ => false) in
  fst (checkForUpdate null (Function 1)
         (freshWorld (e (answer undefined (boolean false))))) = Returns None
  /\ (let result := checkForUpdate null (Function 1)
                      (freshWorld (e (answer (boolean true) undefined))) in
      fst result = Returns None
      /\ exists u, In (MismatchCallbackCalled 1 u) (trace (snd result))
           /\ update_appVersion u = str "2.0.0")
  /\ exists package,
       fst (checkForUpdate null (Function 1)
              (freshWorld (e (answer undefined (boolean true)))))
       = Returns (Some package)
       /\ update_downloadUrl (remote_update package) = str ""
       /\ update_packageHash (remote_update package) = str "hash-2".
Proof.
  split; [reflexivity|]. split.
  - split; [reflexivity|]. eexists. split; [vm_compute; right; right; left; reflexivity|].
    reflexivity.
  - eexists. split; [reflexivity|]. split; reflexivity.
Qed.

(** *** The rollback retry policy *)
Lemma typeof_number v : String.eqb (typeof v) "number" = true <-> numeric v.
Proof.
  split.
  - destruct v as [[| |b|n|s]|props|id]; simpl; try discriminate. intros _. now exists n.
  - intros [n ->]. reflexivity.
Qed.

Lemma typeof_not_number v : ~ numeric v -> String.eqb (typeof v) "number" = false.
Proof.
  intros H. apply not_true_is_false. now rewrite typeof_number.
Qed.

Lemma validate_invalid o w :
  invalidPolicy o ->
  exists warning,
    validateRollbackRetryOptions o w = (Returns false, set_trace (fun t => (t ++ [Log warning])) w).
Proof.
  unfold validateRollbackRetryOptions.
  intros [H|[H|(q & Hq & Hlt)]].
  - rewrite (typeof_not_number _ H). simpl. eexists. reflexivity.
  - destruct (String.eqb (typeof (get o "delayInHours")) "number"); simpl;
      [|eexists; reflexivity].
    rewrite (typeof_not_number _ H). simpl. eexists. reflexivity.
  - destruct (String.eqb (typeof (get o "delayInHours")) "number"); simpl;
      [|eexists; reflexivity].
    rewrite Hq. simpl.
    assert (E : Qle_bool 1 q = false).
    { apply not_true_is_false. rewrite Qle_bool_iff. now apply Qlt_not_le. }
    rewrite E. simpl. eexists. reflexivity.
Qed.

Lemma validate_valid o w d m :
  get o "delayInHours" = Prim (num d) ->
  get o "maxRetryAttempts" = Prim (num (Fin m)) -> (1 <= m)%Q ->
  validateRollbackRetryOptions o w = (Returns true, w).
Proof.
  unfold validateRollbackRetryOptions. intros -> -> Hm. simpl.
  apply Qle_bool_iff in Hm. rewrite Hm. reflexivity.
Qed.

Lemma get_withDefault_present props k v :
  props !! k = Some v -> get (withDefaultRetryOptions (Object props)) k = v.
Proof.
  intros H. unfold withDefaultRetryOptions, get, spread. simpl.
  now rewrite (lookup_union_Some_l _ _ _ _ H).
Qed.

Lemma invalidField_invalidPolicy props :
  invalidField props -> invalidPolicy (withDefaultRetryOptions (Object props)).
Proof.
  intros [(v & Hv & Hn)|(v & Hv & [Hn|(q & -> & Hq)])].
  - left. now rewrite (get_withDefault_present _ _ _ Hv).
  - right; left. now rewrite (get_withDefault_present _ _ _ Hv).
  - right; right. exists q. now rewrite (get_withDefault_present _ _ _ Hv).
Qed.




(** *** Frame conditions *)
Lemma grows_refl w : grows w w.
Proof. split; auto. Qed.

Lemma grows_trans w1 w2 w3 : grows w1 w2 -> grows w2 w3 -> grows w1 w3.
Proof. intros [E1 H1] [E2 H2]. split; [congruence | auto]. Qed.

Lemma stable_ret {A} (a : A) : stable (ret a).
Proof. intros w. apply grows_refl. Qed.

Lemma stable_bind {A B} (m : M A) (k : A -> M B) :
  stable m -> (forall a, stable (k a)) -> stable (bind m k).
Proof.
  intros Hm Hk w. unfold bind. specialize (Hm w).
  destruct (m w) as [[a|e] w']; simpl in *; [|assumption].
  eapply grows_trans; [eassumption | apply Hk].
Qed.

Lemma stable_read {A} (f : World -> A) : stable (read f).
Proof. intros w. apply grows_refl. Qed.

Lemma stable_lift {A} (c : completion A) : stable (lift c).
Proof. intros w. apply grows_refl. Qed.

Lemma stable_throw {A} (e : Error) : stable (@throw A e).
Proof. intros w. apply grows_refl. Qed.

Lemma stable_external {A} call (a : A) : stable (external call a).
Proof. intros w. unfold external. destruct (fails _ _); apply grows_refl. Qed.

Lemma stable_emit e : stable (emit e).
Proof. intros w. split; reflexivity || auto. Qed.

Lemma stable_log s : stable (log s).
Proof. apply stable_emit. Qed.

Lemma stable_deref l : stable (deref l).
Proof. intros w. unfold deref. destruct (heap w !! l); apply grows_refl. Qed.

Lemma stable_alloc c : stable (alloc c).
Proof.
  intros w. split; [reflexivity|]. simpl. intros l c' H.
  now apply lookup_app_l_Some.
Qed.

Lemma stable_set_configCache o : stable (modify (set_configCache o)).
Proof. intros w. split; reflexivity || auto. Qed.

Create HintDb stable.
#[global] Hint Resolve stable_ret stable_read stable_lift stable_throw
  stable_external stable_emit stable_log stable_deref stable_alloc
  stable_set_configCache : stable.

Ltac stable_step :=
  match goal with
  | |- stable (bind _ _) => apply stable_bind; [|intros ?]
  | |- stable (match ?x with _ => _ end) => destruct x
  | |- stable (if ?x then _ else _) => destruct x
  | |- stable (let _ := _ in _) => cbv zeta
  | |- stable _ => solve [auto with stable]
  end.

Lemma stable_getConfiguration : stable getConfiguration.
Proof. unfold getConfiguration. repeat stable_step. Qed.

Lemma stable_getUpdateMetadata s : stable (getUpdateMetadata s).
Proof. unfold getUpdateMetadata. repeat stable_step. Qed.

Lemma stable_getPromisifiedSdk l : stable (getPromisifiedSdk l).
Proof. unfold getPromisifiedSdk. repeat stable_step. Qed.

#[global] Hint Resolve stable_getConfiguration stable_getUpdateMetadata
  stable_getPromisifiedSdk : stable.

Lemma stable_customUpdateCheck f c q : stable (customUpdateCheck f c q).
Proof. unfold customUpdateCheck. repeat stable_step. Qed.

Lemma stable_sdk_query sdk q : stable (sdk_queryUpdateWithCurrentPackage sdk q).
Proof. unfold sdk_queryUpdateWithCurrentPackage. repeat stable_step. Qed.

#[global] Hint Resolve stable_customUpdateCheck stable_sdk_query : stable.

Lemma stable_resolveUpdate key : stable (resolveUpdate key).
Proof. unfold resolveUpdate, getCurrentPackage. repeat stable_step. Qed.

Lemma bind_returns {A B} (m : M A) (k : A -> M B) w b w' :
  bind m k w = (Returns b, w') ->
  exists a wa, m w = (Returns a, wa) /\ k a wa = (Returns b, w').
Proof.
  unfold bind. destruct (m w) as [[a|e] wa]; [eauto | discriminate].
Qed.

Lemma stable_returns {A} (m : M A) w a w' :
  stable m -> m w = (Returns a, w') -> grows w w'.
Proof. intros H E. specialize (H w). now rewrite E in H. Qed.

Lemma deref_returns l w c w' :
  deref l w = (Returns c, w') -> w' = w /\ heap w !! l = Some c.
Proof.
  unfold deref. destruct (heap w !! l); intros [= <- <-] || discriminate. auto.
Qed.


Lemma resolveUpdate_returns key w r w1 :
  resolveUpdate key w = (Returns r, w1) ->
  exists l w0 c,
    getConfiguration w = (Returns l, w0)
    /\ heap w0 !! l = Some c
    /\ res_nativeConfig r = l
    /\ res_config r = (if truthy_prim key then with_deploymentKey c key else c)
    /\ grows w0 w1.
Proof.
  intros H. unfold resolveUpdate in H.
  apply bind_returns in H. destruct H as (l & wa & Hget & H).
  apply bind_returns in H. destruct H as (config & wb & Hconfig & H).
  apply bind_returns in H. destruct H as (sdk & wc & Hsdk & H).
  unfold getPromisifiedSdk in Hsdk.
  apply bind_returns in Hsdk. destruct Hsdk as (c' & wd & Hc' & Hsdk).
  unfold ret in Hsdk. injection Hsdk as <- <-.
  apply deref_returns in Hc'. destruct Hc' as [-> Hc'].
  assert (Hcfg : exists c, heap wa !! l = Some c
            /\ c' = (if truthy_prim key then with_deploymentKey c key else c)
            /\ grows wa wb).
  { destruct (truthy_prim key).
    - apply bind_returns in Hconfig. destruct Hconfig as (c0 & we & Hc0 & Ha).
      apply deref_returns in Hc0. destruct Hc0 as [-> Hc0].
      exists c0. split; [assumption|]. split.
      + unfold alloc in Ha. injection Ha as <- <-. simpl in Hc'.
        rewrite lookup_app_r in Hc' by reflexivity.
        rewrite Nat.sub_diag in Hc'. simpl in Hc'. congruence.
      + eapply stable_returns; [apply stable_alloc | exact Ha].
    - unfold ret in Hconfig. injection Hconfig as <- <-.
      exists c'. split; [assumption|]. split; [reflexivity | apply grows_refl]. }
  destruct Hcfg as (c & Hl & -> & Gab).
  exists l, wa, c. split; [assumption|]. split; [assumption|].
  apply bind_returns in H. destruct H as (lp & w2 & H2 & H).
  apply bind_returns in H. destruct H as (cfg & w3 & H3 & H).
  apply bind_returns in H. destruct H as (os & w4 & H4 & H).
  apply bind_returns in H. destruct H as (checker & w5 & H5 & H).
  apply bind_returns in H. destruct H as (update & w6 & H6 & H).
  apply bind_returns in H. destruct H as (host & w7 & H7 & H).
  unfold ret in H. injection H as <- <-. simpl.
  split; [reflexivity|].
  assert (G2 : grows wb w2)
    by (eapply stable_returns; [apply stable_getUpdateMetadata | exact H2]).
  apply deref_returns in H3. destruct H3 as [-> H3].
  unfold read in H4, H5, H7.
  injection H4 as <- <-. injection H5 as <- <-. injection H7 as <- <-.
  assert (G6 : grows w2 w6).
  { destruct (updateChecker (env w2)); (eapply stable_returns; [|exact H6]);
      auto with stable. }
  split.
  - destruct G2 as [_ G2]. apply G2 in Hc'. congruence.
  - eauto using grows_trans.
Qed.






(** *** [getConfiguration] and [tryReportStatus] *)
Lemma getConfiguration_returns w l w0 :
  getConfiguration w = (Returns l, w0) ->
  (configCache w0 = Some l \/ (configCache w0 = None /\ testConfig w0 = Some l))
  /\ env w0 = env w.
Proof.
  unfold getConfiguration. run.
  destruct (configCache w) as [l'|] eqn:Ec.
  - intros [= <- <-]. auto.
  - destruct (testConfig w) as [l'|] eqn:Et.
    + intros [= <- <-]. auto.
    + destruct (fails (env w) GetConfiguration); [discriminate|].
      intros [= <- <-]. auto.
Qed.

Lemma getConfiguration_cached w l :
  configCache w = Some l \/ (configCache w = None /\ testConfig w = Some l) ->
  getConfiguration w = (Returns l, w).
Proof.
  unfold getConfiguration. run. intros [->|[-> ->]]; reflexivity.
Qed.



(** *** Promises and [sync] *)
Lemma lookup_snoc_length {A} (l : list A) x rest : (l ++ x :: rest) !! length l = Some x.
Proof. now rewrite list_lookup_middle. Qed.

Lemma insert_snoc_length {A} (l : list A) x y rest :
  <[length l := y]> (l ++ x :: rest) = (l ++ y :: rest).
Proof.
  rewrite insert_app_r_alt by lia. now rewrite Nat.sub_diag.
Qed.

Lemma lookup_app_add {A} (l k : list A) i : (l ++ k) !! (length l + i)%nat = k !! i.
Proof.
  rewrite lookup_app_r by lia. f_equal. lia.
Qed.

Ltac norm :=
  repeat first
    [ rewrite <- app_assoc | rewrite length_app | rewrite lookup_app_add
    | rewrite insert_app_r | rewrite lookup_snoc_length
    | rewrite insert_snoc_length | progress simpl ].

Ltac unfold_sync :=
  unfold sync, syncInternal, finishRun, promiseResolve, catch_, then_, settle,
    newPromise, runMicrotask, runJob, runHandler, setSyncCompleted,
    syncStatusCallbackWithTryCatch,
    set_promises, set_syncInProgress, set_trace, set_jobs;
  run.

Lemma sync_admitted options cb1 cb2 cb3 w :
  syncInProgress w = false ->
  sync options cb1 cb2 cb3 w = (Returns (length (promises w)), started w).
Proof.
  intros H. unfold_sync. rewrite H. norm.
  unfold started, thenReaction, catchReaction.
  repeat f_equal; lia.
Qed.


Lemma started_inFlight w : inFlight (length (promises w)) [] (started w).
Proof. exists (promises w), []. split; reflexivity. Qed.

Lemma jobEffect_refl w : jobEffect w w.
Proof.
  split; [intros q o H; exact H|]. split; [exists []; now rewrite app_nil_r | auto].
Qed.

Lemma jobEffect_trans w1 w2 w3 : jobEffect w1 w2 -> jobEffect w2 w3 -> jobEffect w1 w3.
Proof.
  intros (K1 & [n1 J1] & F1) (K2 & [n2 J2] & F2).
  split; [intros q o H; auto|]. split; [|auto].
  exists (n1 ++ n2). now rewrite J2, J1, <- app_assoc.
Qed.

Lemma settle_effect p o w :
  exists w', settle p o w = (Returns tt, w') /\ jobEffect w w'.
Proof.
  unfold settle. run.
  destruct (promises w !! p) as [[reactions|o']|] eqn:E.
  - eexists. split; [reflexivity|]. split; [|split].
    + intros q o' H. simpl. destruct (decide (q = p)) as [->|Hne].
      * congruence.
      * now rewrite list_lookup_insert_ne.
    + simpl. eauto.
    + auto.
  - eexists. split; [reflexivity|]. apply jobEffect_refl.
  - eexists. split; [reflexivity|]. apply jobEffect_refl.
Qed.

Lemma runJob_effect j w :
  exists w', runJob j w = (Returns tt, w') /\ jobEffect w w'.
Proof.
  unfold runJob.
  destruct (match job_outcome j with
            | Fulfilled _ => onFulfilled (job_reaction j)
            | Rejected _ => onRejected (job_reaction j)
            end) as [[|id]|].
  - unfold runHandler, setSyncCompleted. run.
    destruct (settle_effect (derived (job_reaction j)) (Fulfilled None)
                (set_syncInProgress false w)) as (w' & E & K & J & F).
    rewrite E. exists w'. split; [reflexivity|].
    split; [exact K|]. split; [exact J|]. intros _. now apply F.
  - unfold runHandler. run.
    destruct (fails (env w) (Callback id)).
    + destruct (settle_effect (derived (job_reaction j))
                  (Rejected (mkError "Error" "external call failed"))
                  (set_trace (fun t => t ++ [ContinuationRun id (job_outcome j)]) w))
        as (w' & E & K & J & F).
      rewrite E. exists w'. split; [reflexivity|]. split; [exact K|]. split; [exact J|exact F].
    + destruct (settle_effect (derived (job_reaction j)) (Fulfilled None)
                  (set_trace (fun t => t ++ [ContinuationRun id (job_outcome j)]) w))
        as (w' & E & K & J & F).
      rewrite E. exists w'. split; [reflexivity|]. split; [exact K|]. split; [exact J|exact F].
  - apply settle_effect.
Qed.

Lemma runMicrotask_empty w : jobs w = [] -> runMicrotask w = (Returns false, w).
Proof. intros H. unfold runMicrotask. run. now rewrite H. Qed.

Lemma runMicrotask_step j rest w :
  jobs w = j :: rest ->
  exists w',
    runMicrotask w = (Returns true, w')
    /\ runJob j (set_jobs (fun _ => rest) w) = (Returns tt, w')
    /\ keepsSettled w w'
    /\ (exists new, jobs w' = rest ++ new)
    /\ (syncInProgress w = false -> syncInProgress w' = false).
Proof.
  intros H. unfold runMicrotask. run. rewrite H.
  destruct (runJob_effect j (set_jobs (fun _ => rest) w)) as (w' & E & K & J & F).
  rewrite E. exists w'. repeat split; assumption.
Qed.

Lemma drain_effect n w :
  exists w',
    drain n w = (Returns tt, w')
    /\ keepsSettled w w'
    /\ (syncInProgress w = false -> syncInProgress w' = false).
Proof.
  revert w. induction n as [|n IH]; intros w; simpl.
  - exists w. split; [reflexivity|]. split; [intros q o H; exact H | auto].
  - unfold bind. destruct (jobs w) as [|j rest] eqn:E.
    + rewrite (runMicrotask_empty _ E). exists w.
      split; [reflexivity|]. split; [intros q o H; exact H | auto].
    + destruct (runMicrotask_step _ _ _ E) as (w1 & E1 & _ & K1 & _ & F1).
      rewrite E1. destruct (IH w1) as (w2 & E2 & K2 & F2).
      exists w2. split; [exact E2|]. split; [intros q o H; auto | auto].
Qed.

Lemma runMicrotask_false w w1 :
  runMicrotask w = (Returns false, w1) -> jobs w = [] /\ w1 = w.
Proof.
  unfold runMicrotask. run. destruct (jobs w) as [|j rest] eqn:Ej.
  - intros [= <-]. auto.
  - destruct (runJob j _) as [[[]|?] ?]; discriminate.
Qed.

Lemma drain_empty m w : jobs w = [] -> drain m w = (Returns tt, w).
Proof.
  intros H. destruct m; simpl; [reflexivity|].
  unfold bind. now rewrite (runMicrotask_empty _ H).
Qed.

Lemma drain_add n m w : drain (n + m) w = (drain n ;; drain m) w.
Proof.
  revert w. induction n as [|n IH]; intros w; simpl.
  - reflexivity.
  - unfold bind. destruct (runMicrotask w) as [[[|]|e] w1] eqn:E.
    + rewrite IH. reflexivity.
    + apply runMicrotask_false in E. destruct E as [Ej ->].
      simpl. now rewrite drain_empty.
    + reflexivity.
Qed.

(** The jobs queued ahead of a job run first and leave it in place. *)
Lemma drain_reaches ahead j behind w :
  jobs w = ahead ++ j :: behind ->
  exists w' behind',
    drain (length ahead) w = (Returns tt, w')
    /\ jobs w' = j :: behind'
    /\ keepsSettled w w'.
Proof.
  revert w behind. induction ahead as [|a ahead IH]; intros w behind H; simpl.
  - exists w, behind. split; [reflexivity|]. split; [exact H|]. intros q o K; exact K.
  - destruct (runMicrotask_step a (ahead ++ j :: behind) w H)
      as (w1 & E1 & _ & K1 & [new J1] & _).
    unfold bind. rewrite E1.
    rewrite <- app_assoc in J1. simpl in J1.
    destruct (IH w1 (behind ++ new) J1) as (w2 & behind' & E2 & J2 & K2).
    exists w2, behind'. split; [exact E2|]. split; [exact J2|].
    intros q o K. auto.
Qed.

Lemma then_inFlight p continuations onF onR w :
  inFlight p continuations w ->
  exists d w',
    then_ p onF onR w = (Returns d, w')
    /\ inFlight p (continuations ++ [mkReaction onF onR d]) w'
    /\ jobs w' = jobs w /\ syncInProgress w' = syncInProgress w.
Proof.
  intros (before & after & -> & Hp).
  destruct w as [h c t s ps js ls tr e]. simpl in *. subst ps.
  unfold_sync. norm.
  eexists. eexists. split; [reflexivity|]. split; [|split; reflexivity].
  eexists before, (after ++ [Pending []]). split; [reflexivity|].
  reflexivity.
Qed.

(** The first job after the run finishes. *)
Lemma finish_first_job p continuations outcome w :
  inFlight p continuations w -> jobs w = [] ->
  exists w1,
    (finishRun p outcome ;; runMicrotask) w = (Returns true, w1)
    /\ promises w1 !! p = Some (Settled outcome)
    /\ match outcome with
       | Fulfilled _ => syncInProgress w1 = false
       | Rejected _ =>
           jobs w1 = map (fun r => mkJob r outcome) continuations
                     ++ [mkJob (catchReaction p) outcome]
       end.
Proof.
  intros (before & after & -> & Hp) Hj.
  destruct w as [h c t s ps js ls tr e]. simpl in *. subst ps js.
  unfold thenReaction, catchReaction.
  destruct outcome as [v|err]; repeat (unfold_sync; norm);
    (eexists; split; [reflexivity|]); norm; split; reflexivity.
Qed.

Lemma catch_job_clears_flag p e behind w :
  jobs w = mkJob (catchReaction p) (Rejected e) :: behind ->
  exists w',
    runMicrotask w = (Returns true, w')
    /\ syncInProgress w' = false /\ keepsSettled w w'.
Proof.
  intros H.
  destruct (runMicrotask_step _ _ _ H) as (w' & E & Ejob & K & _ & _).
  exists w'. split; [exact E|]. split; [|exact K].
  unfold runJob in Ejob. simpl in Ejob. unfold runHandler, setSyncCompleted in Ejob.
  revert Ejob. run.
  destruct (settle_effect (p + 2) (Fulfilled None)
              (set_syncInProgress false (set_jobs (fun _ => behind) w)))
    as (w2 & E2 & _ & _ & F).
  rewrite E2. intros [= <-]. now apply F.
Qed.

(** Once the run behind [p] has finished and the jobs its settlement
    queued have run, the flag is clear, whatever the continuations
    attached to [p] do. *)
Lemma finishRun_clears_flag p continuations outcome w n :
  inFlight p continuations w -> jobs w = [] ->
  (length continuations + 2 <= n)%nat ->
  exists w',
    (finishRun p outcome ;; drain n) w = (Returns tt, w')
    /\ promises w' !! p = Some (Settled outcome)
    /\ syncInProgress w' = false.
Proof.
  intros Hin Hj Hn.
  destruct (finish_first_job p continuations outcome w Hin Hj) as (w1 & E1 & Hp & H1).
  replace n with (S (n - 1)) by lia.
  assert (Efirst : forall k,
            (finishRun p outcome ;; drain (S k)) w = drain k w1).
  { intros k. simpl. revert E1. unfold bind.
    destruct (finishRun p outcome w) as [[[]|?] w0]; [|discriminate].
    intros ->. reflexivity. }
  rewrite Efirst.
  destruct outcome as [v|e].
  - destruct (drain_effect (n - 1) w1) as (w' & E & K & F).
    exists w'. split; [exact E|]. split; [now apply K | now apply F].
  - replace (n - 1)%nat
      with (length (map (fun r => mkJob r (Rejected e)) continuations)
            + S (n - 2 - length continuations))%nat
      by (rewrite length_map; lia).
    rewrite drain_add. unfold bind.
    destruct (drain_reaches _ _ [] w1 H1) as (w2 & behind & E2 & J2 & K2).
    rewrite E2.
    destruct (catch_job_clears_flag p e behind w2 J2) as (w3 & E3 & F3 & K3).
    simpl. unfold bind. rewrite E3.
    destruct (drain_effect (n - 2 - length continuations) w3) as (w' & E & K & F).
    exists w'. split; [exact E|]. split; [|now apply F].
    apply K, K3, K2. exact Hp.
Qed.

(** ** The claims on [shouldUpdateBeIgnored] *)

(** C9. [shouldUpdateBeIgnored] returns [false] when the candidate is
    absent or not flagged [failedInstall], or when [ignoreFailedUpdates]
    is false; it returns [true] for a candidate flagged [failedInstall]
    with [ignoreFailedUpdates] true and no retry policy configured
    ([null], [undefined] or any other falsy value), in every world:
    whatever the clock and the persisted rollback info are. *)
Theorem shouldUpdateBeIgnored_without_policy
    (remotePackage : option RemotePackage) (syncOptions : SyncOptions) (w : World) :
  ((remotePackage = None
    \/ (exists p, remotePackage = Some p /\ remote_failedInstall p = false)
    \/ truthy_prim (sync_ignoreFailedUpdates syncOptions) = false) ->
   shouldUpdateBeIgnored remotePackage syncOptions w = (Returns false, w))
  /\ ((exists p, remotePackage = Some p /\ remote_failedInstall p = true) ->
      truthy_prim (sync_ignoreFailedUpdates syncOptions) = true ->
      truthy (sync_rollbackRetryOptions syncOptions) = false ->
      shouldUpdateBeIgnored remotePackage syncOptions w = (Returns true, w)).
Proof.
  unfold shouldUpdateBeIgnored. split.
  - intros [ -> | [ (p & -> & ->) | -> ] ]; simpl; try reflexivity.
    now rewrite orb_true_r.
  - intros (p & -> & ->) -> ->. reflexivity.
Qed.

Lemma shouldUpdateBeIgnored_without_policy_witness :
  let failed := Some (mkRemotePackage (sampleUpdate undefined (str "hash-2")) true) in
  let w := freshWorld (sampleEnv (sampleConfiguration (str "key")) None None None 0) in
  shouldUpdateBeIgnored None (sampleSyncOptions (Prim null)) w = (Returns false, w)
  /\ shouldUpdateBeIgnored failed (sampleSyncOptions (Prim null)) w = (Returns true, w).
Proof.
  intros failed w. split.
  - apply (proj1 (shouldUpdateBeIgnored_without_policy None _ w)).
    left. reflexivity.
  - apply (proj2 (shouldUpdateBeIgnored_without_policy failed _ w)).
    + eexists. split; reflexivity.
    + reflexivity.
    + reflexivity.
Defined.

(** C4. For a candidate flagged [failedInstall] with
    [ignoreFailedUpdates] true and a configured retry policy that,
    spread over the defaults, has a [delayInHours] that is not a number,
    or a [maxRetryAttempts] that is not a number or is below 1,
    [shouldUpdateBeIgnored] returns [true] and logs one warning; such
    is every policy object with a [delayInHours] or [maxRetryAttempts]
    field that is present and not a number, or a [maxRetryAttempts]
    field below 1. *)
Theorem shouldUpdateBeIgnored_invalid_policy
    (p : RemotePackage) (syncOptions : SyncOptions) (w : World) :
  remote_failedInstall p = true ->
  truthy_prim (sync_ignoreFailedUpdates syncOptions) = true ->
  (truthy (sync_rollbackRetryOptions syncOptions) = true
   /\ invalidPolicy (withDefaultRetryOptions (sync_rollbackRetryOptions syncOptions)))
  \/ (exists props, sync_rollbackRetryOptions syncOptions = Object props
        /\ invalidField props) ->
  exists warning,
    shouldUpdateBeIgnored (Some p) syncOptions w
    = (Returns true, set_trace (fun t => t ++ [Log warning]) w).
Proof.
  intros Hf Hi Hpolicy.
  assert (H : truthy (sync_rollbackRetryOptions syncOptions) = true
              /\ invalidPolicy
                   (withDefaultRetryOptions (sync_rollbackRetryOptions syncOptions))).
  { destruct Hpolicy as [H|(props & -> & H)]; [assumption|].
    split; [reflexivity|]. now apply invalidField_invalidPolicy. }
  destruct H as [Ht Hinv].
  unfold shouldUpdateBeIgnored. rewrite Hf, Hi, Ht. simpl.
  destruct (validate_invalid _ w Hinv) as (warning & E).
  exists warning. unfold bind. rewrite E. reflexivity.
Qed.

Lemma shouldUpdateBeIgnored_invalid_policy_witness :
  let p := mkRemotePackage (sampleUpdate undefined (str "hash-2")) true in
  let policy := Object {[ "delayInHours" := Prim (str "24") ]} in
  let w := freshWorld (sampleEnv (sampleConfiguration (str "key")) None None None 0) in
  exists warning,
    shouldUpdateBeIgnored (Some p) (sampleSyncOptions policy) w
    = (Returns true, set_trace (fun t => t ++ [Log warning]) w).
Proof.
  intros p policy w.
  apply (shouldUpdateBeIgnored_invalid_policy p (sampleSyncOptions policy) w).
  - reflexivity.
  - reflexivity.
  - right. eexists. split; [reflexivity|].
    left. exists (Prim (str "24")). split; [reflexivity|].
    intros [n E]. discriminate E.
Defined.



(** ** The claim on [checkForUpdate] *)



(** ** The claims on [tryReportStatus] *)

(** C6, as the code has it.  When a binary-update report is processed
    and the configuration has no deployment key, the error thrown is
    caught inside [tryReportStatus]: the call completes normally, the
    failure is logged, the report is saved for retry and, when no
    resume listener was passed in, one is registered; nothing is sent
    to the server and the report is not recorded as reported. *)
Theorem tryReportStatus_missing_deployment_key
    (statusReport : StatusReport) (retryOnAppResume : option nat)
    (w w0 : World) (l : nat) (c : Configuration) :
  truthy_prim (report_appVersion statusReport) = true ->
  getConfiguration w = (Returns l, w0) ->
  heap w0 !! l = Some c ->
  truthy_prim (config_deploymentKey c) = false ->
  tryReportStatus statusReport retryOnAppResume w
  = (Returns tt,
     registerIfAbsent retryOnAppResume
       (set_trace (fun t =>
          t ++ [LogValue "Reporting binary update" (report_appVersion statusReport);
                LogReportStatusFailed statusReport;
                NativeSaveStatusReportForRetry statusReport]) w0)).
Proof.
  intros Hbin Hget Hheap Hkey.
  unfold tryReportStatus. unfold bind at 1. rewrite Hget.
  unfold bind at 1. unfold deref at 1. rewrite Hheap.
  rewrite Hbin. run. unfold deref. simpl. rewrite Hheap, Hkey. simpl.
  destruct retryOnAppResume; simpl.
  - f_equal. destruct w0; unfold set_trace; simpl. now rewrite <- !app_assoc.
  - f_equal. destruct w0; unfold set_trace, set_listeners; simpl.
    now rewrite <- !app_assoc.
Qed.

Lemma tryReportStatus_missing_deployment_key_witness :
  let w := freshWorld (sampleEnv (sampleConfiguration undefined) None None
                         (Some binaryReport) 0) in
  let w0 := snd (getConfiguration w) in
  tryReportStatus binaryReport None w
  = (Returns tt,
     registerIfAbsent None
       (set_trace (fun t =>
          t ++ [LogValue "Reporting binary update" (str "1.0.0");
                LogReportStatusFailed binaryReport;
                NativeSaveStatusReportForRetry binaryReport]) w0)).
Proof.
  intros w w0.
  apply (tryReportStatus_missing_deployment_key binaryReport None w w0 0%nat
           (sampleConfiguration undefined));
    reflexivity.
Defined.

(** C6, as the specification has it, fails: a binary-update report
    with no deployment key configured does not fail the operation, it
    is saved for retry and a resume listener is registered; at the next
    change to [active] the report the native side hands back is tried
    again. *)
Lemma tryReportStatus_missing_key_is_retried :
  let w := freshWorld (sampleEnv (sampleConfiguration undefined) None None
                         (Some binaryReport) 0) in
  let result := tryReportStatus binaryReport None w in
  fst result = Returns tt
  /\ In (NativeSaveStatusReportForRetry binaryReport) (trace (snd result))
  /\ listeners (snd result) = [true]
  /\ ~ ((exists e, fst result = Throws e)
        /\ ~ In (NativeSaveStatusReportForRetry binaryReport) (trace (snd result))
        /\ listeners (snd result) = listeners w)
  /\ trace (snd (appStateChange "active" (snd result)))
     = [LogValue "Reporting binary update" (str "1.0.0");
        LogReportStatusFailed binaryReport;
        NativeSaveStatusReportForRetry binaryReport;
        ListenerAdded 0;
        LogValue "Reporting binary update" (str "1.0.0");
        LogReportStatusFailed binaryReport;
        NativeSaveStatusReportForRetry binaryReport].
Proof.
  intros w result.
  split; [reflexivity|]. split; [vm_compute; tauto|]. split; [reflexivity|].
  split; [|reflexivity].
  intros [[e He] _]. discriminate He.
Qed.



(** ** The claim on [sync] *)



(** The order of the jobs when a run rejects: a continuation the caller
    attached to the promise [sync] returned runs before the job that
    clears the flag, so a [sync] called from that continuation is
    answered [SYNC_IN_PROGRESS]; the flag is cleared by the next job. *)
Remark rejection_reaches_caller_before_flag_is_cleared :
  let w := freshWorld (sampleEnv (sampleConfiguration (str "key")) None None None 0) in
  let options := sampleSyncOptions (Prim null) in
  let none := Prim undefined in
  let failure := Rejected (mkError "Error" "network") in
  let seen :=
    snd ((p <- sync options none none none ;;
          _ <- catch_ p (Continuation 7) ;;
          finishRun p failure ;;
          runMicrotask ;; runMicrotask) w) in
  In (ContinuationRun 7 failure) (trace seen)
  /\ syncInProgress seen = true
  /\ syncInProgress (snd (runMicrotask seen)) = false.
Proof.
  vm_compute. repeat split. tauto.
Qed.

(** * Further properties

    Properties of the embedded functions beyond the ones above: of the
    release resolver, of the update check, of status reports and their
    retry, of the rollback retry policy, and of the run of a sync. *)

(** ** Further properties of the release resolver *)














(** *** What an update check leaves alone *)

Lemma onlyEmits_refl allowed w : onlyEmits allowed w w.
Proof.
  split; [|tauto]. exists []. split; [now rewrite app_nil_r | reflexivity].
Qed.

Lemma onlyEmits_trans allowed w1 w2 w3 :
  onlyEmits allowed w1 w2 -> onlyEmits allowed w2 w3 -> onlyEmits allowed w1 w3.
Proof.
  intros [(ev1 & T1 & A1) (S1 & P1 & J1 & L1 & C1)]
         [(ev2 & T2 & A2) (S2 & P2 & J2 & L2 & C2)].
  split; [|repeat split; congruence].
  exists (ev1 ++ ev2). split.
  - rewrite T2, T1. now rewrite app_assoc.
  - rewrite forallb_app, A1, A2. reflexivity.
Qed.

Lemma quiet_here allowed {A} (m : M A) :
  (forall w, snd (m w) = w) -> quiet allowed m.
Proof.
  intros H w. rewrite H. split; [apply onlyEmits_refl | now intros l].
Qed.

Lemma quiet_ret allowed {A} (a : A) : quiet allowed (ret a).
Proof. now apply quiet_here. Qed.

Lemma quiet_read allowed {A} (f : World -> A) : quiet allowed (read f).
Proof. now apply quiet_here. Qed.

Lemma quiet_lift allowed {A} (c : completion A) : quiet allowed (lift c).
Proof. now apply quiet_here. Qed.

Lemma quiet_throw allowed {A} (e : Error) : quiet allowed (@throw A e).
Proof. now apply quiet_here. Qed.

Lemma quiet_external allowed {A} call (a : A) : quiet allowed (external call a).
Proof.
  apply quiet_here. intros w. unfold external. now destruct (fails _ _).
Qed.

Lemma quiet_deref allowed l : quiet allowed (deref l).
Proof.
  apply quiet_here. intros w. unfold deref. now destruct (heap w !! l).
Qed.

Lemma quiet_bind allowed {A B} (m : M A) (k : A -> M B) :
  quiet allowed m -> (forall a, quiet allowed (k a)) -> quiet allowed (bind m k).
Proof.
  intros Hm Hk w. unfold bind. specialize (Hm w).
  destruct (m w) as [[a|e] w']; simpl in *; [|assumption].
  destruct Hm as [E1 K1]. destruct (Hk a w') as [E2 K2]. split.
  - eapply onlyEmits_trans; eassumption.
  - intros l Hl. auto.
Qed.

Lemma quiet_emit (allowed : Event -> bool) e :
  allowed e = true -> quiet allowed (emit e).
Proof.
  intros H w. split; [|now intros l]. split; [|simpl; tauto].
  exists [e]. simpl. now rewrite H.
Qed.

Lemma quiet_alloc allowed c : quiet allowed (alloc c).
Proof.
  intros w. split; [|now intros l]. split; [|simpl; tauto].
  exists []. simpl. now rewrite app_nil_r.
Qed.

Lemma quiet_getConfiguration allowed : quiet allowed getConfiguration.
Proof.
  intros w. unfold getConfiguration. run.
  destruct (configCache w) eqn:Ec; simpl.
  - split; [apply onlyEmits_refl | now intros l].
  - destruct (testConfig w); simpl.
    + split; [apply onlyEmits_refl | now intros l].
    + destruct (fails (env w) GetConfiguration); simpl.
      * split; [apply onlyEmits_refl | now intros l].
      * split; [|intros l; congruence]. split; [|simpl; tauto].
        exists []. simpl. now rewrite app_nil_r.
Qed.

Create HintDb quiet.
#[global] Hint Resolve quiet_ret quiet_read quiet_lift quiet_throw
  quiet_external quiet_deref quiet_alloc quiet_getConfiguration : quiet.

Ltac quiet_step :=
  match goal with
  | |- quiet _ (bind _ _) => apply quiet_bind; [|intros ?]
  | |- quiet _ (emit _) => apply quiet_emit; reflexivity
  | |- quiet _ (log _) => apply quiet_emit; reflexivity
  | |- quiet _ (match ?x with _ => _ end) => destruct x
  | |- quiet _ (if ?x then _ else _) => destruct x
  | |- quiet _ (let _ := _ in _) => cbv zeta
  | |- quiet _ _ => solve [auto with quiet]
  end.

Lemma quiet_getUpdateMetadata allowed s : quiet allowed (getUpdateMetadata s).
Proof. unfold getUpdateMetadata. repeat quiet_step. Qed.

Lemma quiet_checkForUpdate key cb : quiet queryEvent (checkForUpdate key cb).
Proof.
  unfold checkForUpdate, resolveUpdate, getCurrentPackage, getPromisifiedSdk,
    customUpdateCheck, sdk_queryUpdateWithCurrentPackage.
  repeat quiet_step; apply quiet_getUpdateMetadata.
Qed.

Lemma quiet_validate o : quiet logEvent (validateRollbackRetryOptions o).
Proof. unfold validateRollbackRetryOptions. repeat quiet_step. Qed.

Lemma quiet_shouldUpdateBeIgnored p o : quiet logEvent (shouldUpdateBeIgnored p o).
Proof.
  unfold shouldUpdateBeIgnored. cbv zeta.
  repeat first [ apply quiet_validate | quiet_step ].
Qed.

(** X5. An update check only asks and logs: whatever it returns or
    throws, [checkForUpdate] appends to the trace nothing but the query
    to a backend, a log line and the mismatch callback, so it reports
    no status, writes no rollback info and registers no listener; it
    leaves the [syncInProgress] flag, the promises and the job queue as
    they are, keeps a cached configuration cached, never writes to an
    existing configuration object, and leaves the environment alone. *)
Theorem checkForUpdate_only_queries
    (deploymentKey : prim) (handleBinaryVersionMismatchCallback : value)
    (w : World) :
  let w' := snd (checkForUpdate deploymentKey handleBinaryVersionMismatchCallback w) in
  onlyEmits queryEvent w w' /\ keepsCache w w' /\ grows w w'.
Proof.
  intros w'.
  destruct (quiet_checkForUpdate deploymentKey handleBinaryVersionMismatchCallback w)
    as [H1 H2].
  split; [assumption|]. split; [assumption|].
  unfold w'.
  assert (S : stable (checkForUpdate deploymentKey handleBinaryVersionMismatchCallback)).
  { unfold checkForUpdate. apply stable_bind; [apply stable_resolveUpdate|].
    intros r. repeat stable_step. }
  apply S.
Qed.

(** X6. [shouldUpdateBeIgnored] decides and logs: besides the lines it
    logs it changes nothing of the module, the heap and the cache
    included, and the same holds of [getUpdateMetadata], which does not
    even log. *)
Theorem shouldUpdateBeIgnored_only_logs
    (remotePackage : option RemotePackage) (syncOptions : SyncOptions)
    (updateState : option UpdateState) (w : World) :
  (let w' := snd (shouldUpdateBeIgnored remotePackage syncOptions w) in
   onlyEmits logEvent w w' /\ heap w' = heap w /\ configCache w' = configCache w
   /\ env w' = env w)
  /\ snd (getUpdateMetadata updateState w) = w.
Proof.
  split.
  - intros w'. split; [apply quiet_shouldUpdateBeIgnored|]. unfold w'.
    unfold shouldUpdateBeIgnored, validateRollbackRetryOptions. cbv zeta.
    repeat match goal with
           | |- context [if ?c then _ else _] => destruct c; run
           end; auto.
  - unfold getUpdateMetadata. run.
    repeat match goal with
           | |- context [if ?c then _ else _] => destruct c; run
           | |- context [match ?c with Some _ => _ | None => _ end] => destruct c; run
           end; auto.
Qed.

(** *** [getConfiguration] *)



(** *** The query of [checkForUpdate] *)

Lemma silent_trace {A} (m : M A) w :
  quiet (fun _ => false) m -> trace (snd (m w)) = trace w.
Proof.
  intros H. destruct (H w) as [[(events & T & Hall) _] _].
  destruct events as [|e events]; [|discriminate].
  now rewrite app_nil_r in T.
Qed.

Lemma silent_returns {A} (m : M A) w a w' :
  quiet (fun _ => false) m -> stable m -> m w = (Returns a, w') ->
  trace w' = trace w /\ env w' = env w.
Proof.
  intros Q S E. split.
  - pose proof (silent_trace m w Q) as T. now rewrite E in T.
  - pose proof (S w) as [G _]. now rewrite E in G.
Qed.

Lemma getUpdateMetadata_returns s w lp w' :
  getUpdateMetadata s w = (Returns lp, w') ->
  w' = w
  /\ lp = match nativeUpdateMetadata (env w) (default RUNNING s) with
          | Some m =>
              Some (mkLocalPackage m (isFailedUpdate (env w) (meta_packageHash m))
                      (isFirstRun (env w) (meta_packageHash m)))
          | None => None
          end.
Proof.
  unfold getUpdateMetadata. run.
  destruct (fails (env w) GetUpdateMetadata); [discriminate|].
  destruct (nativeUpdateMetadata (env w) (default RUNNING s)); run.
  - destruct (fails (env w) IsFailedUpdate); [discriminate|].
    destruct (fails (env w) IsFirstRun); [discriminate|].
    intros [= <- <-]. auto.
  - intros [= <- <-]. auto.
Qed.

(** What [checkForUpdate] has done when it reaches the [bundleHost]
    rewrite: the local package is the latest the native side has, one
    backend was asked with a query that carries the hash of the local
    package or, without one, the hash of the binary on iOS only, and
    the update is the answer with its URL moved to [bundleHost]. *)
Lemma resolveUpdate_inversion key w r w1 :
  resolveUpdate key w = (Returns r, w1) ->
  exists q wm answer,
    trace wm = trace w /\ env wm = env w
    /\ res_localPackage r
       = match nativeUpdateMetadata (env w) LATEST with
         | Some m =>
             Some (mkLocalPackage m (isFailedUpdate (env w) (meta_packageHash m))
                     (isFirstRun (env w) (meta_packageHash m)))
         | None => None
         end
    /\ query_packageHash q
       = match res_localPackage r with
         | Some lp => meta_packageHash (local_metadata lp)
         | None =>
             if String.eqb (platformOS (env w)) "ios"
                && truthy_prim (config_packageHash (res_config r))
             then config_packageHash (res_config r) else undefined
         end
    /\ match updateChecker (env w) with
       | Some f => customUpdateCheck f (res_config r) q wm
       | None => sdk_queryUpdateWithCurrentPackage (mkSdk (res_config r)) q wm
       end = (Returns answer, w1)
    /\ res_update r
       = match bundleHost (env w), answer with
         | Some h, Some u =>
             match update_downloadUrl u with
             | str url =>
                 if negb (String.eqb h "") && negb (String.eqb (last_segment "" url) "")
                 then Some (with_downloadUrl u (str (h ++ last_segment "" url)%string))
                 else answer
             | _ => answer
             end
         | _, _ => answer
         end.
Proof.
  intros H. unfold resolveUpdate in H.
  apply bind_returns in H. destruct H as (l & wa & Hget & H).
  apply bind_returns in H. destruct H as (config & wb & Hconfig & H).
  apply bind_returns in H. destruct H as (sdk & wc & Hsdk & H).
  apply bind_returns in H. destruct H as (lp & w2 & H2 & H).
  apply bind_returns in H. destruct H as (cfg & w3 & H3 & H).
  apply bind_returns in H. destruct H as (os & w4 & H4 & H).
  apply bind_returns in H. destruct H as (checker & w5 & H5 & H).
  apply bind_returns in H. destruct H as (update & w6 & H6 & H).
  apply bind_returns in H. destruct H as (host & w7 & H7 & H).
  unfold ret in H. injection H as <- <-. simpl.
  destruct (silent_returns _ _ _ _ (quiet_getConfiguration _)
              stable_getConfiguration Hget) as [Ta Ea].
  assert (Hb : trace wb = trace wa /\ env wb = env wa).
  { eapply silent_returns; [| |exact Hconfig];
      destruct (truthy_prim key); [repeat quiet_step | auto with quiet
                                  | repeat stable_step | auto with stable]. }
  destruct Hb as [Tb Eb].
  unfold getPromisifiedSdk in Hsdk.
  apply bind_returns in Hsdk. destruct Hsdk as (c' & wd & Hc' & Hsdk).
  unfold ret in Hsdk. injection Hsdk as <- <-.
  apply deref_returns in Hc'. destruct Hc' as [-> Hc'].
  unfold getCurrentPackage in H2.
  apply getUpdateMetadata_returns in H2. destruct H2 as [-> Hlp].
  apply deref_returns in H3. destruct H3 as [-> H3].
  unfold read in H4, H5, H7.
  injection H4 as <- <-. injection H5 as <- <-. injection H7 as <- <-.
  assert (cfg = c') by congruence. subst cfg.
  assert (E6 : env w6 = env wb).
  { assert (G : grows wb w6).
    { destruct (updateChecker (env wb)); (eapply stable_returns; [|exact H6]);
        auto with stable. }
    apply G. }
  match type of H6 with
  | match _ with Some f => _ f _ ?q | None => _ end _ = _ =>
      exists q, wb, update
  end.
  split; [congruence|]. split; [congruence|].
  split; [rewrite Hlp; simpl; rewrite Eb, Ea; reflexivity|].
  split.
  { destruct lp; [reflexivity|]. simpl. rewrite Eb, Ea. reflexivity. }
  split.
  { rewrite <- Ea, <- Eb. destruct (updateChecker (env wb)); exact H6. }
  rewrite E6, Eb, Ea.
  destruct (bundleHost (env w)) as [h|]; destruct update as [u|]; try reflexivity.
  destruct (update_downloadUrl u); reflexivity.
Qed.

Lemma customUpdateCheck_returns checker c q w answer w' :
  customUpdateCheck checker c q w = (Returns answer, w') ->
  exists request,
    w' = set_trace (fun t => t ++ [UpdateCheckerCalled request]) w
    /\ package_hash request = query_packageHash q.
Proof.
  unfold customUpdateCheck. cbv zeta. run.
  match goal with |- context [checker ?r] => set (request := r) end.
  intros H. exists request. split; [|reflexivity].
  destruct (checker request) as [response|e]; [|discriminate].
  destruct (update_info response) as [i|]; simpl in H.
  - destruct (truthy_prim (info_update_app_version i)); simpl in H;
      [now injection H as _ <-|].
    destruct (truthy_prim (info_is_available i)); simpl in H;
      now injection H as _ <-.
  - now injection H as _ <-.
Qed.

Lemma sdk_query_returns sdk q w answer w' :
  sdk_queryUpdateWithCurrentPackage sdk q w = (Returns answer, w') ->
  w' = set_trace (fun t => t ++ [SdkQueryUpdate (sdk_configuration sdk) q]) w
  /\ queryUpdateWithCurrentPackage (env w) (sdk_configuration sdk) q = Returns answer.
Proof.
  unfold sdk_queryUpdateWithCurrentPackage. run.
  destruct (queryUpdateWithCurrentPackage _ _ _); [|discriminate].
  intros [= <- <-]. auto.
Qed.

Lemma quiet_after_resolution key cb r :
  quiet (fun e => negb (backendQuery e))
    (let localPackage := res_localPackage r in
     let config := res_config r in
     match res_update r with
     | None => ret None
     | Some update =>
         if truthy_prim (update_updateAppVersion update)
            || match localPackage with
               | Some lp =>
                   strict_eq (update_packageHash update)
                     (meta_packageHash (local_metadata lp))
               | None => false
               end
            || (match localPackage with
                | Some lp => truthy_prim (meta_isDebugOnly (local_metadata lp))
                | None => true
                end
                && strict_eq (config_packageHash config) (update_packageHash update))
         then
           (if truthy_prim (update_updateAppVersion update) then
              log "An update is available but it is not targeting the binary version of your app." ;;
              match cb with
              | Function id =>
                  emit (MismatchCallbackCalled id update) ;;
                  external (Callback id) tt
              | _ => ret tt
              end
            else ret tt) ;;
           ret None
         else
           failed <- read (fun w => isFailedUpdate (env w) (update_packageHash update)) ;;
           failedInstall <- external IsFailedUpdate failed ;;
           nativeConfig <- deref (res_nativeConfig r) ;;
           ret (Some
             {| remote_update :=
                  with_update_deploymentKey update
                    (or_prim key (config_deploymentKey nativeConfig));
                remote_failedInstall := failedInstall |})
     end).
Proof. cbv zeta. repeat quiet_step. Qed.

(** The one query of a check that returns, and the hash it carries. *)
Lemma checkForUpdate_query key cb w result w' :
  checkForUpdate key cb w = (Returns result, w') ->
  exists r query rest,
    trace w' = trace w ++ query :: rest
    /\ forallb (fun e => negb (backendQuery e)) rest = true
    /\ match updateChecker (env w) with
       | Some _ => exists request, query = UpdateCheckerCalled request
       | None => exists c q, query = SdkQueryUpdate c q
       end
    /\ res_localPackage r
       = match nativeUpdateMetadata (env w) LATEST with
         | Some m =>
             Some (mkLocalPackage m (isFailedUpdate (env w) (meta_packageHash m))
                     (isFirstRun (env w) (meta_packageHash m)))
         | None => None
         end
    /\ queriedHash query
       = Some match res_localPackage r with
              | Some lp => meta_packageHash (local_metadata lp)
              | None =>
                  if String.eqb (platformOS (env w)) "ios"
                     && truthy_prim (config_packageHash (res_config r))
                  then config_packageHash (res_config r) else undefined
              end.
Proof.
  intros H. unfold checkForUpdate in H.
  apply bind_returns in H. destruct H as (r & w1 & Hres & H).
  pose proof (quiet_after_resolution key cb r w1) as [[(rest & T & Hrest) _] _].
  cbv zeta in T. rewrite H in T. simpl in T.
  apply resolveUpdate_inversion in Hres.
  destruct Hres as (q & wm & answer & Tm & Em & Hlp & Hq & Hback & _).
  exists r.
  destruct (updateChecker (env w)) as [checker|].
  - apply customUpdateCheck_returns in Hback.
    destruct Hback as (request & -> & Hreq).
    exists (UpdateCheckerCalled request), rest. simpl in T.
    rewrite T, Tm, <- app_assoc. simpl.
    split; [reflexivity|]. split; [assumption|]. split; [eauto|].
    split; [assumption|]. simpl. now rewrite Hreq, Hq.
  - apply sdk_query_returns in Hback. destruct Hback as [-> _].
    eexists _, rest. simpl in T. rewrite T, Tm, <- app_assoc. simpl.
    split; [reflexivity|]. split; [assumption|]. split; [eauto|].
    split; [assumption|]. simpl. now rewrite Hq.
Qed.

(** X8. A check that returns has asked exactly one backend, once: the
    custom update checker when [sharedCodePushOptions.updateChecker] is
    set, and then the SDK is not asked at all; the SDK otherwise. *)
Theorem checkForUpdate_asks_one_backend
    (deploymentKey : prim) (handleBinaryVersionMismatchCallback : value)
    (w w' : World) (result : option RemotePackage) :
  checkForUpdate deploymentKey handleBinaryVersionMismatchCallback w
  = (Returns result, w') ->
  exists query rest,
    trace w' = trace w ++ query :: rest
    /\ forallb (fun e => negb (backendQuery e)) rest = true
    /\ match updateChecker (env w) with
       | Some _ => exists request, query = UpdateCheckerCalled request
       | None => exists configuration q, query = SdkQueryUpdate configuration q
       end.
Proof.
  intros H. apply checkForUpdate_query in H.
  destruct H as (r & query & rest & T & Hrest & Hq & _).
  exists query, rest. auto.
Qed.

Lemma checkForUpdate_asks_one_backend_witness :
  let w := freshWorld (sampleEnv (sampleConfiguration (str "key")) None
                         (Some (sampleUpdate (boolean true) (str "hash-2"))) None 0) in
  exists query rest,
    trace (snd (checkForUpdate null (Function 4) w)) = trace w ++ query :: rest
    /\ forallb (fun e => negb (backendQuery e)) rest = true
    /\ exists configuration q, query = SdkQueryUpdate configuration q.
Proof.
  intros w.
  apply (checkForUpdate_asks_one_backend null (Function 4) w _ None).
  reflexivity.
Defined.

(** X9. The hash in the query of a check: the hash of the latest local
    package when the native side has one; without a local package the
    query carries no hash on any platform but iOS. *)
Theorem checkForUpdate_query_hash
    (deploymentKey : prim) (handleBinaryVersionMismatchCallback : value)
    (w w' : World) (result : option RemotePackage) :
  checkForUpdate deploymentKey handleBinaryVersionMismatchCallback w
  = (Returns result, w') ->
  exists query rest,
    trace w' = trace w ++ query :: rest
    /\ (forall m, nativeUpdateMetadata (env w) LATEST = Some m ->
          queriedHash query = Some (meta_packageHash m))
    /\ (nativeUpdateMetadata (env w) LATEST = None ->
        platformOS (env w) <> "ios" ->
        queriedHash query = Some undefined).
Proof.
  intros H. apply checkForUpdate_query in H.
  destruct H as (r & query & rest & T & _ & _ & Hlp & Hq).
  exists query, rest. split; [assumption|]. split.
  - intros m Hm. rewrite Hm in Hlp. now rewrite Hq, Hlp.
  - intros Hm Hos. rewrite Hm in Hlp. rewrite Hq, Hlp.
    apply String.eqb_neq in Hos. now rewrite Hos.
Qed.

Lemma checkForUpdate_query_hash_witness :
  let w := freshWorld (sampleEnv (sampleConfiguration (str "key")) None
                         (Some (sampleUpdate undefined (str "hash-2"))) None 0) in
  exists query rest,
    trace (snd (checkForUpdate null (Prim undefined) w)) = trace w ++ query :: rest
    /\ queriedHash query = Some undefined.
Proof.
  intros w.
  destruct (checkForUpdate_query_hash null (Prim undefined) w _ _ eq_refl)
    as (query & rest & T & _ & H).
  exists query, rest. split; [exact T|]. apply H; [reflexivity | discriminate].
Defined.

(** *** The answer of the custom update checker *)

Lemma nullish_defined a b : defined b -> defined (nullish a b).
Proof.
  intros Hb. destruct a; simpl; try assumption; split; discriminate.
Qed.

(** X10. How [checkForUpdate] reads the answer of a custom update
    checker.  No [update_info], or an update that is not available,
    gives no update; a truthy [update_app_version] gives a binary
    mismatch for [target_binary_range], also when [is_available] is
    false; otherwise the update carries the deployment key of the
    configuration and none of its other seven fields is [undefined] or
    [null], whatever the answer left out.  A checker that rejects makes
    the check reject with the same error. *)
Theorem customUpdateCheck_reads_answer
    (checker : UpdateCheckRequest -> completion UpdateCheckResponse)
    (config : Configuration) (queryPackage : QueryPackage) (w : World) :
  let request :=
    mkUpdateCheckRequest (config_deploymentKey config)
      (query_appVersion queryPackage) (query_packageHash queryPackage)
      (config_ignoreAppVersion config) (query_label queryPackage)
      (config_clientUniqueId config) in
  let result := fst (customUpdateCheck checker config queryPackage w) in
  (forall e, checker request = Throws e -> result = Throws e)
  /\ (checker request = Returns (mkUpdateCheckResponse None) ->
      result = Returns None)
  /\ (forall i, checker request = Returns (mkUpdateCheckResponse (Some i)) ->
        (truthy_prim (info_update_app_version i) = true ->
         exists u, result = Returns (Some u)
           /\ update_updateAppVersion u = boolean true
           /\ update_appVersion u = info_target_binary_range i)
        /\ (truthy_prim (info_update_app_version i) = false ->
            truthy_prim (info_is_available i) = false ->
            result = Returns None)
        /\ (truthy_prim (info_update_app_version i) = false ->
            truthy_prim (info_is_available i) = true ->
            exists u, result = Returns (Some u)
              /\ truthy_prim (update_updateAppVersion u) = false
              /\ update_deploymentKey u = config_deploymentKey config
              /\ update_packageHash u = nullish (info_package_hash i) (str "")
              /\ defined (update_appVersion u) /\ defined (update_description u)
              /\ defined (update_label u) /\ defined (update_isMandatory u)
              /\ defined (update_packageHash u) /\ defined (update_packageSize u)
              /\ defined (update_downloadUrl u))).
Proof.
  intros request result. unfold result, customUpdateCheck. cbv zeta. run.
  fold request.
  split; [intros e ->; reflexivity|].
  split; [intros ->; reflexivity|].
  intros i ->. simpl. split; [|split].
  - intros ->. simpl. eexists. split; [reflexivity|]. split; reflexivity.
  - intros -> ->. reflexivity.
  - intros -> ->. simpl. eexists. split; [reflexivity|]. simpl.
    repeat split; try reflexivity; try discriminate;
      apply nullish_defined; split; discriminate.
Qed.

Lemma customUpdateCheck_reads_answer_witness :
  let checker : UpdateCheckRequest -> completion UpdateCheckResponse :=
    fun _ => Returns (mkUpdateCheckResponse (Some
      (mkUpdateInfo undefined (boolean true) null undefined undefined undefined
         (str "hash-2") undefined undefined))) in
  exists u,
    fst (customUpdateCheck checker (sampleConfiguration (str "key"))
           (mkQueryPackage (str "1.0.0") undefined undefined)
           (freshWorld (sampleEnv (sampleConfiguration (str "key")) None None None 0)))
    = Returns (Some u)
    /\ truthy_prim (update_updateAppVersion u) = false
    /\ update_deploymentKey u = str "key"
    /\ update_packageHash u = str "hash-2"
    /\ defined (update_appVersion u) /\ defined (update_description u)
    /\ defined (update_label u) /\ defined (update_isMandatory u)
    /\ defined (update_packageHash u) /\ defined (update_packageSize u)
    /\ defined (update_downloadUrl u).
Proof.
  intros checker.
  destruct (customUpdateCheck_reads_answer checker (sampleConfiguration (str "key"))
              (mkQueryPackage (str "1.0.0") undefined undefined)
              (freshWorld (sampleEnv (sampleConfiguration (str "key")) None None None 0)))
    as (_ & _ & H).
  destruct (H _ eq_refl) as (_ & _ & K).
  apply K; reflexivity.
Defined.

(** *** The file name and the [bundleHost] rewrite *)

Lemma append_cons a (s t : string) : (String a s ++ t)%string = String a (s ++ t)%string.
Proof. reflexivity. Qed.

Lemma append_nil_l (t : string) : ("" ++ t)%string = t.
Proof. reflexivity. Qed.

Lemma contains_app c s t :
  contains c (s ++ t) = contains c s || contains c t.
Proof.
  induction s as [|a s IH]; [reflexivity|].
  rewrite append_cons. simpl. now rewrite IH, orb_assoc.
Qed.

Lemma string_app_assoc (s t u : string) : ((s ++ t) ++ u = s ++ (t ++ u))%string.
Proof.
  induction s as [|a s IH]; [reflexivity|].
  rewrite !append_cons. now rewrite IH.
Qed.

Lemma string_app_nil_r (s : string) : (s ++ "")%string = s.
Proof.
  induction s as [|a s IH]; [reflexivity|]. rewrite append_cons. now rewrite IH.
Qed.

(** X11. The file name [checkForUpdate] takes from a download URL,
    [url.split("/").pop()], is the part of the URL after its last
    slash: it holds no slash, and the URL is the file name after a
    prefix that is empty or ends with a slash. *)
Theorem fileName_is_last_segment (url : string) :
  contains "/" (last_segment "" url) = false
  /\ exists prefix,
       url = (prefix ++ last_segment "" url)%string
       /\ (prefix = "" \/ exists p, prefix = (p ++ "/")%string).
Proof.
  assert (G : forall url segment,
            contains "/" segment = false ->
            contains "/" (last_segment segment url) = false
            /\ exists prefix,
                 (segment ++ url)%string = (prefix ++ last_segment segment url)%string
                 /\ (prefix = "" \/ exists p, prefix = (p ++ "/")%string)).
  { clear url. intros url.
    induction url as [|c rest IH]; intros segment Hseg; simpl.
    - split; [assumption|]. exists "". split; [now rewrite string_app_nil_r | now left].
    - destruct (Ascii.eqb c "/") eqn:Ec.
      + apply Ascii.eqb_eq in Ec. subst c.
        destruct (IH "" eq_refl) as [Hno (prefix & Hp & Hs)]. split; [assumption|].
        rewrite append_nil_l in Hp.
        exists (segment ++ "/" ++ prefix)%string. split.
        * rewrite !string_app_assoc. do 2 f_equal. exact Hp.
        * right. destruct Hs as [->|(p & ->)].
          -- exists segment. reflexivity.
          -- exists (segment ++ "/" ++ p)%string. now rewrite !string_app_assoc.
      + assert (Hseg' : contains "/" (segment ++ String c "") = false).
        { rewrite contains_app, Hseg. simpl. now rewrite Ec. }
        destruct (IH _ Hseg') as [Hno (prefix & Hp & Hs)]. split; [assumption|].
        exists prefix. split; [|assumption].
        rewrite <- Hp. now rewrite string_app_assoc. }
  apply (G url "" eq_refl).
Qed.

(** *** The package [checkForUpdate] returns *)

Lemma with_downloadUrl_same u : with_downloadUrl u (update_downloadUrl u) = u.
Proof. now destruct u. Qed.

(** X12. The remote package [checkForUpdate] returns is the update the
    backend in use answered, changed in two fields.  Its download URL
    is [bundleHost] followed by the file name of the answered URL when
    [bundleHost] is set and not empty and the answered URL is a string
    with a file name; it is the answered URL otherwise.  Its deployment
    key is the key passed to the check when that is truthy, the key of
    the configuration object [getConfiguration] returns otherwise,
    whatever key the answer carried.  Its [failedInstall] flag is what
    the native side says of the hash of the update. *)
Theorem checkForUpdate_package
    (deploymentKey : prim) (handleBinaryVersionMismatchCallback : value)
    (w w' : World) (package : RemotePackage) :
  checkForUpdate deploymentKey handleBinaryVersionMismatchCallback w
  = (Returns (Some package), w') ->
  exists u l w0 nativeConfig,
    answered (env w) u
    /\ getConfiguration w = (Returns l, w0)
    /\ heap w' !! l = Some nativeConfig
    /\ remote_update package
       = with_update_deploymentKey
           (with_downloadUrl u
              match bundleHost (env w), update_downloadUrl u with
              | Some h, str url =>
                  if negb (String.eqb h "") && negb (String.eqb (last_segment "" url) "")
                  then str (h ++ last_segment "" url)%string
                  else str url
              | _, url => url
              end)
           (or_prim deploymentKey (config_deploymentKey nativeConfig))
    /\ remote_failedInstall package = isFailedUpdate (env w) (update_packageHash u).
Proof.
  intros H. unfold checkForUpdate in H.
  apply bind_returns in H. destruct H as (r & w1 & Hres & H).
  destruct (resolveUpdate_returns _ _ _ _ Hres)
    as (l & w0 & c & Hget & Hl & Hnative & _ & [Henv Hheap]).
  assert (Henv1 : env w1 = env w).
  { rewrite Henv. apply (getConfiguration_returns _ _ _ Hget). }
  apply resolveUpdate_inversion in Hres.
  destruct Hres as (q & wm & answer & Tm & Em & _ & _ & Hback & Hupdate).
  cbv zeta in H.
  destruct (res_update r) as [update|] eqn:Eu; [|discriminate].
  match type of H with
  | (if ?c then _ else _) _ = _ => destruct c
  end.
  { apply bind_returns in H. destruct H as (? & ? & _ & H). discriminate. }
  revert H. run. rewrite Henv1.
  destruct (fails (env w) IsFailedUpdate); [discriminate|].
  unfold deref. rewrite Hnative.
  destruct (heap w1 !! l) as [nativeConfig|] eqn:En; [|discriminate].
  intros [= <- <-].
  assert (Hans : exists u, answer = Some u).
  { destruct answer as [u|]; [eauto|].
    destruct (bundleHost (env w)); discriminate. }
  destruct Hans as [u ->].
  exists u, l, w0, nativeConfig.
  split.
  { unfold answered. destruct (updateChecker (env w)) as [checker|].
    - eauto.
    - apply sdk_query_returns in Hback. destruct Hback as [_ Hback].
      rewrite Em in Hback. eauto. }
  split; [assumption|]. split; [assumption|]. simpl.
  assert (Hu : update
               = with_downloadUrl u
                   match bundleHost (env w), update_downloadUrl u with
                   | Some h, str url =>
                       if negb (String.eqb h "")
                          && negb (String.eqb (last_segment "" url) "")
                       then str (h ++ last_segment "" url)%string
                       else str url
                   | _, url => url
                   end).
  { destruct (bundleHost (env w)) as [h|].
    - destruct (update_downloadUrl u) eqn:Ed;
        try (injection Hupdate as <-; rewrite <- Ed; now rewrite with_downloadUrl_same).
      destruct (negb (String.eqb h "") && negb (String.eqb (last_segment "" s) ""));
        injection Hupdate as <-; [reflexivity|].
      rewrite <- Ed. now rewrite with_downloadUrl_same.
    - injection Hupdate as <-. now rewrite with_downloadUrl_same. }
  split; [now rewrite Hu|].
  rewrite Hu. now destruct u.
Qed.

Lemma checkForUpdate_package_witness :
  let update := sampleUpdate undefined (str "hash-2") in
  let e :=
    mkEnv (sampleConfiguration (str "production-key")) (fun _ => None)
      (fun _ => false) (fun _ => false) None None
      (fun _ _ => Returns (Some update)) None (Some "https://cdn.example/") "android" 0
      (fun _ => false) in
  exists u l w0 nativeConfig,
    answered e u
    /\ getConfiguration (freshWorld e) = (Returns l, w0)
    /\ heap (snd (checkForUpdate (str "staging-key") (Prim undefined) (freshWorld e))) !! l
       = Some nativeConfig
    /\ remote_update
         (mkRemotePackage
            (with_update_deploymentKey
               (with_downloadUrl update (str "https://cdn.example/v2.zip"))
               (str "staging-key")) false)
       = with_update_deploymentKey
           (with_downloadUrl u
              match bundleHost e, update_downloadUrl u with
              | Some h, str url =>
                  if negb (String.eqb h "") && negb (String.eqb (last_segment "" url) "")
                  then str (h ++ last_segment "" url)%string
                  else str url
              | _, url => url
              end)
           (or_prim (str "staging-key") (config_deploymentKey nativeConfig))
    /\ false = isFailedUpdate e (update_packageHash u).
Proof.
  intros update e.
  apply (checkForUpdate_package (str "staging-key") (Prim undefined) (freshWorld e) _
           (mkRemotePackage
              (with_update_deploymentKey
                 (with_downloadUrl update (str "https://cdn.example/v2.zip"))
                 (str "staging-key")) false)).
  reflexivity.
Defined.

(** X13. The binary-version-mismatch callback is called outside any
    guard: when the resolved update carries [updateAppVersion] and the
    callback throws, [checkForUpdate] rejects with what the callback
    threw instead of returning [null], after the log line and the
    call. *)
Theorem checkForUpdate_mismatch_callback_unguarded
    (deploymentKey : prim) (id : nat) (w w1 : World) (r : Resolution)
    (update : RemoteUpdate) :
  resolveUpdate deploymentKey w = (Returns r, w1) ->
  res_update r = Some update ->
  truthy_prim (update_updateAppVersion update) = true ->
  fails (env w) (Callback id) = true ->
  exists e,
    checkForUpdate deploymentKey (Function id) w
    = (Throws e,
       set_trace (fun t =>
         t ++ [Log "An update is available but it is not targeting the binary version of your app.";
               MismatchCallbackCalled id update]) w1).
Proof.
  intros Hres Hu Hflag Hcb.
  assert (Henv1 : env w1 = env w).
  { pose proof (stable_resolveUpdate deploymentKey w) as [G _].
    now rewrite Hres in G. }
  unfold checkForUpdate. unfold bind at 1. rewrite Hres. cbv zeta.
  rewrite Hu, Hflag. simpl. run. rewrite Henv1, Hcb.
  eexists. f_equal. destruct w1; unfold set_trace; simpl.
  now rewrite <- app_assoc.
Qed.

Lemma checkForUpdate_mismatch_callback_unguarded_witness :
  let update := sampleUpdate (boolean true) (str "hash-2") in
  let e :=
    mkEnv (sampleConfiguration (str "key")) (fun _ => None)
      (fun _ => false) (fun _ => false) None None
      (fun _ _ => Returns (Some update)) None None "android" 0
      (fun call => match call with Callback _ => true | _ => false end) in
  exists err,
    checkForUpdate null (Function 3) (freshWorld e)
    = (Throws err,
       set_trace (fun t =>
         t ++ [Log "An update is available but it is not targeting the binary version of your app.";
               MismatchCallbackCalled 3 update])
         (snd (resolveUpdate null (freshWorld e)))).
Proof.
  intros update e.
  apply (checkForUpdate_mismatch_callback_unguarded null 3 (freshWorld e) _
           (mkResolution 0 (sampleConfiguration (str "key")) None (Some update)));
    reflexivity.
Defined.

(** *** The outcome of [tryReportStatus] *)

Ltac in_events :=
  simpl; repeat split;
  try (intros; intros K; simpl in K; intuition discriminate);
  try (simpl; intuition congruence).

Lemma tryReportStatus_outcome
    (statusReport : StatusReport) (retryOnAppResume : option nat)
    (w w0 : World) (l : nat) (c : Configuration) :
  getConfiguration w = (Returns l, w0) ->
  heap w0 !! l = Some c ->
  exists events w',
    tryReportStatus statusReport retryOnAppResume w = (Returns tt, w')
    /\ trace w' = trace w0 ++ events
    /\ configCache w' = configCache w0
    /\ if deliverable statusReport c (env w) then
         In (NativeRecordStatusReported statusReport) events
         /\ (forall r, ~ In (NativeSaveStatusReportForRetry r) events)
         /\ (forall id, ~ In (ListenerAdded id) events)
         /\ listeners w'
            = match retryOnAppResume with
              | Some id => <[id := false]> (listeners w0)
              | None => listeners w0
              end
       else
         In (NativeSaveStatusReportForRetry statusReport) events
         /\ (forall r, ~ In (NativeRecordStatusReported r) events)
         /\ listeners w'
            = match retryOnAppResume with
              | Some _ => listeners w0
              | None => listeners w0 ++ [true]
              end.
Proof.
  intros Hget Hheap.
  pose proof (getConfiguration_returns _ _ _ Hget) as [_ Henv].
  unfold tryReportStatus, deliverable. unfold bind at 1. rewrite Hget.
  unfold bind at 1. unfold deref at 1. rewrite Hheap. rewrite <- Henv.
  assert (Hl : (l < length (heap w0))%nat) by (eapply lookup_lt_Some; eauto).
  assert (Hins : forall x, <[l := x]> (heap w0) !! l = Some x).
  { intros x. now apply list_lookup_insert_eq. }
  destruct (truthy_prim (report_appVersion statusReport)).
  - crunch. rewrite Hheap. crunch.
    destruct (truthy_prim (config_deploymentKey c)); crunch.
    + rewrite Hheap. crunch.
      destruct (fails (env w0) ReportStatusDeploy); destruct retryOnAppResume;
        crunch; eexists; eexists; (split; [reflexivity|]); simpl;
        rewrite <- ?app_assoc; (split; [reflexivity|]);
        (split; [reflexivity|]); in_events.
    + destruct retryOnAppResume;
        crunch; eexists; eexists; (split; [reflexivity|]); simpl;
        rewrite <- ?app_assoc; (split; [reflexivity|]);
        (split; [reflexivity|]); in_events.
  - destruct (report_package statusReport) as [package|].
    + destruct (strict_eq (report_status statusReport) (str "DeploymentSucceeded")).
      * crunch. rewrite Hheap. crunch. rewrite Hins. crunch.
        destruct (fails (env w0) ReportStatusDeploy); destruct retryOnAppResume;
          crunch; eexists; eexists; (split; [reflexivity|]); simpl;
          rewrite <- ?app_assoc; (split; [reflexivity|]);
        (split; [reflexivity|]); in_events.
      * crunch. destruct (fails (env w0) SetLatestRollbackInfo); crunch.
        -- destruct retryOnAppResume;
             crunch; eexists; eexists; (split; [reflexivity|]); simpl;
             rewrite <- ?app_assoc; (split; [reflexivity|]);
        (split; [reflexivity|]); in_events.
        -- rewrite Hheap. crunch. rewrite Hins. crunch.
           destruct (fails (env w0) ReportStatusDeploy); destruct retryOnAppResume;
             crunch; eexists; eexists; (split; [reflexivity|]); simpl;
             rewrite <- ?app_assoc; (split; [reflexivity|]);
        (split; [reflexivity|]); in_events.
    + destruct retryOnAppResume;
        crunch; eexists; eexists; (split; [reflexivity|]); simpl;
        rewrite <- ?app_assoc; (split; [reflexivity|]);
        (split; [reflexivity|]); in_events.
Qed.

(** X14. [tryReportStatus] never throws once the configuration is at
    hand, and every attempt ends in exactly one of two ways.  When the
    report can be delivered it is recorded as reported, nothing is
    saved for retry, no listener is added and the listener passed in
    is removed.  Otherwise (no deployment key for a binary report, no
    package, the rollback info not stored, the SDK call failed) the
    report is saved for retry and not recorded, and a resume listener
    is added only when none was passed in. *)
Theorem tryReportStatus_delivers_or_saves
    (statusReport : StatusReport) (retryOnAppResume : option nat)
    (w w0 : World) (l : nat) (c : Configuration) :
  getConfiguration w = (Returns l, w0) ->
  heap w0 !! l = Some c ->
  exists events w',
    tryReportStatus statusReport retryOnAppResume w = (Returns tt, w')
    /\ trace w' = trace w0 ++ events
    /\ if deliverable statusReport c (env w) then
         In (NativeRecordStatusReported statusReport) events
         /\ (forall r, ~ In (NativeSaveStatusReportForRetry r) events)
         /\ (forall id, ~ In (ListenerAdded id) events)
         /\ listeners w'
            = match retryOnAppResume with
              | Some id => <[id := false]> (listeners w0)
              | None => listeners w0
              end
       else
         In (NativeSaveStatusReportForRetry statusReport) events
         /\ (forall r, ~ In (NativeRecordStatusReported r) events)
         /\ listeners w'
            = match retryOnAppResume with
              | Some _ => listeners w0
              | None => listeners w0 ++ [true]
              end.
Proof.
  intros Hget Hheap.
  destruct (tryReportStatus_outcome statusReport retryOnAppResume w w0 l c Hget Hheap)
    as (events & w' & Htry & Htrace & _ & Hout).
  exists events, w'. auto.
Qed.

Lemma tryReportStatus_delivers_or_saves_witness :
  let e := sampleEnv (sampleConfiguration (str "key")) None None None 0 in
  let w := mkWorld [] None None false [] [] [true] [] e in
  exists events w',
    tryReportStatus (updateReport "DeploymentFailed") (Some 0%nat) w = (Returns tt, w')
    /\ trace w' = trace (snd (getConfiguration w)) ++ events
    /\ In (NativeRecordStatusReported (updateReport "DeploymentFailed")) events
    /\ (forall r, ~ In (NativeSaveStatusReportForRetry r) events)
    /\ (forall id, ~ In (ListenerAdded id) events)
    /\ listeners w' = <[0%nat := false]> (listeners (snd (getConfiguration w))).
Proof.
  intros e w.
  apply (tryReportStatus_delivers_or_saves (updateReport "DeploymentFailed")
           (Some 0%nat) w _ 0%nat (sampleConfiguration (str "key")));
    reflexivity.
Defined.

(** X15. A report of a CodePush update.  When the status is not
    [DeploymentSucceeded] the package hash is handed to the native side
    as the latest rollback info before the SDK is called; if that
    native call fails the SDK is not called and the configuration
    object is left as it was.  When the SDK is called, it is built from
    the configuration object already carrying the deployment key of the
    reported package, while the previous deployment key it is given
    falls back on the key the object had before the assignment. *)
Theorem tryReportStatus_codepush_report
    (statusReport : StatusReport) (package : ReportedPackage)
    (retryOnAppResume : option nat)
    (w w0 : World) (l : nat) (c : Configuration) :
  truthy_prim (report_appVersion statusReport) = false ->
  report_package statusReport = Some package ->
  getConfiguration w = (Returns l, w0) ->
  heap w0 !! l = Some c ->
  let w' := snd (tryReportStatus statusReport retryOnAppResume w) in
  let succeeded :=
    strict_eq (report_status statusReport) (str "DeploymentSucceeded") in
  let reported :=
    SdkReportStatusDeploy
      (with_deploymentKey c (reported_deploymentKey package)) (Some package)
      (report_status statusReport) (report_previousLabelOrAppVersion statusReport)
      (or_prim (report_previousDeploymentKey statusReport) (config_deploymentKey c)) in
  (succeeded = true ->
   exists rest,
     trace w'
     = trace w0
       ++ LogValue "Reporting CodePush update success" (reported_label package)
       :: reported :: rest)
  /\ (succeeded = false -> fails (env w) SetLatestRollbackInfo = false ->
      exists rest,
        trace w'
        = trace w0
          ++ LogValue "Reporting CodePush update rollback" (reported_label package)
          :: NativeSetLatestRollbackInfo (reported_packageHash package)
          :: reported :: rest)
  /\ (succeeded = false -> fails (env w) SetLatestRollbackInfo = true ->
      heap w' = heap w0
      /\ exists rest,
        trace w'
        = trace w0
          ++ LogValue "Reporting CodePush update rollback" (reported_label package)
          :: NativeSetLatestRollbackInfo (reported_packageHash package)
          :: rest
        /\ forall configuration deployed status label key,
             ~ In (SdkReportStatusDeploy configuration deployed status label key) rest).
Proof.
  intros Hbin Hpkg Hget Hheap w' succeeded reported.
  pose proof (getConfiguration_returns _ _ _ Hget) as [_ Henv].
  assert (Hl : (l < length (heap w0))%nat) by (eapply lookup_lt_Some; eauto).
  assert (Hins : forall x, <[l := x]> (heap w0) !! l = Some x).
  { intros x. now apply list_lookup_insert_eq. }
  unfold w', succeeded, reported. clear w' succeeded reported.
  rewrite <- Henv.
  split; [|split].
  - intros Hs. unfold tryReportStatus. unfold bind at 1. rewrite Hget.
    unfold bind at 1. unfold deref at 1. rewrite Hheap, Hbin, Hpkg, Hs.
    crunch. rewrite Hheap. crunch. rewrite Hins. crunch.
    destruct (fails (env w0) ReportStatusDeploy); destruct retryOnAppResume;
      crunch; rewrite <- ?app_assoc; simpl; eexists; reflexivity.
  - intros Hs Hset. unfold tryReportStatus. unfold bind at 1. rewrite Hget.
    unfold bind at 1. unfold deref at 1. rewrite Hheap, Hbin, Hpkg, Hs.
    crunch. rewrite Hset. crunch.
    rewrite Hheap. crunch. rewrite Hins. crunch.
    destruct (fails (env w0) ReportStatusDeploy); destruct retryOnAppResume;
      crunch; rewrite <- ?app_assoc; simpl; eexists; reflexivity.
  - intros Hs Hset.
    remember (tryReportStatus statusReport retryOnAppResume w) as result eqn:E.
    revert E. unfold tryReportStatus. unfold bind at 1. rewrite Hget.
    unfold bind at 1. unfold deref at 1. rewrite Hheap, Hbin, Hpkg, Hs.
    crunch. rewrite Hset. crunch.
    destruct retryOnAppResume; crunch; intros ->; simpl; (split; [reflexivity|]);
      rewrite <- ?app_assoc; simpl; eexists; (split; [reflexivity|]);
      intros; intros K; simpl in K; intuition discriminate.
Qed.

Lemma tryReportStatus_codepush_report_witness :
  let e := sampleEnv (sampleConfiguration (str "key")) None None None 0 in
  let w := freshWorld e in
  let package := mkReportedPackage (str "v2") (str "hash-2") (str "staging-key") in
  exists rest,
    trace (snd (tryReportStatus (updateReport "DeploymentFailed") None w))
    = trace (snd (getConfiguration w))
      ++ LogValue "Reporting CodePush update rollback" (str "v2")
      :: NativeSetLatestRollbackInfo (str "hash-2")
      :: SdkReportStatusDeploy
           (with_deploymentKey (sampleConfiguration (str "key")) (str "staging-key"))
           (Some package) (str "DeploymentFailed") (str "v1") (str "key")
      :: rest.
Proof.
  intros e w package.
  apply (proj1 (proj2
           (tryReportStatus_codepush_report (updateReport "DeploymentFailed") package
              None w _ 0%nat (sampleConfiguration (str "key"))
              eq_refl eq_refl eq_refl eq_refl)));
    reflexivity.
Defined.

(** *** The resume listener *)

Lemma registered_ge ls : forall from id, In id (registered from ls) -> (from <= id)%nat.
Proof.
  induction ls as [|b ls IH]; intros from id; simpl; [tauto|].
  rewrite in_app_iff. intros [H|H].
  - destruct b; simpl in H; [|tauto]. destruct H as [<-|[]]. lia.
  - apply IH in H. lia.
Qed.

Lemma registered_snoc ls : forall from,
  registered from (ls ++ [true]) = registered from ls ++ [(from + length ls)%nat].
Proof.
  induction ls as [|b ls IH]; intros from; simpl.
  - now rewrite Nat.add_0_r.
  - rewrite IH, <- app_assoc. do 3 f_equal. lia.
Qed.

Lemma registered_single_remove ls : forall from id,
  registered from ls = [id] ->
  registered from (<[(id - from)%nat := false]> ls) = [].
Proof.
  induction ls as [|b ls IH]; intros from id; simpl; [discriminate|].
  destruct b; simpl.
  - intros [= <- Hrest]. rewrite Nat.sub_diag. simpl. exact Hrest.
  - intros H.
    assert (Hge : (S from <= id)%nat).
    { apply (registered_ge ls). rewrite H. now left. }
    replace (id - from)%nat with (S (id - S from)) by lia.
    simpl. now apply IH.
Qed.

Lemma appStateChange_single id newState w :
  registered 0 (listeners w) = [id] ->
  appStateChange newState w
  = (detached (resumeHandler id newState) ;; ret tt) w.
Proof.
  intros H. unfold appStateChange. unfold bind at 1. unfold read.
  rewrite H. reflexivity.
Qed.

Lemma registered_only_remove id w :
  registered 0 (listeners w) = [id] ->
  registered 0 (<[id := false]> (listeners w)) = [].
Proof.
  intros Hreg. pose proof (registered_single_remove _ _ _ Hreg) as K.
  now rewrite Nat.sub_0_r in K.
Qed.

(** The one listener, on ["active"], with a report pending. *)
Lemma resume_active_pending
    (id l : nat) (c : Configuration) (refreshed : StatusReport) (w : World) :
  registered 0 (listeners w) = [id] ->
  configCache w = Some l ->
  heap w !! l = Some c ->
  fails (env w) GetNewStatusReport = false ->
  newStatusReport (env w) = Some refreshed ->
  let result := appStateChange "active" w in
  fst result = Returns tt
  /\ if deliverable refreshed c (env w) then
       In (NativeRecordStatusReported refreshed) (trace (snd result))
       /\ registered 0 (listeners (snd result)) = []
     else
       In (NativeSaveStatusReportForRetry refreshed) (trace (snd result))
       /\ registered 0 (listeners (snd result)) = [id].
Proof.
  intros Hreg Hcache Hheap Hok Hnew result. unfold result.
  rewrite (appStateChange_single _ _ _ Hreg).
  pose proof (registered_only_remove _ _ Hreg) as Hrm.
  assert (Hget : getConfiguration w = (Returns l, w))
    by (apply getConfiguration_cached; now left).
  unfold detached, resumeHandler. simpl. run. rewrite Hok, Hnew.
  destruct (tryReportStatus_outcome refreshed (Some id) w w l c Hget Hheap)
    as (events & w' & Htry & Htrace & _ & Hout).
  unfold detached, try_catch. rewrite Htry. simpl.
  split; [reflexivity|].
  destruct (deliverable refreshed c (env w)).
  - destruct Hout as (Hin & _ & _ & Hls). split.
    + rewrite Htrace. apply in_or_app. now right.
    + now rewrite Hls.
  - destruct Hout as (Hin & _ & Hls). split.
    + rewrite Htrace. apply in_or_app. now right.
    + now rewrite Hls.
Qed.

(** X16. The listener [tryReportStatus] registers, while it is the one
    registered listener and the configuration is cached.  A change to
    a state other than ["active"] does nothing; so does a change in
    which the native side fails to hand over the pending report.  On
    ["active"] with no pending report the listener removes itself.
    With a pending report, the report is tried with this listener
    passed along: delivered, it is recorded and the listener removed;
    not delivered, it is saved again and the listener stays the only
    one, no second listener being added. *)
Theorem resume_listener_retries
    (id l : nat) (c : Configuration) (newState : string) (w : World) :
  registered 0 (listeners w) = [id] ->
  configCache w = Some l ->
  heap w !! l = Some c ->
  let result := appStateChange newState w in
  fst result = Returns tt
  /\ (newState <> "active" \/ fails (env w) GetNewStatusReport = true ->
      snd result = w)
  /\ (newState = "active" -> fails (env w) GetNewStatusReport = false ->
      match newStatusReport (env w) with
      | None =>
          snd result
          = set_trace (fun t => t ++ [ListenerRemoved id])
              (set_listeners (fun ls => <[id := false]> ls) w)
          /\ registered 0 (listeners (snd result)) = []
      | Some refreshed =>
          if deliverable refreshed c (env w) then
            In (NativeRecordStatusReported refreshed) (trace (snd result))
            /\ registered 0 (listeners (snd result)) = []
          else
            In (NativeSaveStatusReportForRetry refreshed) (trace (snd result))
            /\ registered 0 (listeners (snd result)) = [id]
      end).
Proof.
  intros Hreg Hcache Hheap result.
  destruct (String.eqb newState "active") eqn:Es.
  - apply String.eqb_eq in Es. subst newState.
    destruct (fails (env w) GetNewStatusReport) eqn:Ef.
    + unfold result. rewrite (appStateChange_single _ _ _ Hreg).
      unfold detached, resumeHandler. simpl. run. rewrite Ef. simpl.
      split; [reflexivity|]. split; [reflexivity | discriminate].
    + destruct (newStatusReport (env w)) as [refreshed|] eqn:En.
      * destruct (resume_active_pending id l c refreshed w Hreg Hcache Hheap Ef En)
          as [Hfst Hout].
        split; [exact Hfst|].
        split; [intros [H|H]; [now contradiction H | discriminate]|].
        intros _ _. exact Hout.
      * unfold result. rewrite (appStateChange_single _ _ _ Hreg).
        unfold detached, resumeHandler. simpl. run. rewrite Ef, En. crunch.
        split; [reflexivity|].
        split; [intros [H|H]; [now contradiction H | discriminate]|].
        intros _ _. split; [reflexivity|].
        now apply registered_only_remove.
  - unfold result. rewrite (appStateChange_single _ _ _ Hreg).
    unfold detached, resumeHandler. rewrite Es. simpl. run.
    split; [reflexivity|]. split; [reflexivity|].
    intros ->. discriminate.
Qed.

Lemma resume_listener_retries_witness :
  let report := updateReport "DeploymentSucceeded" in
  let c := sampleConfiguration (str "key") in
  let e := sampleEnv c None None (Some report) 0 in
  let w := mkWorld [c] (Some 0%nat) None false [] [] [false; true] [] e in
  In (NativeRecordStatusReported report) (trace (snd (appStateChange "active" w)))
  /\ registered 0 (listeners (snd (appStateChange "active" w))) = [].
Proof.
  intros report c e w.
  apply (proj2 (proj2 (resume_listener_retries 1 0 c "active" w
                         eq_refl eq_refl eq_refl)) eq_refl eq_refl).
Defined.

(** X17. The retry cycle of a status report.  A report that cannot be
    delivered, tried with no listener registered, leaves exactly one
    resume listener behind.  When the app then becomes active and the
    native side hands over the pending report, the report is tried
    again in the environment of that moment: delivered, it is recorded
    as reported and no listener remains; not delivered, it is saved
    again and the same single listener remains. *)
Theorem status_report_retry_cycle
    (statusReport refreshed : StatusReport) (l : nat) (c c1 : Configuration)
    (later : Env) (w : World) :
  configCache w = Some l ->
  heap w !! l = Some c ->
  registered 0 (listeners w) = [] ->
  deliverable statusReport c (env w) = false ->
  let w1 := snd (tryReportStatus statusReport None w) in
  heap w1 !! l = Some c1 ->
  newStatusReport later = Some refreshed ->
  fails later GetNewStatusReport = false ->
  let w2 := snd (appStateChange "active" (withEnv later w1)) in
  registered 0 (listeners w1) = [length (listeners w)]
  /\ In (NativeSaveStatusReportForRetry statusReport) (trace w1)
  /\ if deliverable refreshed c1 later then
       In (NativeRecordStatusReported refreshed) (trace w2)
       /\ registered 0 (listeners w2) = []
     else
       In (NativeSaveStatusReportForRetry refreshed) (trace w2)
       /\ registered 0 (listeners w2) = [length (listeners w)].
Proof.
  intros Hcache Hheap Hreg Hfail w1 Hheap1 Hnew Hok w2.
  assert (Hget : getConfiguration w = (Returns l, w))
    by (apply getConfiguration_cached; now left).
  destruct (tryReportStatus_outcome statusReport None w w l c Hget Hheap)
    as (events & w' & Htry & Htrace & Hc' & Hout).
  rewrite Hfail in Hout. destruct Hout as (Hsaved & _ & Hls).
  assert (Ew1 : w1 = w') by (unfold w1; now rewrite Htry). 
  assert (Hreg1 : registered 0 (listeners w1) = [length (listeners w)]).
  { rewrite Ew1, Hls, registered_snoc, Hreg. reflexivity. }
  split; [assumption|]. split.
  { rewrite Ew1, Htrace. apply in_or_app. now right. }
  assert (Hcache1 : configCache w1 = Some l).
  { rewrite Ew1. congruence. }
  destruct (resume_active_pending (length (listeners w)) l c1 refreshed
              (withEnv later w1) Hreg1 Hcache1 Hheap1 Hok Hnew) as [_ K].
  exact K.
Qed.

Lemma status_report_retry_cycle_witness :
  let c := sampleConfiguration (str "key") in
  let offline :=
    mkEnv c (fun _ => None) (fun _ => false) (fun _ => false) None None
      (fun _ _ => Returns None) None None "android" 0
      (fun call => match call with ReportStatusDeploy => true | _ => false end) in
  let online := sampleEnv c None None (Some binaryReport) 0 in
  let w := mkWorld [c] (Some 0%nat) None false [] [] [] [] offline in
  let w1 := snd (tryReportStatus binaryReport None w) in
  let w2 := snd (appStateChange "active" (withEnv online w1)) in
  registered 0 (listeners w1) = [0%nat]
  /\ In (NativeSaveStatusReportForRetry binaryReport) (trace w1)
  /\ In (NativeRecordStatusReported binaryReport) (trace w2)
  /\ registered 0 (listeners w2) = [].
Proof.
  intros c offline online w w1 w2.
  apply (status_report_retry_cycle binaryReport binaryReport 0 c c online w
           eq_refl eq_refl eq_refl eq_refl eq_refl eq_refl eq_refl).
Defined.

(** *** More on the rollback retry policy *)



(** X18. The retry policy only applies to the package that was rolled
    back last.  For a failed package under a valid policy, when the
    native side holds no rollback info, or holds the info of a package
    with another hash, [shouldUpdateBeIgnored] returns [true] and logs
    that the latest rollback info is not valid, whatever the delay and
    the number of attempts. *)
Theorem shouldUpdateBeIgnored_stale_rollback_info
    (p : RemotePackage) (syncOptions : SyncOptions) (w : World)
    (delayInHours : number) (maxRetryAttempts : Q) :
  remote_failedInstall p = true ->
  truthy_prim (sync_ignoreFailedUpdates syncOptions) = true ->
  truthy (sync_rollbackRetryOptions syncOptions) = true ->
  get (withDefaultRetryOptions (sync_rollbackRetryOptions syncOptions)) "delayInHours"
    = Prim (num delayInHours) ->
  get (withDefaultRetryOptions (sync_rollbackRetryOptions syncOptions)) "maxRetryAttempts"
    = Prim (num (Fin maxRetryAttempts)) ->
  (1 <= maxRetryAttempts)%Q ->
  fails (env w) GetLatestRollbackInfo = false ->
  (latestRollbackInfo (env w) = None
   \/ exists info, latestRollbackInfo (env w) = Some info
        /\ strict_eq (rollback_packageHash info)
             (update_packageHash (remote_update p)) = false) ->
  shouldUpdateBeIgnored (Some p) syncOptions w
  = (Returns true,
     set_trace (fun t => t ++ [Log "The latest rollback info is not valid."]) w).
Proof.
  intros Hf Hi Ht Hd Hm Hm1 Hext Hinfo.
  unfold shouldUpdateBeIgnored. rewrite Hf, Hi, Ht. simpl.
  unfold bind at 1. rewrite (validate_valid _ w _ _ Hd Hm Hm1). simpl.
  run. rewrite Hext.
  assert (E : validateLatestRollbackInfo (latestRollbackInfo (env w))
                (update_packageHash (remote_update p)) = false).
  { destruct Hinfo as [->|(info & -> & Hne)]; [reflexivity|].
    unfold validateLatestRollbackInfo. rewrite Hne. now rewrite andb_false_r. }
  rewrite E. reflexivity.
Qed.

Lemma shouldUpdateBeIgnored_stale_rollback_info_witness :
  let p := mkRemotePackage (sampleUpdate undefined (str "hash-3")) true in
  let info := mkRollbackInfo (Fin 1000) (Fin 1) (str "hash-2") in
  let w := freshWorld (sampleEnv (sampleConfiguration (str "key")) (Some info)
                         None None 999999999999) in
  shouldUpdateBeIgnored (Some p) (sampleSyncOptions (Prim (boolean true))) w
  = (Returns true,
     set_trace (fun t => t ++ [Log "The latest rollback info is not valid."]) w).
Proof.
  intros p info w.
  apply (shouldUpdateBeIgnored_stale_rollback_info p
           (sampleSyncOptions (Prim (boolean true))) w (Fin 24) 1);
    try reflexivity.
  - discriminate.
  - right. exists info. split; reflexivity.
Defined.

Lemma withDefault_defaults v :
  truthy v = true ->
  String.eqb (typeof v) "object" = false \/ v = Object ∅ ->
  withDefaultRetryOptions v = DEFAULT_ROLLBACK_RETRY_OPTIONS.
Proof.
  intros _ [H| ->]; unfold withDefaultRetryOptions.
  - now rewrite H.
  - simpl. unfold spread. apply (left_id_L ∅ (∪)).
Qed.

Lemma withDefault_idempotent :
  withDefaultRetryOptions (Object DEFAULT_ROLLBACK_RETRY_OPTIONS)
  = DEFAULT_ROLLBACK_RETRY_OPTIONS.
Proof.
  unfold withDefaultRetryOptions. simpl. unfold spread. apply (idemp_L (∪)).
Qed.

(** X19. A rollback retry option that is truthy but not an object
    ([true], a number, a string, a function), and the empty object,
    stand for the default policy: [shouldUpdateBeIgnored] does with
    them exactly what it does with
    [{ delayInHours: 24, maxRetryAttempts: 1 }]. *)
Theorem shouldUpdateBeIgnored_default_policy
    (remotePackage : option RemotePackage) (syncOptions : SyncOptions)
    (v : value) (w : World) :
  truthy v = true ->
  String.eqb (typeof v) "object" = false \/ v = Object ∅ ->
  shouldUpdateBeIgnored remotePackage (with_rollbackRetryOptions syncOptions v) w
  = shouldUpdateBeIgnored remotePackage
      (with_rollbackRetryOptions syncOptions (Object DEFAULT_ROLLBACK_RETRY_OPTIONS)) w.
Proof.
  intros Ht Hv. unfold shouldUpdateBeIgnored. simpl.
  rewrite Ht, (withDefault_defaults v Ht Hv), withDefault_idempotent.
  reflexivity.
Qed.

Lemma shouldUpdateBeIgnored_default_policy_witness :
  let p := mkRemotePackage (sampleUpdate undefined (str "hash-2")) true in
  let info := mkRollbackInfo (Fin 0) (Fin 1) (str "hash-2") in
  let w := freshWorld (sampleEnv (sampleConfiguration (str "key")) (Some info)
                         None None 86400000) in
  shouldUpdateBeIgnored (Some p)
    (with_rollbackRetryOptions (sampleSyncOptions (Prim null)) (Prim (str "yes"))) w
  = shouldUpdateBeIgnored (Some p)
      (with_rollbackRetryOptions (sampleSyncOptions (Prim null))
         (Object DEFAULT_ROLLBACK_RETRY_OPTIONS)) w.
Proof.
  intros p info w.
  apply shouldUpdateBeIgnored_default_policy; [reflexivity | now left].
Defined.





(** *** The update check and the retry policy together *)

Lemma checkForUpdate_failedInstall key cb w package w' :
  checkForUpdate key cb w = (Returns (Some package), w') ->
  remote_failedInstall package
  = isFailedUpdate (env w) (update_packageHash (remote_update package))
  /\ env w' = env w.
Proof.
  intros H.
  assert (Henv : env w' = env w).
  { assert (G : grows w w').
    { pose proof (stable_resolveUpdate key) as S.
      assert (S' : stable (checkForUpdate key cb)).
      { unfold checkForUpdate. apply stable_bind; [exact S|].
        intros r. repeat stable_step. }
      specialize (S' w). now rewrite H in S'. }
    apply G. }
  split; [|exact Henv].
  unfold checkForUpdate in H.
  apply bind_returns in H. destruct H as (r & w1 & Hres & H).
  assert (Henv1 : env w1 = env w).
  { pose proof (stable_resolveUpdate key w) as [G _]. now rewrite Hres in G. }
  cbv zeta in H.
  destruct (res_update r) as [update|]; [|discriminate].
  match type of H with
  | (if ?c then _ else _) _ = _ => destruct c
  end.
  { apply bind_returns in H. destruct H as (? & ? & _ & H). discriminate. }
  revert H. run. rewrite Henv1.
  destruct (fails (env w) IsFailedUpdate); [discriminate|].
  unfold deref. destruct (heap w1 !! res_nativeConfig r); [|discriminate].
  intros [= <- <-]. reflexivity.
Qed.

(** X21. The update check and the retry policy together, as
    [syncInternal] chains them: a package that [checkForUpdate]
    returned is ignored by [shouldUpdateBeIgnored] only if the native
    side says the update with its hash has failed and
    [ignoreFailedUpdates] is truthy; when the native side does not say
    so, the answer is [false] and nothing is logged or asked. *)
Theorem checked_package_ignored_only_if_failed
    (deploymentKey : prim) (handleBinaryVersionMismatchCallback : value)
    (syncOptions : SyncOptions) (w w' : World) (package : RemotePackage) :
  checkForUpdate deploymentKey handleBinaryVersionMismatchCallback w
  = (Returns (Some package), w') ->
  let hash := update_packageHash (remote_update package) in
  (fst (shouldUpdateBeIgnored (Some package) syncOptions w') = Returns true ->
   isFailedUpdate (env w) hash = true
   /\ truthy_prim (sync_ignoreFailedUpdates syncOptions) = true)
  /\ (isFailedUpdate (env w) hash = false ->
      shouldUpdateBeIgnored (Some package) syncOptions w' = (Returns false, w')).
Proof.
  intros H hash.
  destruct (checkForUpdate_failedInstall _ _ _ _ _ H) as [Hf _].
  fold hash in Hf. unfold shouldUpdateBeIgnored. rewrite Hf.
  split.
  - destruct (isFailedUpdate (env w) hash); simpl; [|discriminate].
    destruct (truthy_prim (sync_ignoreFailedUpdates syncOptions)); simpl;
      [auto | discriminate].
  - intros ->. reflexivity.
Qed.

Lemma checked_package_ignored_only_if_failed_witness :
  let update := sampleUpdate undefined (str "hash-2") in
  let w := freshWorld (sampleEnv (sampleConfiguration (str "key")) None
                         (Some update) None 0) in
  let package := mkRemotePackage (with_update_deploymentKey update (str "key")) false in
  shouldUpdateBeIgnored (Some package) (sampleSyncOptions (Prim null))
    (snd (checkForUpdate null (Prim undefined) w))
  = (Returns false, snd (checkForUpdate null (Prim undefined) w)).
Proof.
  intros update w package.
  apply (proj2 (checked_package_ignored_only_if_failed null (Prim undefined)
                  (sampleSyncOptions (Prim null)) w _ package eq_refl)).
  reflexivity.
Defined.

(** ** [notifyApplicationReady] and the run of [syncInternal] *)

Ltac runR :=
  unfold bindR, retR, readR, modifyR, throwR, await, act, liftW, try_catchR; simpl.

(** What [notifyApplicationReadyInternal] does, by the way it ends. *)
Lemma notifyApplicationReadyInternal_spec r :
  let result := notifyApplicationReadyInternal r in
  activity (snd result) = activity r ++ [NativeNotifyApplicationReady]
  /\ device (snd result) = device r
  /\ notifyApplicationReadyPromise (snd result) = notifyApplicationReadyPromise r
  /\ resolvedInstallMode (snd result) = resolvedInstallMode r
  /\ match nativeNotifyApplicationReady (device r) with
     | Throws e => fst result = Throws e /\ world (snd result) = world r
     | Returns _ =>
         if fails (env (world r)) GetNewStatusReport then
           (exists e, fst result = Throws e) /\ world (snd result) = world r
         else
           fst result = Returns (newStatusReport (env (world r)))
           /\ world (snd result)
              = match newStatusReport (env (world r)) with
                | Some report => snd (tryReportStatus report None (world r))
                | None => world r
                end
     end.
Proof.
  unfold notifyApplicationReadyInternal. runR.
  destruct (nativeNotifyApplicationReady (device r)) as [[]|e]; simpl.
  - unfold external.
    destruct (fails (env (world r)) GetNewStatusReport); simpl.
    + repeat split; eauto.
    + destruct (newStatusReport (env (world r))) as [report|]; simpl.
      * unfold detached, try_catch.
        destruct (tryReportStatus report None (world r)) as [[[]|e] w']; simpl;
          repeat split.
      * repeat split.
  - repeat split.
Qed.

Lemma notifyApplicationReady_unfold r :
  notifyApplicationReady r
  = match notifyApplicationReadyPromise r with
    | Some outcome => (outcome, r)
    | None =>
        (fst (notifyApplicationReadyInternal r),
         set_notifyApplicationReadyPromise
           (Some (fst (notifyApplicationReadyInternal r)))
           (snd (notifyApplicationReadyInternal r)))
    end.
Proof.
  unfold notifyApplicationReady, bindR, readR, await.
  destruct (notifyApplicationReadyPromise r); [reflexivity|].
  now destruct (notifyApplicationReadyInternal r).
Qed.

(** X22. [notifyApplicationReady] runs [notifyApplicationReadyInternal]
    once in the lifetime of the module.  The first call tells the
    native side and keeps the outcome; every later call makes no native
    call, changes nothing and gives the same outcome: the same status
    report, or the same error when the first call failed, which is
    never tried again. *)
Theorem notifyApplicationReady_once (r : Run) :
  let outcome := fst (notifyApplicationReady r) in
  let r1 := snd (notifyApplicationReady r) in
  notifyApplicationReady r1 = (outcome, r1)
  /\ notifyApplicationReadyPromise r1 = Some outcome
  /\ (notifyApplicationReadyPromise r = None ->
      activity r1 = activity r ++ [NativeNotifyApplicationReady])
  /\ (forall kept, notifyApplicationReadyPromise r = Some kept ->
      outcome = kept /\ r1 = r).
Proof.
  intros outcome r1. unfold outcome, r1. clear outcome r1.
  rewrite (notifyApplicationReady_unfold r).
  destruct (notifyApplicationReadyPromise r) as [kept|] eqn:Ep; simpl.
  - rewrite notifyApplicationReady_unfold, Ep.
    split; [reflexivity|]. split; [reflexivity|]. split; [discriminate|].
    intros kept' [= <-]. split; reflexivity.
  - pose proof (notifyApplicationReadyInternal_spec r) as (Ha & _).
    rewrite notifyApplicationReady_unfold. simpl.
    split; [reflexivity|]. split; [reflexivity|]. split; [|discriminate].
    intros _. exact Ha.
Qed.

Lemma notifyApplicationReady_once_witness :
  let d :=
    mkDevice (Throws (mkError "Error" "native module missing"))
      (fun _ _ => Throws (mkError "Error" "offline")) (Returns tt) true None
      (num (Fin 1)) (num (Fin 2)) (fun _ => NaN) in
  let r := freshRun (sampleEnv (sampleConfiguration (str "key")) None None None 0) d in
  activity (snd (notifyApplicationReady r)) = [NativeNotifyApplicationReady]
  /\ notifyApplicationReady (snd (notifyApplicationReady r))
     = (Throws (mkError "Error" "native module missing"),
        snd (notifyApplicationReady r)).
Proof.
  intros d r.
  destruct (notifyApplicationReady_once r) as (H1 & _ & H3 & _).
  split; [exact (H3 eq_refl) | exact H1].
Defined.



(** *** The courses of a run *)

(** Signalling a status never throws: the callback of the caller runs
    inside a guard, the default callback only logs. *)
Lemma signal_spec callback syncOptions status r :
  exists w,
    syncStatusChangeCallback callback syncOptions status r
    = (Returns tt,
       mkRun w (notifyApplicationReadyPromise r) (resolvedInstallMode r)
         (activity r ++ [StatusChanged status]) (device r)).
Proof.
  unfold syncStatusChangeCallback. runR.
  destruct callback as [p|props|id].
  - unfold defaultStatusLog.
    destruct status; run;
      repeat match goal with
             | |- context [if ?c then _ else _] => destruct c; run
             end; eexists; reflexivity.
  - unfold defaultStatusLog.
    destruct status; run;
      repeat match goal with
             | |- context [if ?c then _ else _] => destruct c; run
             end; eexists; reflexivity.
  - unfold syncStatusCallbackWithTryCatch. run.
    destruct (fails (env (world r)) (Callback id)); simpl; eexists; reflexivity.
Qed.

Ltac signal :=
  match goal with
  | |- context [syncStatusChangeCallback ?cb ?o ?s ?r] =>
      let w := fresh "w" in
      let E := fresh "E" in
      destruct (signal_spec cb o s r) as (w & E); rewrite E; clear E; simpl
  end.

Lemma doDownloadAndInstall_shape callback progress syncOptions remotePackage r :
  let result := doDownloadAndInstall callback progress syncOptions remotePackage r in
  exists acts,
    activity (snd result) = activity r ++ acts
    /\ ((acts = [StatusChanged DOWNLOADING_PACKAGE; Download remotePackage progress]
         /\ exists e, fst result = Throws e)
        \/ exists installMode called,
             calledBack called
             /\ acts = [StatusChanged DOWNLOADING_PACKAGE; Download remotePackage progress;
                        StatusChanged INSTALLING_UPDATE;
                        Install installMode (sync_minimumBackgroundDuration syncOptions)]
                       ++ called
             /\ (fst result = Returns UPDATE_INSTALLED
                 \/ exists e, fst result = Throws e)).
Proof.
  unfold doDownloadAndInstall.
  unfold bindR, act, readR, modifyR, await, retR. simpl.
  signal.
  destruct (download (device r) remotePackage progress) as [localPackage|e]; simpl.
  - signal.
    destruct (installCallsBack (device r)); simpl.
    + signal.
      destruct (install (device r)) as [[]|e]; simpl;
        rewrite <- ?app_assoc; simpl;
        (eexists; split; [reflexivity|]; right;
         eexists _, [StatusChanged UPDATE_INSTALLED];
         split; [now right|]; split; [reflexivity|]; eauto).
    + destruct (install (device r)) as [[]|e]; simpl;
        rewrite <- ?app_assoc; simpl;
        (eexists; split; [reflexivity|]; right;
         eexists _, []; split; [now left|]; split; [reflexivity|]; eauto).
  - rewrite <- !app_assoc. simpl. eexists. split; [reflexivity|]. left. eauto.
Qed.

Lemma awaitUserAction_shape callback progress syncOptions remotePackage r :
  let result := awaitUserAction callback progress syncOptions remotePackage r in
  exists title message appended dialogButtons rest,
    activity (snd result)
    = activity r
      ++ [StatusChanged AWAITING_USER_ACTION;
          AlertShown title message appended dialogButtons] ++ rest
    /\ ((rest = [] /\ fst result = Returns AwaitingUser)
        \/ (rest = [StatusChanged UPDATE_IGNORED]
            /\ fst result = Returns (Finished UPDATE_IGNORED))
        \/ (rest = [StatusChanged DOWNLOADING_PACKAGE; Download remotePackage progress]
            /\ exists e, fst result = Throws e)
        \/ exists installMode called,
             calledBack called
             /\ rest = [StatusChanged DOWNLOADING_PACKAGE; Download remotePackage progress;
                        StatusChanged INSTALLING_UPDATE;
                        Install installMode (sync_minimumBackgroundDuration syncOptions)]
                       ++ called
             /\ (fst result = Returns (Finished UPDATE_INSTALLED)
                 \/ exists e, fst result = Throws e)).
Proof.
  unfold awaitUserAction. cbv zeta.
  unfold bindR, act, readR, modifyR, await, retR. simpl.
  signal.
  match goal with
  | |- context [AlertShown ?t ?m ?a ?b] => exists t, m, a, b
  end.
  destruct (pressed (device r)) as [i|]; simpl.
  - match goal with
    | |- context [?b !! i] => destruct (b !! i) as [[text|text]|]
    end; simpl.
    + signal. rewrite <- !app_assoc. simpl. eexists. split; [reflexivity|].
      right; left. auto.
    + match goal with
      | |- context [doDownloadAndInstall ?cb ?dcb ?o ?p ?r0] =>
          destruct (doDownloadAndInstall_shape cb dcb o p r0) as (acts & Ha & Hs);
          destruct (doDownloadAndInstall cb dcb o p r0) as [[status|e] r1]
      end; simpl in *.
      * rewrite Ha, <- !app_assoc. simpl. exists acts. split; [reflexivity|].
        destruct Hs as [(-> & e & He)|(m & called & Hc & -> & [He|(e & He)])];
          try discriminate.
        injection He as ->. right; right; right. exists m, called. auto.
      * rewrite Ha, <- !app_assoc. simpl. exists acts. split; [reflexivity|].
        destruct Hs as [(-> & e' & He)|(m & called & Hc & -> & [He|(e' & He)])];
          try discriminate.
        -- right; right; left. eauto.
        -- right; right; right. exists m, called. eauto.
    + rewrite <- !app_assoc. simpl. exists []. split; [reflexivity|]. left. auto.
  - rewrite <- !app_assoc. simpl. exists []. split; [reflexivity|]. left. auto.
Qed.

Lemma notifyApplicationReady_shape r :
  exists n,
    notified n
    /\ activity (snd (notifyApplicationReady r)) = activity r ++ n.
Proof.
  rewrite notifyApplicationReady_unfold.
  destruct (notifyApplicationReadyPromise r).
  - exists []. split; [now left | now rewrite app_nil_r].
  - exists [NativeNotifyApplicationReady]. split; [now right|]. simpl.
    apply notifyApplicationReadyInternal_spec.
Qed.

Lemma liftW_activity {A} (m : M A) r : activity (snd (liftW m r)) = activity r.
Proof. unfold liftW. now destruct (m (world r)). Qed.

(** The part of [syncInternal] inside its [try]. *)
Lemma syncInternal_try_shape syncOptions callback progress mismatch r :
  let body :=
    (notifyApplicationReady ;;
     syncStatusChangeCallback callback syncOptions CHECKING_FOR_UPDATE ;;
     remotePackage <- liftW (checkForUpdate (sync_deploymentKey syncOptions) mismatch) ;;
     updateShouldBeIgnored <- liftW (shouldUpdateBeIgnored remotePackage syncOptions) ;;
     if negb (is_some remotePackage) || updateShouldBeIgnored then
       (if updateShouldBeIgnored
        then liftW (log "An update is available, but it is being ignored due to having been previously rolled back.")
        else retR tt) ;;
       currentPackage <- liftW getCurrentPackage ;;
       if isPending currentPackage then
         syncStatusChangeCallback callback syncOptions UPDATE_INSTALLED ;;
         retR (Finished UPDATE_INSTALLED)
       else
         syncStatusChangeCallback callback syncOptions UP_TO_DATE ;;
         retR (Finished UP_TO_DATE)
     else
       match remotePackage with
       | None => throwR (mkError "TypeError" "remotePackage is null")
       | Some package =>
           if truthy (sync_updateDialog syncOptions) then
             awaitUserAction callback progress syncOptions package
           else
             status <- doDownloadAndInstall callback progress syncOptions package ;;
             retR (Finished status)
       end)%run in
  exists acts,
    activity (snd (body r)) = activity r ++ acts
    /\ match fst (body r) with
       | Returns result => syncPath acts (Returns result)
       | Throws e => syncPath (acts ++ [StatusChanged UNKNOWN_ERROR]) (Throws e)
       end.
Proof.
  cbv zeta.
  destruct (notifyApplicationReady_shape r) as (n & Hn & Han).
  unfold bindR, liftW, retR, throwR. simpl.
  destruct (notifyApplicationReady r) as [[report|e] r1]; simpl in Han |- *;
    [|exists n; split; [assumption | now constructor]].
  signal.
  destruct (checkForUpdate _ _ _) as [[remotePackage|e] w1]; simpl;
    [|rewrite Han, <- app_assoc; eexists; split; [reflexivity|];
      rewrite <- app_assoc; now constructor].
  destruct (shouldUpdateBeIgnored _ _ _) as [[ignored|e] w2]; simpl;
    [|rewrite Han, <- app_assoc; eexists; split; [reflexivity|];
      rewrite <- app_assoc; now constructor].
  destruct (negb (is_some remotePackage) || ignored) eqn:Ec.
  - destruct ignored; simpl; run;
      (destruct (getCurrentPackage _) as [[currentPackage|e] w4]; simpl;
       [ destruct (isPending currentPackage); signal;
         rewrite Han, <- ?app_assoc; simpl;
         (eexists; split; [reflexivity|]; now constructor)
       | rewrite Han, <- app_assoc; eexists; split; [reflexivity|];
         rewrite <- app_assoc; now constructor ]).
  - destruct remotePackage as [package|]; [|discriminate].
    destruct (truthy (sync_updateDialog syncOptions)).
    + match goal with
      | |- context [awaitUserAction ?cb ?dcb ?o ?p ?r0] =>
          destruct (awaitUserAction_shape cb dcb o p r0)
            as (title & msg & appended & buttons & rest & Ha & Hs);
          destruct (awaitUserAction cb dcb o p r0) as [[result|e] r3]
      end; simpl in *.
      * rewrite Ha, Han, <- ?app_assoc. simpl. eexists. split; [reflexivity|].
        destruct Hs as [(-> & He)|[(-> & He)|[(-> & e & He)
                       |(m & called & Hc & -> & [He|(e & He)])]]];
          try discriminate; injection He as ->.
        -- now constructor.
        -- now constructor.
        -- apply (path_installed n
                    [StatusChanged AWAITING_USER_ACTION;
                     AlertShown title msg appended buttons]); auto.
           right. eauto.
      * rewrite Ha, Han, <- ?app_assoc. simpl. eexists. split; [reflexivity|].
        destruct Hs as [(-> & He)|[(-> & He)|[(-> & e' & He)
                       |(m & called & Hc & -> & [He|(e' & He)])]]];
          try discriminate.
        -- rewrite <- ?app_assoc. simpl.
           apply (path_download_failed n
                    [StatusChanged AWAITING_USER_ACTION;
                     AlertShown title msg appended buttons]); auto.
           right. eauto.
        -- rewrite <- ?app_assoc. simpl. rewrite <- ?app_assoc.
           apply (path_install_failed n
                    [StatusChanged AWAITING_USER_ACTION;
                     AlertShown title msg appended buttons]); auto.
           right. eauto.
    + match goal with
      | |- context [doDownloadAndInstall ?cb ?dcb ?o ?p ?r0] =>
          destruct (doDownloadAndInstall_shape cb dcb o p r0) as (acts & Ha & Hs);
          destruct (doDownloadAndInstall cb dcb o p r0) as [[status|e] r3]
      end; simpl in *.
      * rewrite Ha, Han, <- ?app_assoc. simpl. eexists. split; [reflexivity|].
        destruct Hs as [(-> & e & He)|(m & called & Hc & -> & [He|(e & He)])];
          try discriminate.
        injection He as ->.
        apply (path_installed n []); auto. now left.
      * rewrite Ha, Han, <- ?app_assoc. simpl. eexists. split; [reflexivity|].
        destruct Hs as [(-> & e' & He)|(m & called & Hc & -> & [He|(e' & He)])];
          try discriminate.
        -- rewrite <- ?app_assoc. simpl.
           apply (path_download_failed n []); auto. now left.
        -- rewrite <- ?app_assoc. simpl. rewrite <- ?app_assoc.
           apply (path_install_failed n []); auto. now left.
Qed.

Lemma syncInternalBody_unfold syncOptions callback progress mismatch r :
  syncInternalBody syncOptions callback progress mismatch r
  = try_catchR
      (notifyApplicationReady ;;
       syncStatusChangeCallback callback syncOptions CHECKING_FOR_UPDATE ;;
       remotePackage <- liftW (checkForUpdate (sync_deploymentKey syncOptions) mismatch) ;;
       updateShouldBeIgnored <- liftW (shouldUpdateBeIgnored remotePackage syncOptions) ;;
       if negb (is_some remotePackage) || updateShouldBeIgnored then
         (if updateShouldBeIgnored
          then liftW (log "An update is available, but it is being ignored due to having been previously rolled back.")
          else retR tt) ;;
         currentPackage <- liftW getCurrentPackage ;;
         if isPending currentPackage then
           syncStatusChangeCallback callback syncOptions UPDATE_INSTALLED ;;
           retR (Finished UPDATE_INSTALLED)
         else
           syncStatusChangeCallback callback syncOptions UP_TO_DATE ;;
           retR (Finished UP_TO_DATE)
       else
         match remotePackage with
         | None => throwR (mkError "TypeError" "remotePackage is null")
         | Some package =>
             if truthy (sync_updateDialog syncOptions) then
               awaitUserAction callback progress syncOptions package
             else
               status <- doDownloadAndInstall callback progress syncOptions package ;;
               retR (Finished status)
         end)%run
      (fun error =>
         syncStatusChangeCallback callback syncOptions UNKNOWN_ERROR ;;
         liftW (log (message error)) ;;
         throwR error)%run
      (set_resolvedInstallMode undefined r).
Proof. reflexivity. Qed.

Ltac no_unknown_error :=
  let K := fresh "K" in
  intros K; repeat (rewrite in_app_iff in K; simpl in K);
  simpl in K;
  repeat match type of K with
         | _ \/ _ => destruct K as [K|K]
         end;
  try discriminate; try contradiction;
  match goal with
  | H : notified ?n, K : In _ ?n |- _ =>
      destruct H as [->| ->]; simpl in K; intuition discriminate
  | H : dialogue ?a, K : In _ ?a |- _ =>
      destruct H as [->|(? & ? & ? & ? & ->)]; simpl in K; intuition discriminate
  | H : calledBack ?c, K : In _ ?c |- _ =>
      destruct H as [->| ->]; simpl in K; intuition discriminate
  end.

Lemma syncPath_throws acts e :
  syncPath acts (Throws e) ->
  exists before,
    acts = before ++ [StatusChanged UNKNOWN_ERROR]
    /\ ~ In (StatusChanged UNKNOWN_ERROR) before.
Proof.
  inversion 1; subst.
  - exists n. split; [reflexivity | no_unknown_error].
  - exists (n ++ [StatusChanged CHECKING_FOR_UPDATE]). split.
    + now rewrite <- app_assoc.
    + no_unknown_error.
  - exists (n ++ StatusChanged CHECKING_FOR_UPDATE :: asked
              ++ [StatusChanged DOWNLOADING_PACKAGE; Download remotePackage progress]).
    split.
    + rewrite <- !app_assoc. simpl. rewrite <- !app_assoc. reflexivity.
    + no_unknown_error.
  - exists (n ++ StatusChanged CHECKING_FOR_UPDATE :: asked
              ++ [StatusChanged DOWNLOADING_PACKAGE; Download remotePackage progress;
                  StatusChanged INSTALLING_UPDATE; Install installMode duration]
              ++ called).
    split.
    + rewrite <- !app_assoc. simpl. rewrite <- !app_assoc. reflexivity.
    + no_unknown_error.
Qed.

Lemma syncPath_returns acts result :
  syncPath acts (Returns result) -> ~ In (StatusChanged UNKNOWN_ERROR) acts.
Proof.
  inversion 1; subst; no_unknown_error.
Qed.

Lemma syncInternalBody_shape syncOptions callback progress mismatch r :
  let result := syncInternalBody syncOptions callback progress mismatch r in
  exists acts,
    activity (snd result) = activity r ++ acts
    /\ syncPath acts (fst result)
    /\ forall e, fst result = Throws e ->
         exists t, trace (world (snd result)) = t ++ [Log (message e)].
Proof.
  intros result. unfold result. clear result.
  rewrite syncInternalBody_unfold. unfold try_catchR.
  match goal with
  | |- context [let (_, _) := ?body ?r0 in _] =>
      destruct (syncInternal_try_shape syncOptions callback progress mismatch r0)
        as (acts & Ha & Hs);
      cbv zeta in Ha, Hs;
      destruct (body r0) as [[res|e] r1]
  end; simpl in Ha, Hs |- *.
  - exists acts. split; [assumption|]. split; [assumption | discriminate].
  - unfold bindR, liftW, throwR. signal. run.
    exists (acts ++ [StatusChanged UNKNOWN_ERROR]).
    split; [now rewrite Ha, app_assoc|]. split; [assumption|].
    intros e' [= <-]. eexists. reflexivity.
Qed.

(** X24. The courses of a run of [syncInternal].  Whatever the options,
    the callbacks and the outside, what a run does is one of nine
    sequences: the native side is told the app is ready at most once
    and first; [CHECKING_FOR_UPDATE] is the first status signalled
    unless the run fails before; the run then ends up to date, or with
    a pending update, or shows the update dialog and waits, is ignored,
    or downloads and installs, [DOWNLOADING_PACKAGE] being signalled
    right before the download and [INSTALLING_UPDATE] right before the
    install.  A run that rejects signals [UNKNOWN_ERROR] once, as its
    last status, and logs the message of the error last; a run that
    returns or waits never signals [UNKNOWN_ERROR]. *)
Theorem syncInternal_courses
    (syncOptions : SyncOptions)
    (callback downloadProgressCallback handleBinaryVersionMismatchCallback : value)
    (r : Run) :
  let result :=
    syncInternalBody syncOptions callback downloadProgressCallback
      handleBinaryVersionMismatchCallback r in
  exists acts,
    activity (snd result) = activity r ++ acts
    /\ syncPath acts (fst result)
    /\ match fst result with
       | Throws e =>
           (exists before,
              acts = before ++ [StatusChanged UNKNOWN_ERROR]
              /\ ~ In (StatusChanged UNKNOWN_ERROR) before)
           /\ exists t, trace (world (snd result)) = t ++ [Log (message e)]
       | Returns _ => ~ In (StatusChanged UNKNOWN_ERROR) acts
       end.
Proof.
  intros result.
  destruct (syncInternalBody_shape syncOptions callback downloadProgressCallback
              handleBinaryVersionMismatchCallback r) as (acts & Ha & Hs & Hlog).
  fold result in Ha, Hs, Hlog.
  exists acts. split; [assumption|]. split; [assumption|].
  destruct (fst result) as [res|e].
  - eapply syncPath_returns; eauto.
  - split; [eapply syncPath_throws; eauto | auto].
Qed.

(** The courses at work: no update; an optional update, installed
    without a dialog; the same update offered in the default dialog,
    which the user ignores. *)
Example syncInternal_runs :
  let update := sampleUpdate undefined (str "hash-2") in
  let e answer := sampleEnv (sampleConfiguration (str "key")) None answer None 0 in
  let options dialog :=
    mkSyncOptions null (boolean true) (Prim null) (num (Fin 1)) (num (Fin 0))
      (num (Fin 0)) dialog in
  let ignore :=
    mkDevice (Returns tt) (fun _ _ => Returns (mkDownloadedPackage (boolean false)))
      (Returns tt) true (Some 0%nat) (num (Fin 1)) (num (Fin 2)) (fun _ => NaN) in
  let run answer dialog device :=
    syncInternalBody (options dialog) (Function 5) (Prim undefined) (Prim undefined)
      (freshRun (e answer) device) in
  (fst (run None (Prim null) sampleDevice) = Returns (Finished UP_TO_DATE)
   /\ activity (snd (run None (Prim null) sampleDevice))
      = [NativeNotifyApplicationReady; StatusChanged CHECKING_FOR_UPDATE;
         StatusChanged UP_TO_DATE])
  /\ (fst (run (Some update) (Prim null) sampleDevice)
      = Returns (Finished UPDATE_INSTALLED)
      /\ exists package,
           activity (snd (run (Some update) (Prim null) sampleDevice))
           = [NativeNotifyApplicationReady; StatusChanged CHECKING_FOR_UPDATE;
              StatusChanged DOWNLOADING_PACKAGE; Download package (Prim undefined);
              StatusChanged INSTALLING_UPDATE; Install (num (Fin 1)) (num (Fin 0));
              StatusChanged UPDATE_INSTALLED])
  /\ (fst (run (Some update) (Prim (boolean true)) ignore)
      = Returns (Finished UPDATE_IGNORED)
      /\ activity (snd (run (Some update) (Prim (boolean true)) ignore))
         = [NativeNotifyApplicationReady; StatusChanged CHECKING_FOR_UPDATE;
            StatusChanged AWAITING_USER_ACTION;
            AlertShown (Prim (str "Update available"))
              (Prim (str "An update is available. Would you like to install it?"))
              None
              [IgnoreButton (Prim (str "Ignore")); InstallButton (Prim (str "Install"))];
            StatusChanged UPDATE_IGNORED]).
Proof.
  split; [split; reflexivity|]. split.
  - split; [reflexivity|]. eexists. reflexivity.
  - split; reflexivity.
Qed.

(** What a status signal does to the world: events of the callback or
    of the log, nothing else. *)
Lemma signal_world callback syncOptions status r :
  exists events,
    forallb signalEvent events = true
    /\ syncStatusChangeCallback callback syncOptions status r
       = (Returns tt,
          mkRun (set_trace (fun t => t ++ events) (world r))
            (notifyApplicationReadyPromise r) (resolvedInstallMode r)
            (activity r ++ [StatusChanged status]) (device r)).
Proof.
  assert (Hnil : forall w, w = set_trace (fun t => t ++ []) w).
  { intros w. destruct w; unfold set_trace; simpl. now rewrite app_nil_r. }
  unfold syncStatusChangeCallback. runR.
  destruct callback as [p|props|id].
  - unfold defaultStatusLog.
    destruct status; run;
      repeat match goal with
             | |- context [if ?c then _ else _] => destruct c; run
             end;
      first [ eexists; split; [|reflexivity]; reflexivity
            | exists []; split; [reflexivity|]; now rewrite <- Hnil ].
  - unfold defaultStatusLog.
    destruct status; run;
      repeat match goal with
             | |- context [if ?c then _ else _] => destruct c; run
             end;
      first [ eexists; split; [|reflexivity]; reflexivity
            | exists []; split; [reflexivity|]; now rewrite <- Hnil ].
  - unfold syncStatusCallbackWithTryCatch. run.
    destruct (fails (env (world r)) (Callback id)); simpl.
    + eexists [_; _]. split; cycle 1.
      * unfold set_trace. simpl. rewrite <- app_assoc. reflexivity.
      * reflexivity.
    + eexists. split; [|reflexivity]. reflexivity.
Qed.

(** X25. A failed [notifyApplicationReady] fails every later sync.  Once
    the promise kept by [notifyApplicationReady] is a rejected one, a
    run of [syncInternal] rejects with the same error after signalling
    [UNKNOWN_ERROR] and logging the message: it asks no backend, and
    besides the events of that signal and the log line it leaves the
    module as it was. *)
Theorem syncInternal_after_failed_notify
    (syncOptions : SyncOptions)
    (callback downloadProgressCallback handleBinaryVersionMismatchCallback : value)
    (r : Run) (e : Error) :
  notifyApplicationReadyPromise r = Some (Throws e) ->
  exists events,
    forallb signalEvent events = true
    /\ syncInternalBody syncOptions callback downloadProgressCallback
         handleBinaryVersionMismatchCallback r
       = (Throws e,
          mkRun (set_trace (fun t => t ++ events ++ [Log (message e)]) (world r))
            (Some (Throws e)) undefined
            (activity r ++ [StatusChanged UNKNOWN_ERROR]) (device r)).
Proof.
  intros Hp. rewrite syncInternalBody_unfold.
  unfold try_catchR. unfold bindR at 1.
  rewrite notifyApplicationReady_unfold. simpl. rewrite Hp.
  unfold bindR, liftW, throwR.
  match goal with
  | |- context [syncStatusChangeCallback ?cb ?o ?s ?r0] =>
      destruct (signal_world cb o s r0) as (events & Hev & ->)
  end.
  simpl. run. exists events. split; [assumption|].
  unfold set_world, set_trace. simpl. now rewrite <- app_assoc, Hp.
Qed.

Lemma syncInternal_after_failed_notify_witness :
  let failure := mkError "Error" "native module missing" in
  let d :=
    mkDevice (Throws failure) (fun _ _ => Throws (mkError "Error" "offline"))
      (Returns tt) true None (num (Fin 1)) (num (Fin 2)) (fun _ => NaN) in
  let r := snd (notifyApplicationReady
                  (freshRun (sampleEnv (sampleConfiguration (str "key")) None None None 0) d)) in
  exists events,
    forallb signalEvent events = true
    /\ syncInternalBody (sampleSyncOptions (Prim null)) (Function 5) (Prim undefined)
         (Prim undefined) r
       = (Throws failure,
          mkRun (set_trace (fun t => t ++ events ++ [Log (message failure)]) (world r))
            (Some (Throws failure)) undefined
            (activity r ++ [StatusChanged UNKNOWN_ERROR]) (device r)).
Proof.
  intros failure d r.
  apply (syncInternal_after_failed_notify (sampleSyncOptions (Prim null)) (Function 5)
           (Prim undefined) (Prim undefined) r failure).
  reflexivity.
Defined.

(** X26. [doDownloadAndInstall] installs in the mode the downloaded
    package decides: [mandatoryInstallMode] when the local package the
    download resolved to is mandatory, [installMode] otherwise, with
    [minimumBackgroundDuration]; [resolvedInstallMode] holds that mode
    from then on.  [DOWNLOADING_PACKAGE] is signalled before the
    download and [INSTALLING_UPDATE] before the install;
    [UPDATE_INSTALLED] is signalled only by the callback handed to
    [install], yet it is the status returned whenever [install]
    resolves.  When the download rejects nothing is installed and
    [resolvedInstallMode] is not assigned. *)
Theorem doDownloadAndInstall_install_mode
    (callback downloadProgressCallback : value) (syncOptions : SyncOptions)
    (remotePackage : RemotePackage) (r : Run) :
  let result :=
    doDownloadAndInstall callback downloadProgressCallback syncOptions remotePackage r in
  (forall e, download (device r) remotePackage downloadProgressCallback = Throws e ->
     fst result = Throws e
     /\ activity (snd result)
        = activity r
          ++ [StatusChanged DOWNLOADING_PACKAGE;
              Download remotePackage downloadProgressCallback]
     /\ resolvedInstallMode (snd result) = resolvedInstallMode r)
  /\ (forall localPackage,
        download (device r) remotePackage downloadProgressCallback
        = Returns localPackage ->
        let mode :=
          if truthy_prim (downloaded_isMandatory localPackage)
          then sync_mandatoryInstallMode syncOptions
          else sync_installMode syncOptions in
        resolvedInstallMode (snd result) = mode
        /\ activity (snd result)
           = activity r
             ++ [StatusChanged DOWNLOADING_PACKAGE;
                 Download remotePackage downloadProgressCallback;
                 StatusChanged INSTALLING_UPDATE;
                 Install mode (sync_minimumBackgroundDuration syncOptions)]
             ++ (if installCallsBack (device r)
                 then [StatusChanged UPDATE_INSTALLED] else [])
        /\ fst result
           = match install (device r) with
             | Returns _ => Returns UPDATE_INSTALLED
             | Throws e => Throws e
             end).
Proof.
  intros result. unfold result, doDownloadAndInstall. clear result.
  unfold bindR, act, readR, modifyR, await, retR. simpl.
  signal. split.
  - intros e ->. simpl. rewrite <- app_assoc. repeat split.
  - intros localPackage ->. simpl. signal.
    destruct (installCallsBack (device r)); simpl.
    + signal. destruct (install (device r)) as [[]|e]; simpl;
        rewrite <- !app_assoc; repeat split.
    + destruct (install (device r)) as [[]|e]; simpl;
        rewrite <- !app_assoc; repeat split.
Qed.

Lemma doDownloadAndInstall_install_mode_witness :
  let options :=
    mkSyncOptions null (boolean true) (Prim null) (num (Fin 1)) (num (Fin 0))
      (num (Fin 30)) (Prim null) in
  let package := mkRemotePackage (sampleUpdate undefined (str "hash-2")) false in
  let d :=
    mkDevice (Returns tt) (fun _ _ => Returns (mkDownloadedPackage (boolean true)))
      (Returns tt) false None (num (Fin 1)) (num (Fin 2)) (fun _ => NaN) in
  let r := freshRun (sampleEnv (sampleConfiguration (str "key")) None None None 0) d in
  let result := doDownloadAndInstall (Function 5) (Function 6) options package r in
  resolvedInstallMode (snd result) = num (Fin 0)
  /\ activity (snd result)
     = [StatusChanged DOWNLOADING_PACKAGE; Download package (Function 6);
        StatusChanged INSTALLING_UPDATE; Install (num (Fin 0)) (num (Fin 30))]
  /\ fst result = Returns UPDATE_INSTALLED.
Proof.
  intros options package d r result.
  apply (proj2 (doDownloadAndInstall_install_mode (Function 5) (Function 6) options
                  package r)
           (mkDownloadedPackage (boolean true))).
  reflexivity.
Defined.

(** X27. The update dialog.  [AWAITING_USER_ACTION] is signalled and the
    alert shown, with a message that ends with the description of the
    update only when the dialog asks for it and the update has one.
    For a mandatory update the alert has the one button that installs,
    so the update cannot be ignored; for an optional update the button
    that ignores comes first and the one that installs last, and a
    press on the first signals and returns [UPDATE_IGNORED] with
    nothing downloaded.  While no button is pressed the run neither
    returns nor throws.  A dialog option that is truthy but not an
    object shows the default texts. *)
Theorem awaitUserAction_dialog
    (callback downloadProgressCallback : value) (syncOptions : SyncOptions)
    (remotePackage : RemotePackage) (r : Run) :
  let result :=
    awaitUserAction callback downloadProgressCallback syncOptions remotePackage r in
  let updateDialog := withDefaultUpdateDialog (sync_updateDialog syncOptions) in
  let update := remote_update remotePackage in
  exists message appended dialogButtons rest,
    activity (snd result)
    = activity r
      ++ [StatusChanged AWAITING_USER_ACTION;
          AlertShown (get updateDialog "title") message appended dialogButtons]
      ++ rest
    /\ (appended <> None <->
        truthy (get updateDialog "appendReleaseDescription") = true
        /\ truthy_prim (update_description update) = true)
    /\ (truthy_prim (update_isMandatory update) = true ->
        message = get updateDialog "mandatoryUpdateMessage"
        /\ dialogButtons
           = [InstallButton (get updateDialog "mandatoryContinueButtonLabel")]
        /\ fst result <> Returns (Finished UPDATE_IGNORED))
    /\ (truthy_prim (update_isMandatory update) = false ->
        message = get updateDialog "optionalUpdateMessage"
        /\ dialogButtons
           = [IgnoreButton (get updateDialog "optionalIgnoreButtonLabel");
              InstallButton (get updateDialog "optionalInstallButtonLabel")]
        /\ (pressed (device r) = Some 0%nat ->
            rest = [StatusChanged UPDATE_IGNORED]
            /\ fst result = Returns (Finished UPDATE_IGNORED)))
    /\ (pressed (device r) = None -> rest = [] /\ fst result = Returns AwaitingUser)
    /\ (String.eqb (typeof (sync_updateDialog syncOptions)) "object" = false ->
        updateDialog = DEFAULT_UPDATE_DIALOG).
Proof.
  intros result updateDialog update.
  unfold result, awaitUserAction. clear result. cbv zeta.
  fold updateDialog. fold update.
  unfold bindR, act, readR, modifyR, await, retR. simpl.
  signal.
  assert (Happ : forall (c : bool) (x : value * prim),
            (if c then Some x else None) <> None <-> c = true).
  { intros [|] x; split; congruence. }
  assert (Hdefault :
            String.eqb (typeof (sync_updateDialog syncOptions)) "object" = false ->
            updateDialog = DEFAULT_UPDATE_DIALOG).
  { intros H. unfold updateDialog, withDefaultUpdateDialog. now rewrite H. }
  destruct (truthy_prim (update_isMandatory update)) eqn:Em; simpl.
  - destruct (pressed (device r)) as [[|i]|]; simpl.
    + match goal with
      | |- context [doDownloadAndInstall ?cb ?dcb ?o ?p ?r0] =>
          destruct (doDownloadAndInstall_shape cb dcb o p r0) as (acts & Ha & Hs);
          destruct (doDownloadAndInstall cb dcb o p r0) as [[status|e] r1]
      end; simpl in *;
        (do 3 eexists; exists acts; split; [rewrite Ha, <- !app_assoc; reflexivity|];
         split; [rewrite Happ, andb_true_iff; reflexivity|];
         split; [intros _; repeat split;
                 destruct Hs as [(_ & ? & He)|(? & ? & _ & _ & [He|(? & He)])];
                 congruence|];
         split; [discriminate|]; split; [discriminate | exact Hdefault]).
    + do 3 eexists. exists []. split; [rewrite <- !app_assoc; simpl; reflexivity|].
      split; [rewrite Happ, andb_true_iff; reflexivity|].
      split; [intros _; repeat split; discriminate|].
      split; [discriminate|]. split; [discriminate | exact Hdefault].
    + do 3 eexists. exists []. split; [rewrite <- !app_assoc; simpl; reflexivity|].
      split; [rewrite Happ, andb_true_iff; reflexivity|].
      split; [intros _; repeat split; discriminate|].
      split; [discriminate|]. split; [auto | exact Hdefault].
  - destruct (pressed (device r)) as [[|[|i]]|]; simpl.
    + signal. do 3 eexists. exists [StatusChanged UPDATE_IGNORED].
      split; [rewrite <- !app_assoc; simpl; reflexivity|].
      split; [rewrite Happ, andb_true_iff; reflexivity|].
      split; [discriminate|].
      split; [intros _; repeat split|]. split; [discriminate | exact Hdefault].
    + match goal with
      | |- context [doDownloadAndInstall ?cb ?dcb ?o ?p ?r0] =>
          destruct (doDownloadAndInstall_shape cb dcb o p r0) as (acts & Ha & Hs);
          destruct (doDownloadAndInstall cb dcb o p r0) as [[status|e] r1]
      end; simpl in *;
        (do 3 eexists; exists acts; split; [rewrite Ha, <- !app_assoc; reflexivity|];
         split; [rewrite Happ, andb_true_iff; reflexivity|];
         split; [discriminate|];
         split; [intros _; repeat split; discriminate|];
         split; [discriminate | exact Hdefault]).
    + do 3 eexists. exists []. split; [rewrite <- !app_assoc; simpl; reflexivity|].
      split; [rewrite Happ, andb_true_iff; reflexivity|].
      split; [discriminate|].
      split; [intros _; repeat split; discriminate|].
      split; [discriminate | exact Hdefault].
    + do 3 eexists. exists []. split; [rewrite <- !app_assoc; simpl; reflexivity|].
      split; [rewrite Happ, andb_true_iff; reflexivity|].
      split; [discriminate|].
      split; [intros _; repeat split; discriminate|].
      split; [auto | exact Hdefault].
Qed.

Lemma awaitUserAction_dialog_witness :
  let update :=
    mkRemoteUpdate undefined (str "1.0.0") (str "key") (str "Fixes") (str "v2")
      (boolean true) (str "hash-2") (num (Fin 100)) (str "https://host/v2.zip") in
  let options :=
    mkSyncOptions null (boolean true) (Prim null) (num (Fin 1)) (num (Fin 0))
      (num (Fin 0)) (Prim (boolean true)) in
  let d :=
    mkDevice (Returns tt) (fun _ _ => Returns (mkDownloadedPackage (boolean true)))
      (Returns tt) true None (num (Fin 1)) (num (Fin 2)) (fun _ => NaN) in
  let r := freshRun (sampleEnv (sampleConfiguration (str "key")) None None None 0) d in
  let result :=
    awaitUserAction (Function 5) (Prim undefined) options
      (mkRemotePackage update false) r in
  exists appended rest,
    activity (snd result)
    = [StatusChanged AWAITING_USER_ACTION;
       AlertShown (Prim (str "Update available"))
         (Prim (str "An update is available that must be installed.")) appended
         [InstallButton (Prim (str "Continue"))]] ++ rest
    /\ fst result <> Returns (Finished UPDATE_IGNORED).
Proof.
  intros update options d r result.
  destruct (awaitUserAction_dialog (Function 5) (Prim undefined) options
              (mkRemotePackage update false) r)
    as (message & appended & dialogButtons & rest & Ha & _ & Hm & _).
  destruct (Hm eq_refl) as (-> & -> & Hne).
  exists appended, rest. split; [exact Ha | exact Hne].
Defined.

(** *** [codePushify] *)

(** X28. [codePushify] never returns a decorator.  Whatever the options
    and whatever [React] is found, the call throws, and it leaves
    [sharedCodePushOptions] as it was, so that [updateChecker] and
    [bundleHost] stay [undefined]: without [React] or its [Component]
    class it throws the error that says so, and with them the call of
    [sharedCodePushOptions.setBundleHost], a property the object does
    not have, throws a [TypeError] before [setUpdateChecker] is
    reached. *)
Theorem codePushify_throws
    (requireReact ReactNativeReact : completion value) (options : value) :
  let result :=
    codePushify requireReact ReactNativeReact options sharedCodePushOptions in
  (exists e, fst result = Throws e)
  /\ snd result = sharedCodePushOptions
  /\ (forall props,
        requireReact = Returns (Object props) ->
        truthy (get props "Component") = true ->
        exists e, fst result = Throws e /\ name e = "TypeError").
Proof.
  intros result. unfold result, codePushify. clear result. cbv zeta.
  assert (Hm : method sharedCodePushOptions "setBundleHost"
               = Throws (mkError "TypeError" "setBundleHost is not a function"))
    by reflexivity.
  split; [|split].
  - repeat match goal with
           | |- context [if ?c then _ else _] => destruct c
           | |- context [match property ?v ?k with _ => _ end] =>
               destruct (property v k)
           end; try (eexists; reflexivity);
      rewrite Hm; eexists; reflexivity.
  - repeat match goal with
           | |- context [if ?c then _ else _] => destruct c
           | |- context [match property ?v ?k with _ => _ end] =>
               destruct (property v k)
           end; try reflexivity; rewrite Hm; reflexivity.
  - intros props -> Hc. simpl. rewrite Hc. simpl.
    destruct (property _ "bundleHost") as [bundleHost|e] eqn:Eb.
    + rewrite Hm. eexists. split; reflexivity.
    + exists e. split; [reflexivity|].
      destruct options as [[]| |]; simpl in Eb; try discriminate;
        injection Eb as <-; reflexivity.
Qed.

Lemma codePushify_throws_witness :
  let React := Object {[ "Component" := Function 9 ]} in
  exists e,
    fst (codePushify (Returns React) (Returns (Prim undefined))
           (Object {[ "updateChecker" := Function 3 ]}) sharedCodePushOptions)
    = Throws e
    /\ name e = "TypeError".
Proof.
  intros React.
  apply (proj2 (proj2 (codePushify_throws (Returns React) (Returns (Prim undefined))
                         (Object {[ "updateChecker" := Function 3 ]})))
           {[ "Component" := Function 9 ]}); reflexivity.
Defined.

(** *** A call of [sync] with its run *)

Lemma sameSync_refl w : sameSync w w.
Proof. repeat split. Qed.

Lemma sameSync_trans w1 w2 w3 : sameSync w1 w2 -> sameSync w2 w3 -> sameSync w1 w3.
Proof. intros (A1 & B1 & C1) (A2 & B2 & C2). repeat split; congruence. Qed.

Lemma keepsSync_quiet allowed {A} (m : M A) : quiet allowed m -> keepsSync m.
Proof. intros H w. destruct (H w) as [(_ & S & P & J & _) _]. repeat split; assumption. Qed.

Lemma keepsSync_bind {A B} (m : M A) (k : A -> M B) :
  keepsSync m -> (forall a, keepsSync (k a)) -> keepsSync (bind m k).
Proof.
  intros Hm Hk w. unfold bind. specialize (Hm w).
  destruct (m w) as [[a|e] w']; simpl in *; [|assumption].
  eapply sameSync_trans; [eassumption | apply Hk].
Qed.

Lemma keepsSync_try_catch {A} (m : M A) (h : Error -> M A) :
  keepsSync m -> (forall e, keepsSync (h e)) -> keepsSync (try_catch m h).
Proof.
  intros Hm Hh w. unfold try_catch. specialize (Hm w).
  destruct (m w) as [[a|e] w']; simpl in *; [assumption|].
  eapply sameSync_trans; [eassumption | apply Hh].
Qed.

Lemma keepsSync_modify f :
  (forall w, sameSync w (f w)) -> keepsSync (modify f).
Proof. intros H w. apply H. Qed.

Lemma keepsSync_emit e : keepsSync (emit e).
Proof. intros w. repeat split. Qed.

Lemma keepsSync_tryReportStatus statusReport retryOnAppResume :
  keepsSync (tryReportStatus statusReport retryOnAppResume).
Proof.
  assert (Q : forall A (m : M A), quiet (fun _ => true) m -> keepsSync m)
    by (intros A m; apply keepsSync_quiet).
  unfold tryReportStatus, getPromisifiedSdk, sdk_reportStatusDeploy,
    assign_deploymentKey, removeListener, addEventListener.
  repeat match goal with
         | |- keepsSync getConfiguration => apply Q; apply quiet_getConfiguration
         | |- keepsSync (bind _ _) => apply keepsSync_bind; [|intros ?]
         | |- keepsSync (try_catch _ _) => apply keepsSync_try_catch; [|intros ?]
         | |- keepsSync (emit _) => apply keepsSync_emit
         | |- keepsSync (modify _) =>
             apply keepsSync_modify; intros ?; solve [repeat split]
         | |- keepsSync (match ?x with _ => _ end) => destruct x
         | |- keepsSync (if ?x then _ else _) => destruct x
         | |- keepsSync (let _ := _ in _) => cbv zeta
         | |- keepsSync _ => apply Q; solve [auto with quiet]
         end.
Qed.

Lemma keepsSyncR_bind {A B} (m : R A) (k : A -> R B) :
  keepsSyncR m -> (forall a, keepsSyncR (k a)) -> keepsSyncR (bindR m k).
Proof.
  intros Hm Hk r. unfold bindR. specialize (Hm r).
  destruct (m r) as [[a|e] r']; simpl in *; [|assumption].
  eapply sameSync_trans; [eassumption | apply Hk].
Qed.

Lemma keepsSyncR_try_catch {A} (m : R A) (h : Error -> R A) :
  keepsSyncR m -> (forall e, keepsSyncR (h e)) -> keepsSyncR (try_catchR m h).
Proof.
  intros Hm Hh r. unfold try_catchR. specialize (Hm r).
  destruct (m r) as [[a|e] r']; simpl in *; [assumption|].
  eapply sameSync_trans; [eassumption | apply Hh].
Qed.

Lemma keepsSyncR_liftW {A} (m : M A) : keepsSync m -> keepsSyncR (liftW m).
Proof.
  intros H r. unfold liftW. specialize (H (world r)).
  now destruct (m (world r)).
Qed.

Lemma keepsSyncR_here {A} (m : R A) :
  (forall r, world (snd (m r)) = world r) -> keepsSyncR m.
Proof. intros H r. rewrite H. apply sameSync_refl. Qed.

Lemma keepsSyncR_signal callback syncOptions status :
  keepsSyncR (syncStatusChangeCallback callback syncOptions status).
Proof.
  intros r. destruct (signal_world callback syncOptions status r) as (events & _ & ->).
  repeat split.
Qed.

Lemma keepsSyncR_notifyApplicationReady : keepsSyncR notifyApplicationReady.
Proof.
  intros r. rewrite notifyApplicationReady_unfold.
  destruct (notifyApplicationReadyPromise r); [apply sameSync_refl|]. simpl.
  pose proof (notifyApplicationReadyInternal_spec r) as (_ & _ & _ & _ & H).
  destruct (nativeNotifyApplicationReady (device r)).
  - destruct (fails (env (world r)) GetNewStatusReport).
    + destruct H as [_ ->]. apply sameSync_refl.
    + destruct H as [_ ->].
      destruct (newStatusReport (env (world r))); [|apply sameSync_refl].
      apply keepsSync_tryReportStatus.
  - destruct H as [_ ->]. apply sameSync_refl.
Qed.

Ltac keeps_step :=
  match goal with
  | |- keepsSyncR (bindR _ _) => apply keepsSyncR_bind; [|intros ?]
  | |- keepsSyncR (try_catchR _ _) => apply keepsSyncR_try_catch; [|intros ?]
  | |- keepsSyncR (syncStatusChangeCallback _ _ _) => apply keepsSyncR_signal
  | |- keepsSyncR notifyApplicationReady => apply keepsSyncR_notifyApplicationReady
  | |- keepsSyncR (liftW _) => apply keepsSyncR_liftW
  | |- keepsSyncR (match ?x with _ => _ end) => destruct x
  | |- keepsSyncR (if ?x then _ else _) => destruct x
  | |- keepsSyncR (let _ := _ in _) => cbv zeta
  | |- keepsSyncR _ => solve [apply keepsSyncR_here; intros ?; reflexivity]
  end.

Lemma keepsSyncR_doDownloadAndInstall callback progress syncOptions remotePackage :
  keepsSyncR (doDownloadAndInstall callback progress syncOptions remotePackage).
Proof. unfold doDownloadAndInstall. repeat keeps_step. Qed.

Lemma keepsSyncR_awaitUserAction callback progress syncOptions remotePackage :
  keepsSyncR (awaitUserAction callback progress syncOptions remotePackage).
Proof.
  unfold awaitUserAction. cbv zeta.
  repeat first [ apply keepsSyncR_doDownloadAndInstall | keeps_step ].
Qed.

Lemma keepsSyncR_syncInternalBody syncOptions callback progress mismatch :
  keepsSyncR (syncInternalBody syncOptions callback progress mismatch).
Proof.
  unfold syncInternalBody.
  repeat first
    [ apply keepsSyncR_doDownloadAndInstall
    | apply keepsSyncR_awaitUserAction
    | keeps_step
    | eapply keepsSync_quiet; apply quiet_checkForUpdate
    | eapply keepsSync_quiet; apply quiet_shouldUpdateBeIgnored
    | eapply keepsSync_quiet; apply (quiet_getUpdateMetadata (fun _ => true))
    | apply keepsSync_emit ].
Qed.

(** X29. A call of [sync] with its run, end to end.  When no sync is in
    progress and the job queue is empty, [sync] returns the promise of
    a new run; once the body of [syncInternal] has returned a status,
    the promise is fulfilled with that status, and once it has thrown,
    the promise is rejected with that error, and in both cases the
    jobs of the settlement have cleared the [syncInProgress] flag.
    While the body waits for the user to answer the update dialog the
    promise stays pending and the flag stays set, so that every other
    call of [sync] is answered [SYNC_IN_PROGRESS]. *)
Theorem sync_run_settles
    (options : SyncOptions)
    (syncStatusChangeCallback downloadProgressCallback
     handleBinaryVersionMismatchCallback : value) (turns : nat) (r : Run) :
  syncInProgress (world r) = false ->
  jobs (world r) = [] ->
  (2 <= turns)%nat ->
  let syncPromise := length (promises (world r)) in
  let outcome :=
    fst (syncInternalBody options syncStatusChangeCallback downloadProgressCallback
           handleBinaryVersionMismatchCallback
           (set_world (started (world r)) r)) in
  let result :=
    syncThenRun options syncStatusChangeCallback downloadProgressCallback
      handleBinaryVersionMismatchCallback turns r in
  let w' := world (snd result) in
  fst result = Returns syncPromise
  /\ match outcome with
     | Returns (Finished status) =>
         promises w' !! syncPromise = Some (Settled (Fulfilled (Some status)))
         /\ syncInProgress w' = false
     | Returns AwaitingUser =>
         promises w' !! syncPromise = Some (Pending [thenReaction syncPromise])
         /\ syncInProgress w' = true
     | Throws e =>
         promises w' !! syncPromise = Some (Settled (Rejected e))
         /\ syncInProgress w' = false
     end.
Proof.
  intros Hflag Hjobs Hturns syncPromise outcome result w'.
  unfold w', result, outcome, syncThenRun. clear w' result outcome.
  unfold bindR, liftW, retR, read. rewrite Hflag.
  rewrite (sync_admitted _ _ _ _ _ Hflag). fold syncPromise. simpl.
  pose proof (keepsSyncR_syncInternalBody options syncStatusChangeCallback
                downloadProgressCallback handleBinaryVersionMismatchCallback
                (set_world (started (world r)) r)) as (Hf & Hp & Hj).
  destruct (syncInternalBody _ _ _ _ _) as [outcome r1]. simpl in *.
  assert (Hin : inFlight syncPromise [] (world r1)).
  { destruct (started_inFlight (world r)) as (before & after & E1 & E2).
    exists before, after. split; [exact E1|]. now rewrite Hp. }
  assert (Hj1 : jobs (world r1) = []) by (rewrite Hj; exact Hjobs).
  assert (Hn : (length (@nil Reaction) + 2 <= turns)%nat) by (simpl; lia).
  destruct outcome as [[status|]|e]; simpl.
  - destruct (finishRun_clears_flag syncPromise [] (Fulfilled (Some status))
                (world r1) turns Hin Hj1 Hn) as (w2 & E & P & F).
    rewrite E. simpl. auto.
  - unfold bind, ret. rewrite (drain_empty turns (world r1) Hj1). simpl.
    split; [reflexivity|]. rewrite Hp, Hf. split; [|reflexivity].
    unfold syncPromise. norm. reflexivity.
  - destruct (finishRun_clears_flag syncPromise [] (Rejected e)
                (world r1) turns Hin Hj1 Hn) as (w2 & E & P & F).
    rewrite E. simpl. auto.
Qed.

Lemma sync_run_settles_witness :
  let update := sampleUpdate undefined (str "hash-2") in
  let e := sampleEnv (sampleConfiguration (str "key")) None (Some update) None 0 in
  let options := sampleSyncOptions (Prim null) in
  let result :=
    syncThenRun options (Function 5) (Prim undefined) (Prim undefined) 2
      (freshRun e sampleDevice) in
  fst result = Returns 0%nat
  /\ promises (world (snd result)) !! 0%nat
     = Some (Settled (Fulfilled (Some UPDATE_INSTALLED)))
  /\ syncInProgress (world (snd result)) = false.
Proof.
  intros update e options result.
  apply (sync_run_settles options (Function 5) (Prim undefined) (Prim undefined) 2
           (freshRun e sampleDevice) eq_refl eq_refl (le_n 2)).
Defined.

(** *** A run that finds no update *)

Lemma traceBlind_ret {A} (a : A) : traceBlind (ret a).
Proof. intros w1 w2 H. split; [reflexivity | exact H]. Qed.

Lemma traceBlind_lift {A} (c : completion A) : traceBlind (lift c).
Proof. intros w1 w2 H. split; [reflexivity | exact H]. Qed.

Lemma traceBlind_bind {A B} (m : M A) (k : A -> M B) :
  traceBlind m -> (forall a, traceBlind (k a)) -> traceBlind (bind m k).
Proof.
  intros Hm Hk w1 w2 H. unfold bind. destruct (Hm w1 w2 H) as [E Hs].
  destruct (m w1) as [[a1|e1] w1']; destruct (m w2) as [[a2|e2] w2'];
    simpl in *; try discriminate.
  - injection E as ->. now apply Hk.
  - injection E as ->. split; [reflexivity | assumption].
Qed.

Lemma traceBlind_emit e : traceBlind (emit e).
Proof.
  intros w1 w2 (H1 & H2 & H3 & H4 & H5 & H6 & H7 & H8).
  split; [reflexivity|]. repeat split; assumption.
Qed.

Lemma traceBlind_external {A} call (a : A) : traceBlind (external call a).
Proof.
  intros w1 w2 H. unfold external.
  assert (E : env w1 = env w2) by apply H. rewrite E.
  destruct (fails (env w2) call); split; (reflexivity || exact H).
Qed.

Lemma traceBlind_deref l : traceBlind (deref l).
Proof.
  intros w1 w2 H. unfold deref.
  assert (E : heap w1 = heap w2) by apply H. rewrite E.
  destruct (heap w2 !! l); split; (reflexivity || exact H).
Qed.

Lemma traceBlind_alloc c : traceBlind (alloc c).
Proof.
  intros w1 w2 (H1 & H2 & H3 & H4 & H5 & H6 & H7 & H8). unfold alloc. simpl.
  rewrite H1. split; [reflexivity|]. repeat split; simpl; congruence.
Qed.

Lemma traceBlind_set_configCache o : traceBlind (modify (set_configCache o)).
Proof.
  intros w1 w2 (H1 & H2 & H3 & H4 & H5 & H6 & H7 & H8).
  split; [reflexivity|]. repeat split; assumption.
Qed.

Lemma traceBlind_read {A} (f : World -> A) :
  (forall w1 w2, sameButTrace w1 w2 -> f w1 = f w2) -> traceBlind (read f).
Proof.
  intros Hf w1 w2 H. unfold read. simpl. split; [now rewrite (Hf w1 w2 H) | exact H].
Qed.

Ltac blind_read :=
  apply traceBlind_read;
  let H := fresh in
  intros ? ? H;
  first [ apply H
        | assert (E : forall w1 w2, sameButTrace w1 w2 -> env w1 = env w2)
            by (intros ? ? K; apply K);
          now rewrite (E _ _ H) ].

Ltac blind_step :=
  match goal with
  | |- traceBlind (bind _ _) => apply traceBlind_bind; [|intros ?]
  | |- traceBlind (ret _) => apply traceBlind_ret
  | |- traceBlind (lift _) => apply traceBlind_lift
  | |- traceBlind (emit _) => apply traceBlind_emit
  | |- traceBlind (log _) => apply traceBlind_emit
  | |- traceBlind (external _ _) => apply traceBlind_external
  | |- traceBlind (deref _) => apply traceBlind_deref
  | |- traceBlind (alloc _) => apply traceBlind_alloc
  | |- traceBlind (modify (set_configCache _)) => apply traceBlind_set_configCache
  | |- traceBlind (read _) => blind_read
  | |- traceBlind (match ?x with _ => _ end) => destruct x
  | |- traceBlind (if ?x then _ else _) => destruct x
  | |- traceBlind (let _ := _ in _) => cbv zeta
  end.

Lemma traceBlind_checkForUpdate key cb : traceBlind (checkForUpdate key cb).
Proof.
  unfold checkForUpdate, resolveUpdate, getConfiguration, getCurrentPackage,
    getUpdateMetadata, getPromisifiedSdk, customUpdateCheck,
    sdk_queryUpdateWithCurrentPackage.
  repeat blind_step.
Qed.

Lemma traceBlind_getUpdateMetadata s : traceBlind (getUpdateMetadata s).
Proof. unfold getUpdateMetadata. repeat blind_step. Qed.

Lemma sameButTrace_set_trace f w : sameButTrace (set_trace f w) w.
Proof. repeat split. Qed.

Lemma checkForUpdate_env key cb w : env (snd (checkForUpdate key cb w)) = env w.
Proof.
  assert (S : stable (checkForUpdate key cb)).
  { unfold checkForUpdate. apply stable_bind; [apply stable_resolveUpdate|].
    intros r. repeat stable_step. }
  apply (S w).
Qed.

Lemma getUpdateMetadata_env s w1 w2 :
  env w1 = env w2 -> fst (getUpdateMetadata s w1) = fst (getUpdateMetadata s w2).
Proof.
  intros E. unfold getUpdateMetadata, bind, read, external, ret. simpl. rewrite E.
  destruct (fails (env w2) GetUpdateMetadata); [reflexivity|].
  destruct (nativeUpdateMetadata (env w2) (default RUNNING s)); [|reflexivity].
  simpl. rewrite E.
  destruct (fails (env w2) IsFailedUpdate); [reflexivity|].
  simpl. rewrite E.
  destruct (fails (env w2) IsFirstRun); reflexivity.
Qed.

(** X30. A run that finds no update.  When the app has been told ready
    and, in the state this leaves, the update check returns no package
    and the current package can be read, the run of [syncInternal]
    signals [CHECKING_FOR_UPDATE] and then one more status, with which
    it ends: [UPDATE_INSTALLED] if the current package is pending,
    [UP_TO_DATE] otherwise.  It downloads, installs and asks nothing,
    whatever the status callback does. *)
Theorem syncInternal_without_update
    (syncOptions : SyncOptions)
    (callback downloadProgressCallback handleBinaryVersionMismatchCallback : value)
    (r ready : Run) (report : option StatusReport)
    (currentPackage : option LocalPackage) :
  notifyApplicationReady (set_resolvedInstallMode undefined r) = (Returns report, ready) ->
  fst (checkForUpdate (sync_deploymentKey syncOptions)
         handleBinaryVersionMismatchCallback (world ready)) = Returns None ->
  fst (getCurrentPackage (world ready)) = Returns currentPackage ->
  let result :=
    syncInternalBody syncOptions callback downloadProgressCallback
      handleBinaryVersionMismatchCallback r in
  let status := if isPending currentPackage then UPDATE_INSTALLED else UP_TO_DATE in
  fst result = Returns (Finished status)
  /\ activity (snd result)
     = activity ready ++ [StatusChanged CHECKING_FOR_UPDATE; StatusChanged status].
Proof.
  intros Hready Hcheck Hcurrent result status.
  assert (H : exists r',
             result = (Returns (Finished status), r')
             /\ activity r'
                = activity ready
                  ++ [StatusChanged CHECKING_FOR_UPDATE; StatusChanged status]);
    [|destruct H as (r' & -> & Ha); split; [reflexivity | exact Ha]].
  subst result.
  unfold syncInternalBody, bindR at 1, modifyR at 1.
  unfold try_catchR. unfold bindR at 1. rewrite Hready.
  unfold bindR at 1.
  destruct (signal_world callback syncOptions CHECKING_FOR_UPDATE ready)
    as (events & _ & ->).
  unfold bindR at 1. unfold liftW at 1. simpl.
  set (w1 := set_trace (fun t => t ++ events) (world ready)).
  destruct (traceBlind_checkForUpdate (sync_deploymentKey syncOptions)
              handleBinaryVersionMismatchCallback w1 (world ready)
              (sameButTrace_set_trace _ _)) as [Hfst _].
  rewrite Hcheck in Hfst.
  pose proof (checkForUpdate_env (sync_deploymentKey syncOptions)
                handleBinaryVersionMismatchCallback w1) as Henv.
  destruct (checkForUpdate (sync_deploymentKey syncOptions)
              handleBinaryVersionMismatchCallback w1) as [c w2].
  simpl in Hfst, Henv. subst c.
  unfold bindR at 1. unfold liftW at 1. simpl.
  unfold bindR at 1. unfold retR at 1.
  unfold bindR at 1. unfold liftW at 1. simpl.
  pose proof (getUpdateMetadata_env (Some LATEST) w2 (world ready)) as Hcur.
  unfold getCurrentPackage in Hcurrent. rewrite Hcurrent in Hcur.
  unfold getCurrentPackage.
  destruct (getUpdateMetadata (Some LATEST) w2) as [c w3].
  simpl in Hcur. rewrite Hcur by exact Henv.
  subst status.
  destruct (isPending currentPackage); unfold bindR, retR;
    match goal with
    | |- context [syncStatusChangeCallback ?cb ?o ?s ?r0] =>
        destruct (signal_spec cb o s r0) as (w & ->)
    end; simpl; eexists; (split; [reflexivity | simpl; now rewrite <- app_assoc]).
Qed.

Lemma syncInternal_without_update_witness :
  let r := freshRun (sampleEnv (sampleConfiguration (str "key")) None None None 0)
             sampleDevice in
  let result :=
    syncInternalBody (sampleSyncOptions (Prim null)) (Function 5) (Prim undefined)
      (Prim undefined) r in
  fst result = Returns (Finished UP_TO_DATE)
  /\ activity (snd result)
     = [NativeNotifyApplicationReady; StatusChanged CHECKING_FOR_UPDATE;
        StatusChanged UP_TO_DATE].
Proof.
  intros r result.
  apply (syncInternal_without_update (sampleSyncOptions (Prim null)) (Function 5)
           (Prim undefined) (Prim undefined) r
           (snd (notifyApplicationReady (set_resolvedInstallMode undefined r)))
           None None);
    vm_compute; reflexivity.
Defined.
